(** * cf-waf-analyzer: the ingestion pipeline, embedded and verified

    A shallow embedding of the ingestion-normalization-aggregation core of
    the WAF analytics worker:

    - [lib/parser.ts]: [parseWAFRecord] and its helpers (module [Parser]);
    - [functions/api/upload.ts]: [handleUpload], [processFile],
      [parseContent], [insertEventBatch], [updateAnalyticsTables] (module
      [Upload]);
    - [functions/api/reindex.ts]: [handleReindex] (module [Reindex]);
    - [functions/api/[[route]].ts]: [onRequest] (module [Route]);
    - [lib/parser.ts]: the text of [computeChecksum] (module [Checksum]);
    - [functions/api/trends.ts]: the series of [handleTrends] (module
      [Trends]);
    - [functions/api/events.ts]: the query of [handleEvents] (module
      [Events]);
    - the SQL schema: the tables and their uniqueness constraints (module
      [Store]).

    Conventions of the embedding.

    - A JavaScript value produced by [JSON.parse] is a [JsVal].  Numbers are
      modelled by the integers they denote ([Z]); the arithmetic the code
      performs on them (comparison with 10^10, multiplication by 1000) is
      exact on integers of magnitude below 2^53.
    - Strings are [string]s of Latin-1 code units.
    - [JSON.parse], [Date.parse], the SHA-256 digest, the wall clock,
      SQLite's [randomblob] and the number of arguments that the engine
      takes in one call belong to the runtime, not to the repository: they
      are parameters of the sections that use them.
    - Code that reads and writes the database is written in a state and
      exception monad over the [World] (D1 tables and R2 bucket).  Storage
      outages are not modelled: a statement fails only by a constraint
      (UNIQUE, NOT NULL, the foreign key of [waf_events.file_id]), and a
      batch fails by a statement or by having none; a batch that fails
      writes nothing. *)

From Stdlib Require Import ZArith NArith List String Ascii Bool Lia Arith.
From Stdlib Require Import Permutation.
Import ListNotations.

Local Open Scope string_scope.
Local Open Scope Z_scope.

(* ================================================================== *)
(** * JavaScript values *)
(* ================================================================== *)

Module Js.

#[local] Unset Elimination Schemes.
Inductive JsVal : Type :=
| JUndefined
| JNull
| JBool (b : bool)
| JNum (z : Z)
| JStr (s : string)
| JArr (elems : list JsVal)
| JObj (fields : list (string * JsVal)).
#[local] Set Elimination Schemes.

(** Outcome of an evaluation that may throw.  The payload of [Throw] is the
    text that [`${e}`] renders.  [Diverge] is a call that never returns. *)
Inductive res (A : Type) : Type :=
| Ok (a : A)
| Throw (e : string)
| Diverge.
Arguments Ok {A} a.
Arguments Throw {A} e.
Arguments Diverge {A}.

(** [!!v] *)
Definition truthy (v : JsVal) : bool :=
  match v with
  | JUndefined | JNull => false
  | JBool b => b
  | JNum z => negb (z =? 0)
  | JStr s => negb (String.eqb s EmptyString)
  | JArr _ | JObj _ => true
  end.

(** [a || b] on values *)
Definition js_or (a b : JsVal) : JsVal := if truthy a then a else b.

(** [a || b] where both have type [string | undefined] *)
Definition str_or (a b : option string) : option string :=
  match a with
  | Some s => if String.eqb s EmptyString then b else a
  | None => b
  end.

(** [n || undefined] where [n : number | undefined] *)
Definition num_or_undefined (n : option Z) : option Z :=
  match n with
  | Some z => if z =? 0 then None else Some z
  | None => None
  end.

Definition is_nullish (v : JsVal) : bool :=
  match v with JUndefined | JNull => true | _ => false end.

Fixpoint lookup (k : string) (fields : list (string * JsVal)) : JsVal :=
  match fields with
  | [] => JUndefined
  | (k', v) :: rest => if String.eqb k k' then v else lookup k rest
  end.

(** [v.k] for a [v] that is neither [null] nor [undefined] (there the read
    throws a TypeError).  None of the keys the parser reads is a property
    of the String, Number, Boolean or Array prototypes, so on a primitive
    or an array the read gives [undefined]. *)
Definition prop (v : JsVal) (k : string) : JsVal :=
  match v with
  | JObj fields => lookup k fields
  | _ => JUndefined
  end.

(** [Array.isArray(v) && v.length > 0], then [typeof v[0] === 'string' ? v[0] : undefined] *)
Definition nonempty_array (v : JsVal) : bool :=
  match v with JArr (_ :: _) => true | _ => false end.

Definition first_if_string (v : JsVal) : option string :=
  match v with JArr (JStr s :: _) => Some s | _ => None end.

Definition is_string (v : JsVal) : bool :=
  match v with JStr _ => true | _ => false end.

Definition string_of (v : JsVal) : option string :=
  match v with JStr s => Some s | _ => None end.

(** ** String primitives *)

(** White space removed by [trim] and skipped by [parseInt]: TAB, LF, VT,
    FF, CR, SP and NBSP. *)
Definition is_space (c : ascii) : bool :=
  let n := nat_of_ascii c in
  ((9 <=? n) && (n <=? 13) || (n =? 32) || (n =? 160))%nat.

Fixpoint trim_start (s : string) : string :=
  match s with
  | String c s' => if is_space c then trim_start s' else s
  | EmptyString => EmptyString
  end.

(** [s.trim()] is non-empty iff some character of [s] is not white space. *)
Fixpoint trim_truthy (s : string) : bool :=
  match s with
  | String c s' => if is_space c then trim_truthy s' else true
  | EmptyString => false
  end.

Definition LF : ascii := ascii_of_nat 10.
Definition newline : string := String LF EmptyString.

(** [s.split('\n')] *)
Fixpoint split_lines_aux (cur : string) (s : string) : list string :=
  match s with
  | EmptyString => [cur]
  | String c s' =>
      if Ascii.eqb c LF then cur :: split_lines_aux EmptyString s'
      else split_lines_aux (cur ++ String c EmptyString) s'
  end.

Definition split_lines (s : string) : list string :=
  split_lines_aux EmptyString s.

(** Lower case of a Latin-1 code unit: A-Z, and the accented capitals
    U+00C0-U+00DE without the multiplication sign U+00D7. *)
Definition to_lower (c : ascii) : ascii :=
  let n := nat_of_ascii c in
  if ((65 <=? n) && (n <=? 90)
      || (192 <=? n) && (n <=? 222) && negb (n =? 215))%nat
  then ascii_of_nat (n + 32) else c.

Fixpoint toLowerCase (s : string) : string :=
  match s with
  | EmptyString => EmptyString
  | String c s' => String (to_lower c) (toLowerCase s')
  end.

(** [s.replace(/[_-]/g, '')] *)
Fixpoint strip_separators (s : string) : string :=
  match s with
  | EmptyString => EmptyString
  | String c s' =>
      if (Ascii.eqb c "_" || Ascii.eqb c "-")%char%bool
      then strip_separators s'
      else String c (strip_separators s')
  end.

Definition startsWith (s p : string) : bool := String.prefix p s.

Fixpoint includes (s p : string) : bool :=
  String.prefix p s ||
  match s with
  | EmptyString => false
  | String _ s' => includes s' p
  end.

(** ** [parseInt] *)

Definition digit_value (c : ascii) : option Z :=
  let n := Z.of_nat (nat_of_ascii c) in
  if (48 <=? n) && (n <=? 57) then Some (n - 48)
  else if (97 <=? n) && (n <=? 122) then Some (n - 87)
  else if (65 <=? n) && (n <=? 90) then Some (n - 55)
  else None.

(** The longest prefix of digits below [radix], read as a number;
    [None] when that prefix is empty. *)
Fixpoint parse_digits (radix : Z) (s : string) (acc : option Z) : option Z :=
  match s with
  | EmptyString => acc
  | String c s' =>
      match digit_value c with
      | Some d =>
          if d <? radix
          then parse_digits radix s'
                 (Some (radix * match acc with Some a => a | None => 0 end + d))
          else acc
      | None => acc
      end
  end.

Definition strip_sign (s : string) : bool * string :=
  match s with
  | String c s' =>
      if Ascii.eqb c "-"%char then (true, s')
      else if Ascii.eqb c "+"%char then (false, s')
      else (false, s)
  | EmptyString => (false, s)
  end.

Definition strip_hex_prefix (s : string) : option string :=
  match s with
  | String c1 (String c2 s') =>
      if (Ascii.eqb c1 "0" && (Ascii.eqb c2 "x" || Ascii.eqb c2 "X"))%char%bool
      then Some s' else None
  | _ => None
  end.

(** [parseInt(s, radix)]; [radix = 0] stands for an omitted radix.
    [None] is NaN. *)
Definition parseInt (s : string) (radix : Z) : option Z :=
  let '(neg, body) := strip_sign (trim_start s) in
  if negb (radix =? 0) && ((radix <? 2) || (36 <? radix)) then None
  else
    let '(r, digits) :=
      if (radix =? 0) || (radix =? 16) then
        match strip_hex_prefix body with
        | Some rest => (16, rest)
        | None => ((if radix =? 0 then 10 else radix), body)
        end
      else (radix, body) in
    match parse_digits r digits None with
    | Some n => Some (if neg then - n else n)
    | None => None
    end.

(** ** Numbers that can be NaN, and [Array.prototype.slice] *)

(** An integer or NaN ([None]): [a + b] and [a < b]. *)
Definition num_add (a b : option Z) : option Z :=
  match a, b with
  | Some x, Some y => Some (x + y)
  | _, _ => None
  end.

Definition num_lt (a : option Z) (b : Z) : bool :=
  match a with
  | Some x => x <? b
  | None => false
  end.

(** The index that [slice] makes of an argument: NaN counts as 0, a
    negative number counts from the end, and the result stays within the
    array. *)
Definition relative_index (len : Z) (index : option Z) : Z :=
  let relative := match index with Some z => z | None => 0 end in
  if relative <? 0 then Z.max (len + relative) 0 else Z.min relative len.

(** [l.slice(start, end)] *)
Definition slice {A} (l : list A) (start finish : option Z) : list A :=
  let len := Z.of_nat (List.length l) in
  let k := relative_index len start in
  let final := relative_index len finish in
  firstn (Z.to_nat (final - k)) (skipn (Z.to_nat k) l).

(** ** Exceptions *)

(** An exception is carried as the text that [`${e}`] renders, the name
    of the error, a colon, a space and the message; this is
    [error.message]. *)
Fixpoint message_of (e : string) : string :=
  match e with
  | EmptyString => EmptyString
  | String c rest =>
      match rest with
      | EmptyString => EmptyString
      | String d rest' =>
          if Ascii.eqb c ":" && Ascii.eqb d " " then rest' else message_of rest
      end
  end.

End Js.

(* ================================================================== *)
(** * lib/parser.ts: the field normalizer *)
(* ================================================================== *)

Module Parser.
Import Js.

Inductive RuleType := managed | custom | unknown_rule.
Inductive Action := block | challenge | log | skip | allow | unknown_action.

(** [WAFEvent] as [parseWAFRecord] builds it ([id], [file_id] and
    [ingested_at] are given to the row when the event is inserted). *)
Record WAFEvent := mkEvent {
  ray_id : string;
  event_ts : Z;
  src_ip : option string;
  src_country : option string;
  src_asn : option Z;
  colo : option string;
  host : option string;
  path : option string;
  method : option string;
  status : option Z;
  rule_id : option string;
  rule_name : option string;
  rule_type : RuleType;
  action : Action;
  service : option string;
  mitigation_reason : option string;
  ua : option string;
  ja3 : option string;
  bytes : option Z;
  threat_score : option Z
}.

Definition extractString (value : JsVal) : option string :=
  match value with
  | JStr s => if String.eqb s EmptyString then None else Some s
  | _ => None
  end.

Definition safeString (value : JsVal) : option string :=
  match value with
  | JStr s => if String.eqb s EmptyString then None else Some s
  | _ => None
  end.

Definition normalizeNumber (value : JsVal) : option Z :=
  match value with
  | JNull | JUndefined => None
  | JNum z => Some z
  | JStr s => parseInt s 10
  | _ => None
  end.

Definition normalizeAction (a : option string) : Action :=
  match a with
  | None => unknown_action
  | Some s =>
      if String.eqb s EmptyString then unknown_action
      else
        let normalized := strip_separators (toLowerCase s) in
        if String.eqb normalized "block" then block
        else if String.eqb normalized "blocked" then block
        else if String.eqb normalized "challenge" then challenge
        else if String.eqb normalized "challenged" then challenge
        else if String.eqb normalized "jschallenge" then challenge
        else if String.eqb normalized "managedchallenge" then challenge
        else if String.eqb normalized "managed_challenge" then challenge
        else if String.eqb normalized "log" then log
        else if String.eqb normalized "logged" then log
        else if String.eqb normalized "skip" then skip
        else if String.eqb normalized "skipped" then skip
        else if String.eqb normalized "bypass" then skip
        else if String.eqb normalized "allow" then allow
        else if String.eqb normalized "allowed" then allow
        else if String.eqb normalized "pass" then allow
        else unknown_action
  end.

Definition determineRuleType (ruleId service : option string) : RuleType :=
  match ruleId with
  | None => unknown_rule
  | Some r =>
      if String.eqb r EmptyString then unknown_rule
      else
        let service_is v :=
          match service with Some s => String.eqb s v | None => false end in
        if startsWith r "managed_" || includes r "OWASP"
           || includes r "cloudflare" || service_is "managed"
        then managed
        else if startsWith r "custom_" || service_is "custom"
        then custom
        else unknown_rule
  end.

Definition SECONDS_THRESHOLD : Z := 10000000000.

Section WithDateParse.

(** [Date.parse]: the time value in milliseconds, [None] for NaN. *)
Variable Date_parse : string -> option Z.

Definition normalizeTimestamp (value : JsVal) : option Z :=
  if negb (truthy value) then None
  else match value with
  | JNum v => if v <? SECONDS_THRESHOLD then Some (v * 1000) else Some v
  | JStr s =>
      match Date_parse s with
      | Some parsed => Some parsed
      | None =>
          match parseInt s 0 with
          | Some num =>
              Some (if num <? SECONDS_THRESHOLD then num * 1000 else num)
          | None => None
          end
      end
  | _ => None
  end.

Notation "a '.[' k ']'" := (prop a k) (at level 1, format "a .[ k ]").
Infix "<||>" := str_or (at level 51, right associativity).
Infix "<|>" := js_or (at level 51, right associativity).

(** The timestamp the record is read with: the first truthy alias. *)
Definition timestamp_of (raw : JsVal) : JsVal :=
  raw.["EdgeStartTimestamp"] <|> raw.["edgeStartTimestamp"] <|>
  raw.["timestamp"] <|> raw.["event_timestamp"] <|> raw.["datetime"].

Definition rayId_of (raw : JsVal) : option string :=
  extractString raw.["RayID"] <||> extractString raw.["rayId"] <||>
  extractString raw.["ray_id"] <||> extractString raw.["rayName"] <||>
  extractString raw.["ray_name"].

Definition asn_of (raw : JsVal) : JsVal :=
  raw.["ClientASN"] <|> raw.["clientASN"] <|> raw.["client_asn"] <|>
  raw.["clientAsn"] <|> raw.["client_asn"].

Definition status_of (raw : JsVal) : JsVal :=
  raw.["EdgeResponseStatus"] <|> raw.["edgeResponseStatus"] <|>
  raw.["status"] <|> raw.["edgeResponseStatus"] <|>
  raw.["edge_response_status"].

Definition bytes_of (raw : JsVal) : JsVal :=
  raw.["ClientRequestBytes"] <|> raw.["clientRequestBytes"] <|>
  raw.["bytes"] <|> raw.["clientRequestBytes"] <|>
  raw.["client_request_bytes"].

Definition threat_of (raw : JsVal) : JsVal :=
  raw.["SecurityLevel"] <|> raw.["securityLevel"] <|> raw.["threat_score"].

Definition ruleId_of (raw : JsVal) : option string :=
  if nonempty_array raw.["FirewallMatchesRuleIDs"]
  then first_if_string raw.["FirewallMatchesRuleIDs"]
  else if nonempty_array raw.["firewallMatchesRuleIDs"]
  then first_if_string raw.["firewallMatchesRuleIDs"]
  else if is_string raw.["rule_id"] then string_of raw.["rule_id"]
  else if is_string raw.["ruleId"] then string_of raw.["ruleId"]
  else if is_string raw.["WAFRuleID"] then string_of raw.["WAFRuleID"]
  else if is_string raw.["wafRuleID"] then string_of raw.["wafRuleID"]
  else None.

Definition actionValue_of (raw : JsVal) : option string :=
  if nonempty_array raw.["FirewallMatchesActions"]
  then first_if_string raw.["FirewallMatchesActions"]
  else if nonempty_array raw.["firewallMatchesActions"]
  then first_if_string raw.["firewallMatchesActions"]
  else if is_string raw.["action"] then string_of raw.["action"]
  else if is_string raw.["WAFAction"] then string_of raw.["WAFAction"]
  else if is_string raw.["wafAction"] then string_of raw.["wafAction"]
  else None.

Definition service_of (raw : JsVal) : option string :=
  if nonempty_array raw.["FirewallMatchesSources"]
  then first_if_string raw.["FirewallMatchesSources"]
  else if nonempty_array raw.["firewallMatchesSources"]
  then first_if_string raw.["firewallMatchesSources"]
  else if is_string raw.["service"] then string_of raw.["service"]
  else if is_string raw.["source"] then string_of raw.["source"]
  else None.

(** The body of the [try] block.  [raw.RayID], its first statement, throws
    when [raw] is [null] or [undefined]; nothing after it can throw. *)
Definition parseWAFRecord_try (raw : JsVal) : res (option WAFEvent) :=
  if is_nullish raw
  then Throw "TypeError: Cannot read properties of null"
  else
    match rayId_of raw with
    | None => Ok None
    | Some rayId =>
    let eventTs := normalizeTimestamp (timestamp_of raw) in
    match eventTs with
    | None => Ok None
    | Some ts =>
    if ts =? 0 then Ok None else
    let srcIp :=
      extractString raw.["ClientIP"] <||> extractString raw.["clientIP"] <||>
      extractString raw.["client_ip"] <||> extractString raw.["source_ip"] in
    let srcCountry :=
      extractString raw.["ClientCountry"] <||> extractString raw.["clientCountry"] <||>
      extractString raw.["client_country"] <||> extractString raw.["clientCountryName"] <||>
      extractString raw.["client_country_name"] in
    let srcAsn := normalizeNumber (asn_of raw) in
    let colo :=
      extractString raw.["EdgeColoCode"] <||> extractString raw.["edgeColoCode"] <||>
      extractString raw.["colo"] <||> extractString raw.["datacenter"] <||>
      extractString raw.["edgeColo"] <||> extractString raw.["edge_colo"] in
    let host :=
      extractString raw.["ClientRequestHost"] <||> extractString raw.["clientRequestHost"] <||>
      extractString raw.["host"] <||> extractString raw.["hostname"] <||>
      extractString raw.["clientRequestHTTPHost"] <||>
      extractString raw.["client_request_http_host"] in
    let path :=
      extractString raw.["ClientRequestPath"] <||> extractString raw.["clientRequestPath"] <||>
      extractString raw.["path"] <||> extractString raw.["uri"] <||>
      extractString raw.["clientRequestPath"] <||>
      extractString raw.["client_request_path"] in
    let method :=
      extractString raw.["ClientRequestMethod"] <||> extractString raw.["clientRequestMethod"] <||>
      extractString raw.["method"] <||>
      extractString raw.["clientRequestHTTPMethodName"] <||>
      extractString raw.["client_request_http_method_name"] in
    let status := normalizeNumber (status_of raw) in
    let ruleId := ruleId_of raw in
    let action := normalizeAction (actionValue_of raw) in
    let service := service_of raw in
    let ruleName :=
      safeString raw.["WAFRuleMessage"] <||> safeString raw.["wafRuleMessage"] <||>
      safeString raw.["rule_name"] <||> safeString raw.["description"] in
    let ruleType := determineRuleType ruleId service in
    let ua :=
      extractString raw.["ClientRequestUserAgent"] <||>
      extractString raw.["clientRequestUserAgent"] <||>
      extractString raw.["user_agent"] <||> extractString raw.["ua"] <||>
      extractString raw.["userAgent"] in
    let ja3 :=
      extractString raw.["JA3Hash"] <||> extractString raw.["ja3Hash"] <||>
      extractString raw.["ja3"] in
    let bytes := normalizeNumber (bytes_of raw) in
    let threatScore := normalizeNumber (threat_of raw) in
    Ok (Some {|
      ray_id := rayId;
      event_ts := ts;
      src_ip := srcIp <||> None;
      src_country := srcCountry <||> None;
      src_asn := num_or_undefined srcAsn;
      colo := colo <||> None;
      host := host <||> None;
      path := path <||> None;
      method := method <||> None;
      status := num_or_undefined status;
      rule_id := ruleId <||> None;
      rule_name := ruleName;
      rule_type := ruleType;
      action := action;
      service := service <||> None;
      mitigation_reason := safeString raw.["mitigation_reason"];
      ua := ua <||> None;
      ja3 := ja3 <||> None;
      bytes := num_or_undefined bytes;
      threat_score := num_or_undefined threatScore
    |})
    end end.

(** [parseWAFRecord]: the [try] body, with the [catch] that logs and
    returns [null]. *)
Definition parseWAFRecord_exn (raw : JsVal) : res (option WAFEvent) :=
  match parseWAFRecord_try raw with
  | Ok r => Ok r
  | Throw _ => Ok None
  | Diverge => Diverge
  end.

Definition parseWAFRecord (raw : JsVal) : option WAFEvent :=
  match parseWAFRecord_exn raw with
  | Ok r => r
  | _ => None
  end.

End WithDateParse.

End Parser.

(* ================================================================== *)
(** * The SQL schema: tables, constraints and the statements run on them *)
(* ================================================================== *)

Module Store.
Import Js.

(** [uploads].  The three counters are nullable with default 0. *)
Record UploadRow := mkUpload {
  up_id : Z;
  up_filename : string;
  up_checksum : string;
  up_size : Z;
  up_uploaded_at : Z;
  up_raw_r2_key : option string;
  up_total_records : option Z;
  up_inserted_records : option Z;
  up_deduped_records : option Z
}.

(** The 22 values bound to the [INSERT OR IGNORE INTO waf_events] statement.
    [action] is nullable in the schema; every insert of the code binds a
    text, and [daily_actions.action] is NOT NULL, so it is a [string] here. *)
Record EventValues := mkValues {
  v_ray_id : string;
  v_event_ts : Z;
  v_src_ip : option string;
  v_src_country : option string;
  v_src_asn : option Z;
  v_colo : option string;
  v_host : option string;
  v_path : option string;
  v_method : option string;
  v_status : option Z;
  v_rule_id : option string;
  v_rule_name : option string;
  v_rule_type : option string;
  v_action : string;
  v_service : option string;
  v_mitigation_reason : option string;
  v_ua : option string;
  v_ja3 : option string;
  v_bytes : option Z;
  v_threat_score : option Z;
  v_file_id : Z;
  v_ingested_at : Z
}.

(** A stored [waf_events] row: the AUTOINCREMENT id and the values. *)
Record EventRow := mkRow { e_id : Z; e_vals : EventValues }.

(** [daily_actions]; the [date] text YYYY-MM-DD is represented by the
    number of its day since the epoch (the rendering is injective). *)
Record DailyRow := mkDaily {
  da_date : Z;
  da_action : string;
  da_count : Z;
  da_last_updated : Z
}.

Record RuleRow := mkRule {
  tr_rule_id : string;
  tr_rule_name : option string;
  tr_rule_type : option string;
  tr_count : Z;
  tr_last_seen : option Z;
  tr_last_updated : Z
}.

(** [top_ips]; [countries] and [asns] hold JSON arrays, here the lists of
    their elements ([None] is a JSON null). *)
Record IpRow := mkIp {
  ip_src_ip : string;
  ip_count : Z;
  ip_countries : list (option string);
  ip_asns : list (option Z);
  ip_last_seen : option Z;
  ip_last_updated : Z
}.

Record PathRow := mkPath {
  ap_path_hash : string;
  ap_path : string;
  ap_method : option string;
  ap_status : option Z;
  ap_count : Z;
  ap_last_seen : option Z;
  ap_last_updated : Z
}.

(** The D1 database, the R2 bucket and the number of [randomblob] draws
    made so far.  [uploads_seq] and [events_seq] are the AUTOINCREMENT
    counters of [sqlite_sequence]. *)
Record World := mkWorld {
  uploads : list UploadRow;
  uploads_seq : Z;
  waf_events : list EventRow;
  events_seq : Z;
  daily_actions : list DailyRow;
  top_rules : list RuleRow;
  top_ips : list IpRow;
  attack_paths : list PathRow;
  r2 : list (string * string);
  draws : nat
}.

Definition set_uploads (f : list UploadRow -> list UploadRow) (w : World) :=
  mkWorld (f (uploads w)) (uploads_seq w) (waf_events w) (events_seq w)
    (daily_actions w) (top_rules w) (top_ips w) (attack_paths w) (r2 w) (draws w).
Definition set_events (f : list EventRow -> list EventRow) (w : World) :=
  mkWorld (uploads w) (uploads_seq w) (f (waf_events w)) (events_seq w)
    (daily_actions w) (top_rules w) (top_ips w) (attack_paths w) (r2 w) (draws w).
Definition set_daily_actions (t : list DailyRow) (w : World) :=
  mkWorld (uploads w) (uploads_seq w) (waf_events w) (events_seq w)
    t (top_rules w) (top_ips w) (attack_paths w) (r2 w) (draws w).
Definition set_top_rules (t : list RuleRow) (w : World) :=
  mkWorld (uploads w) (uploads_seq w) (waf_events w) (events_seq w)
    (daily_actions w) t (top_ips w) (attack_paths w) (r2 w) (draws w).
Definition set_top_ips (t : list IpRow) (w : World) :=
  mkWorld (uploads w) (uploads_seq w) (waf_events w) (events_seq w)
    (daily_actions w) (top_rules w) t (attack_paths w) (r2 w) (draws w).
Definition set_attack_paths (t : list PathRow) (n : nat) (w : World) :=
  mkWorld (uploads w) (uploads_seq w) (waf_events w) (events_seq w)
    (daily_actions w) (top_rules w) (top_ips w) t (r2 w) n.

(** The four rollup tables of a world. *)
Definition rollups (w : World) :=
  (daily_actions w, top_rules w, top_ips w, attack_paths w).

(** ** The state and exception monad *)

Definition M (A : Type) : Type := World -> res A * World.

Definition ret {A} (a : A) : M A := fun w => (Ok a, w).

Definition bind {A B} (m : M A) (k : A -> M B) : M B :=
  fun w =>
    match m w with
    | (Ok a, w') => k a w'
    | (Throw e, w') => (Throw e, w')
    | (Diverge, w') => (Diverge, w')
    end.

Definition throw {A} (e : string) : M A := fun w => (Throw e, w).
Definition get : M World := fun w => (Ok w, w).
Definition modify (f : World -> World) : M unit := fun w => (Ok tt, f w).

Notation "x <- m ;; k" := (bind m (fun x => k))
  (at level 61, m at next level, right associativity).
Notation "m ;;; k" := (bind m (fun _ => k))
  (at level 61, right associativity).

(** ** [uploads] *)

(** [SELECT ... FROM uploads WHERE checksum = ?], [.first()] *)
Definition select_upload_by_checksum (c : string) : M (option UploadRow) :=
  w <- get ;;
  ret (find (fun u => String.eqb (up_checksum u) c) (uploads w)).

(** [SELECT * FROM uploads WHERE id = ?], [.first()] *)
Definition select_upload_by_id (id : Z) : M (option UploadRow) :=
  w <- get ;;
  ret (find (fun u => up_id u =? id) (uploads w)).

(** [DELETE FROM uploads WHERE id = ?]; [waf_events.file_id] references
    [uploads(id)] ON DELETE CASCADE, and D1 enforces foreign keys. *)
Definition delete_upload (id : Z) : M unit :=
  modify (fun w =>
    set_events (filter (fun e => negb (v_file_id (e_vals e) =? id)))
      (set_uploads (filter (fun u => negb (up_id u =? id))) w)).

(** [INSERT INTO uploads (filename, checksum, size, uploaded_at)]; gives
    [meta.last_row_id].  [checksum] is UNIQUE. *)
Definition insert_upload (filename checksum : string) (size now : Z) : M Z :=
  w <- get ;;
  if existsb (fun u => String.eqb (up_checksum u) checksum) (uploads w)
  then throw "Error: D1_ERROR: UNIQUE constraint failed: uploads.checksum"
  else
    let id := uploads_seq w + 1 in
    modify (fun w =>
      mkWorld
        (uploads w ++
           [mkUpload id filename checksum size now None (Some 0) (Some 0) (Some 0)])
        id (waf_events w) (events_seq w)
        (daily_actions w) (top_rules w) (top_ips w) (attack_paths w)
        (r2 w) (draws w)) ;;;
    ret id.

Definition update_upload (id : Z) (f : UploadRow -> UploadRow) : M unit :=
  modify (set_uploads (map (fun u => if up_id u =? id then f u else u))).

(** [UPDATE uploads SET raw_r2_key = ? WHERE id = ?] *)
Definition set_raw_r2_key (key : string) (id : Z) : M unit :=
  update_upload id (fun u =>
    mkUpload (up_id u) (up_filename u) (up_checksum u) (up_size u)
      (up_uploaded_at u) (Some key)
      (up_total_records u) (up_inserted_records u) (up_deduped_records u)).

(** [UPDATE uploads SET total_records = ? WHERE id = ?] *)
Definition set_total_records (total id : Z) : M unit :=
  update_upload id (fun u =>
    mkUpload (up_id u) (up_filename u) (up_checksum u) (up_size u)
      (up_uploaded_at u) (up_raw_r2_key u)
      (Some total) (up_inserted_records u) (up_deduped_records u)).

(** [UPDATE uploads SET total_records = ?, inserted_records = ?,
    deduped_records = ? WHERE id = ?] *)
Definition set_upload_stats (total inserted deduped id : Z) : M unit :=
  update_upload id (fun u =>
    mkUpload (up_id u) (up_filename u) (up_checksum u) (up_size u)
      (up_uploaded_at u) (up_raw_r2_key u)
      (Some total) (Some inserted) (Some deduped)).

(** ** R2 *)

Definition r2_put (key content : string) : M unit :=
  modify (fun w =>
    mkWorld (uploads w) (uploads_seq w) (waf_events w) (events_seq w)
      (daily_actions w) (top_rules w) (top_ips w) (attack_paths w)
      ((key, content) :: r2 w) (draws w)).

Fixpoint r2_lookup (key : string) (bucket : list (string * string)) : option string :=
  match bucket with
  | [] => None
  | (k, c) :: rest => if String.eqb k key then Some c else r2_lookup key rest
  end.

Definition r2_get (key : string) : M (option string) :=
  w <- get ;; ret (r2_lookup key (r2 w)).

(** ** [waf_events] *)

(** The key of UNIQUE(ray_id, event_ts). *)
Definition same_key (a b : EventValues) : bool :=
  String.eqb (v_ray_id a) (v_ray_id b) && (v_event_ts a =? v_event_ts b).

Definition has_key (v : EventValues) (t : list EventRow) : bool :=
  existsb (fun e => same_key (e_vals e) v) t.

(** [file_id REFERENCES uploads(id)]: the file id has its row. *)
Definition has_upload (id : Z) (t : list UploadRow) : bool :=
  existsb (fun u => up_id u =? id) t.

(** One bound [INSERT OR IGNORE INTO waf_events]: gives [meta.changes].
    The row id is drawn from the AUTOINCREMENT counter before the
    constraints are looked at, so an ignored insert moves the counter as
    an insert does.  IGNORE covers UNIQUE(ray_id, event_ts); a row that is
    not ignored and whose file id has no [uploads] row fails the
    statement by the foreign key, which D1 enforces. *)
Definition insert_or_ignore (v : EventValues) : M Z :=
  w <- get ;;
  let id := events_seq w + 1 in
  if has_key v (waf_events w)
  then
    modify (fun w =>
      mkWorld (uploads w) (uploads_seq w) (waf_events w) id
        (daily_actions w) (top_rules w) (top_ips w) (attack_paths w)
        (r2 w) (draws w)) ;;;
    ret 0
  else if has_upload (v_file_id v) (uploads w)
  then
    modify (fun w =>
      mkWorld (uploads w) (uploads_seq w)
        (waf_events w ++ [mkRow id v]) id
        (daily_actions w) (top_rules w) (top_ips w) (attack_paths w)
        (r2 w) (draws w)) ;;;
    ret 1
  else throw "Error: D1_ERROR: FOREIGN KEY constraint failed".

(** The statements of a batch, in order; one result each. *)
Fixpoint run_statements (stmts : list EventValues) : M (list Z) :=
  match stmts with
  | [] => ret []
  | v :: rest =>
      c <- insert_or_ignore v ;;
      cs <- run_statements rest ;;
      ret (c :: cs)
  end.

(** [env.DB.batch(stmts)]: D1 refuses a batch without statements; the
    statements of a batch are one transaction, so when one of them fails
    the database is what it was before the batch. *)
Definition db_batch (stmts : list EventValues) : M (list Z) :=
  match stmts with
  | [] => throw "Error: D1_ERROR: No SQL statements detected."
  | _ =>
      fun w =>
        match run_statements stmts w with
        | (Throw e, _) => (Throw e, w)
        | r => r
        end
  end.

(** [DELETE FROM waf_events WHERE file_id = ?] *)
Definition delete_events_of_file (id : Z) : M unit :=
  modify (set_events (filter (fun e => negb (v_file_id (e_vals e) =? id)))).

(** ** SQL used by the rollup statements *)

Definition opt_eqb {A} (eqb : A -> A -> bool) (a b : option A) : bool :=
  match a, b with
  | Some x, Some y => eqb x y
  | None, None => true
  | _, _ => false
  end.

(** The distinct values of a list, in order of first appearance: the
    elements of an aggregate over DISTINCT, and the keys of GROUP BY
    before they are put in order. *)
Fixpoint distinct {K} (eqb : K -> K -> bool) (l : list K) : list K :=
  match l with
  | [] => []
  | x :: rest => x :: filter (fun y => negb (eqb x y)) (distinct eqb rest)
  end.

(** The order of SQLite on keys: NULL comes first, texts are compared
    code unit by code unit (BINARY), integers by value, and a key of
    several columns column by column. *)
Definition opt_leb {A} (leb : A -> A -> bool) (a b : option A) : bool :=
  match a, b with
  | None, _ => true
  | Some _, None => false
  | Some x, Some y => leb x y
  end.

Definition lex_leb {A B} (eqb1 leb1 : A -> A -> bool) (leb2 : B -> B -> bool)
    (a b : A * B) : bool :=
  if eqb1 (fst a) (fst b) then leb2 (snd a) (snd b) else leb1 (fst a) (fst b).

Fixpoint insert_key {K} (leb : K -> K -> bool) (k : K) (l : list K) : list K :=
  match l with
  | [] => [k]
  | x :: rest => if leb k x then k :: l else x :: insert_key leb k rest
  end.

Definition sort_keys {K} (leb : K -> K -> bool) (l : list K) : list K :=
  fold_right (insert_key leb) [] l.

(** The groups of GROUP BY: SQLite gives them in the order of their
    keys. *)
Definition group_keys {K} (leb eqb : K -> K -> bool) (l : list K) : list K :=
  sort_keys leb (distinct eqb l).

(** [date(event_ts / 1000, 'unixepoch')]: integer division truncates, and
    the date of a second is the day it falls in; the text YYYY-MM-DD is
    represented by the number of the day since the epoch.  The function
    is NULL ([None]) outside the years 0000 to 9999. *)
Definition sql_date (event_ts : Z) : option Z :=
  let seconds := event_ts ÷ 1000 in
  if (-62167219200 <=? seconds) && (seconds <=? 253402300799)
  then Some (seconds / 86400)
  else None.

(** [strftime('%s', 'now') * 1000] when the JavaScript clock reads [now]. *)
Definition sql_now_ms (now : Z) : Z := (now / 1000) * 1000.

(** Aggregate [MAX] over a text column: NULLs are skipped. *)
Fixpoint max_text (l : list (option string)) : option string :=
  match l with
  | [] => None
  | None :: rest => max_text rest
  | Some s :: rest =>
      match max_text rest with
      | Some m => Some (if String.ltb s m then m else s)
      | None => Some s
      end
  end.

(** Aggregate [MAX] over a NOT NULL integer column. *)
Fixpoint max_int (l : list Z) : option Z :=
  match l with
  | [] => None
  | z :: rest =>
      match max_int rest with
      | Some m => Some (Z.max z m)
      | None => Some z
      end
  end.

(** Scalar [MAX(a, b)]: NULL as soon as one argument is NULL. *)
Definition max2 (a b : option Z) : option Z :=
  match a, b with
  | Some x, Some y => Some (Z.max x y)
  | _, _ => None
  end.

(** [INSERT ... ON CONFLICT(key) DO UPDATE SET ...] of one row: [same]
    recognises the row in conflict, [merge] is the DO UPDATE. *)
Fixpoint upsert {R} (same : R -> bool) (merge : R -> R) (new : R)
    (table : list R) : list R :=
  match table with
  | [] => [new]
  | r :: rest =>
      if same r then merge r :: rest
      else r :: upsert same merge new rest
  end.

End Store.

(* ================================================================== *)
(** * functions/api/upload.ts *)
(* ================================================================== *)

Module Upload.
Import Js Parser Store.

Infix "<||>" := str_or (at level 51, right associativity).

(** What [JSON.parse] gives: a value, or a SyntaxError with its rendering. *)
Inductive Parsed :=
| Value (v : JsVal)
| SyntaxError (e : string).

Record File := mkFile { f_name : string; f_size : Z; f_text : string }.

Record Env := mkEnv {
  R2_bound : bool;
  ENABLE_R2_STORAGE : option string;
  MAX_BATCH_SIZE : option string
}.

(** The per-file result of [processFile], by [status]. *)
Inductive FileResult :=
| already_processed (filename checksum : string) (file_id inserted deduped total : Z)
| no_valid_events (filename checksum : string) (file_id : Z)
    (errors : list string) (parse_errors : Z)
| success (filename checksum : string) (file_id total inserted deduped : Z)
    (errors : list string) (time_range : Z * Z) (outside_24h : bool).

Definition push {A} (l : list A) (x : A) : list A := l ++ [x].

Definition rule_type_text (t : RuleType) : string :=
  match t with
  | managed => "managed" | custom => "custom" | unknown_rule => "unknown"
  end.

Definition action_text (a : Action) : string :=
  match a with
  | block => "block" | challenge => "challenge" | log => "log"
  | skip => "skip" | allow => "allow" | unknown_action => "unknown"
  end.

(** [x || 0] on a nullable integer column *)
Definition or_zero (x : option Z) : Z :=
  match x with Some z => z | None => 0 end.

(** A truthy [string | undefined], read as a string *)
Definition or_empty (s : option string) : string :=
  match s with Some t => t | None => EmptyString end.

(** [s || d] *)
Definition or_default (s : option string) (d : string) : string :=
  match s with
  | Some t => if String.eqb t EmptyString then d else t
  | None => d
  end.

Section WithRuntime.

Variable JSON_parse : string -> Parsed.
Variable Date_parse : string -> option Z.
(** SHA-256 of the content, in hexadecimal *)
Variable computeChecksum : string -> string.
(** [Date.now()] *)
Variable now : Z.
(** [lower(hex(randomblob(16)))] at the n-th draw *)
Variable randomblob_hex : nat -> string.
(** The number of arguments that one call can take on the stack of the
    engine; a call that spreads more throws a RangeError. *)
Variable max_arguments : Z.

(** ** parseContent *)

(** [for (const record of data) { try { ... } catch (e) { ... } }] *)
Fixpoint parse_records (data : list JsVal)
    (events : list WAFEvent) (errors : list string)
    : res (list WAFEvent * list string) :=
  match data with
  | [] => Ok (events, errors)
  | record :: rest =>
      match parseWAFRecord_exn Date_parse record with
      | Ok (Some event) => parse_records rest (push events event) errors
      | Ok None => parse_records rest events errors
      | Throw e =>
          parse_records rest events (push errors ("Failed to parse record: " ++ e))
      | Diverge => Diverge
      end
  end.

(** [for (const line of lines) { try { ... } catch (e) { ... } }] *)
Fixpoint parse_lines (lines : list string)
    (events : list WAFEvent) (errors : list string)
    : res (list WAFEvent * list string) :=
  match lines with
  | [] => Ok (events, errors)
  | line :: rest =>
      match JSON_parse line with
      | SyntaxError e =>
          parse_lines rest events (push errors ("Failed to parse line: " ++ e))
      | Value record =>
          match parseWAFRecord_exn Date_parse record with
          | Ok (Some event) => parse_lines rest (push events event) errors
          | Ok None => parse_lines rest events errors
          | Throw e =>
              parse_lines rest events (push errors ("Failed to parse line: " ++ e))
          | Diverge => Diverge
          end
      end
  end.

(** [content.split('\n').filter(line => line.trim())] *)
Definition non_blank_lines (content : string) : list string :=
  filter trim_truthy (split_lines content).

Definition parseContent (content : string)
    : res (list WAFEvent * list string) :=
  match JSON_parse content with
  | Value (JArr data) => parse_records data [] []
  | _ => parse_lines (non_blank_lines content) [] []
  end.

(** ** insertEventBatch *)

Definition num_or_null (n : option Z) : option Z := num_or_undefined n.

Definition bind_event (event : WAFEvent) (fileId : Z) : EventValues := {|
  v_ray_id := ray_id event;
  v_event_ts := event_ts event;
  v_src_ip := src_ip event <||> None;
  v_src_country := src_country event <||> None;
  v_src_asn := num_or_null (src_asn event);
  v_colo := colo event <||> None;
  v_host := host event <||> None;
  v_path := path event <||> None;
  v_method := method event <||> None;
  v_status := num_or_null (status event);
  v_rule_id := rule_id event <||> None;
  v_rule_name := rule_name event <||> None;
  v_rule_type := Some (rule_type_text (rule_type event));
  v_action := action_text (action event);
  v_service := service event <||> None;
  v_mitigation_reason := mitigation_reason event <||> None;
  v_ua := ua event <||> None;
  v_ja3 := ja3 event <||> None;
  v_bytes := num_or_null (bytes event);
  v_threat_score := num_or_null (threat_score event);
  v_file_id := fileId;
  v_ingested_at := now
|}.

(** [for (const result of results) { if (result.meta.changes > 0) inserted++; else deduped++; }] *)
Fixpoint count_results (results : list Z) (inserted deduped : Z) : Z * Z :=
  match results with
  | [] => (inserted, deduped)
  | changes :: rest =>
      if 0 <? changes then count_results rest (inserted + 1) deduped
      else count_results rest inserted (deduped + 1)
  end.

Definition insertEventBatch (events : list WAFEvent) (fileId : Z) : M (Z * Z) :=
  let batch := map (fun event => bind_event event fileId) events in
  results <- db_batch batch ;;
  ret (count_results results 0 0).

(** ** updateAnalyticsTables *)

(** [FROM waf_events WHERE file_id = ?] *)
Definition file_rows (fileId : Z) (w : World) : list EventValues :=
  map e_vals (filter (fun e => v_file_id (e_vals e) =? fileId) (waf_events w)).

Definition count_of {A} (p : A -> bool) (l : list A) : Z :=
  Z.of_nat (List.length (filter p l)).

(** *** daily_actions: GROUP BY date, action; ON CONFLICT(date, action) *)

Definition daily_key (v : EventValues) : option Z * string :=
  (sql_date (v_event_ts v), v_action v).

Definition daily_key_eqb (a b : option Z * string) : bool :=
  opt_eqb Z.eqb (fst a) (fst b) && String.eqb (snd a) (snd b).

Definition daily_key_leb : option Z * string -> option Z * string -> bool :=
  lex_leb (opt_eqb Z.eqb) (opt_leb Z.leb) String.leb.

(** A row that the SELECT of the statement gives: its date can be NULL. *)
Record DailySelected := mkSelected {
  ds_date : option Z;
  ds_action : string;
  ds_count : Z
}.

Definition select_daily (rows : list EventValues) : list DailySelected :=
  map (fun k =>
         mkSelected (fst k) (snd k)
           (count_of (fun v => daily_key_eqb (daily_key v) k) rows))
      (group_keys daily_key_leb daily_key_eqb (map daily_key rows)).

Definition upsert_daily (t : list DailyRow) (excluded : DailyRow) : list DailyRow :=
  upsert
    (fun r => (da_date r =? da_date excluded)
              && String.eqb (da_action r) (da_action excluded))
    (fun r => mkDaily (da_date r) (da_action r)
                (da_count r + da_count excluded) (sql_now_ms now))
    excluded t.

(** The selected rows go into the table one by one; [daily_actions.date]
    is NOT NULL, and [None] is the failure of the constraint. *)
Fixpoint insert_daily (selected : list DailySelected) (t : list DailyRow)
    : option (list DailyRow) :=
  match selected with
  | [] => Some t
  | row :: rest =>
      match ds_date row with
      | Some date =>
          insert_daily rest
            (upsert_daily t
               (mkDaily date (ds_action row) (ds_count row) (sql_now_ms now)))
      | None => None
      end
  end.

(** A statement that fails changes nothing. *)
Definition update_daily_actions (fileId : Z) : M unit :=
  w <- get ;;
  match insert_daily (select_daily (file_rows fileId w)) (daily_actions w) with
  | Some t => modify (set_daily_actions t)
  | None =>
      throw "Error: D1_ERROR: NOT NULL constraint failed: daily_actions.date"
  end.

(** *** top_rules: WHERE rule_id IS NOT NULL GROUP BY rule_id; ON CONFLICT(rule_id) *)

Definition with_rule (rows : list EventValues) : list (string * EventValues) :=
  flat_map (fun v => match v_rule_id v with Some r => [(r, v)] | None => [] end) rows.

Definition group_of (k : string) (rows : list (string * EventValues)) : list EventValues :=
  map snd (filter (fun kv => String.eqb (fst kv) k) rows).

Definition select_rules (rows : list EventValues) : list RuleRow :=
  let keyed := with_rule rows in
  map (fun k =>
         let g := group_of k keyed in
         mkRule k (max_text (map v_rule_name g)) (max_text (map v_rule_type g))
           (Z.of_nat (List.length g)) (max_int (map v_event_ts g))
           (sql_now_ms now))
      (group_keys String.leb String.eqb (map fst keyed)).

Definition upsert_rule (t : list RuleRow) (excluded : RuleRow) : list RuleRow :=
  upsert
    (fun r => String.eqb (tr_rule_id r) (tr_rule_id excluded))
    (fun r => mkRule (tr_rule_id r) (tr_rule_name r) (tr_rule_type r)
                (tr_count r + tr_count excluded)
                (max2 (tr_last_seen r) (tr_last_seen excluded))
                (sql_now_ms now))
    excluded t.

Definition update_top_rules (fileId : Z) : M unit :=
  modify (fun w =>
    set_top_rules
      (fold_left upsert_rule (select_rules (file_rows fileId w)) (top_rules w))
      w).

(** *** top_ips: WHERE src_ip IS NOT NULL GROUP BY src_ip; ON CONFLICT(src_ip) *)

Definition with_ip (rows : list EventValues) : list (string * EventValues) :=
  flat_map (fun v => match v_src_ip v with Some ip => [(ip, v)] | None => [] end) rows.

Definition select_ips (rows : list EventValues) : list IpRow :=
  let keyed := with_ip rows in
  map (fun k =>
         let g := group_of k keyed in
         mkIp k (Z.of_nat (List.length g))
           (distinct (opt_eqb String.eqb) (map v_src_country g))
           (distinct (opt_eqb Z.eqb) (map v_src_asn g))
           (max_int (map v_event_ts g))
           (sql_now_ms now))
      (group_keys String.leb String.eqb (map fst keyed)).

(** The DO UPDATE sets [count], [last_seen] and [last_updated]. *)
Definition upsert_ip (t : list IpRow) (excluded : IpRow) : list IpRow :=
  upsert
    (fun r => String.eqb (ip_src_ip r) (ip_src_ip excluded))
    (fun r => mkIp (ip_src_ip r)
                (ip_count r + ip_count excluded)
                (ip_countries r) (ip_asns r)
                (max2 (ip_last_seen r) (ip_last_seen excluded))
                (sql_now_ms now))
    excluded t.

Definition update_top_ips (fileId : Z) : M unit :=
  modify (fun w =>
    set_top_ips
      (fold_left upsert_ip (select_ips (file_rows fileId w)) (top_ips w))
      w).

(** *** attack_paths: WHERE path IS NOT NULL GROUP BY path, method, status;
    ON CONFLICT(path_hash), where [path_hash] is drawn at random per row *)

Definition PathKey : Type := string * option string * option Z.

Definition path_key_eqb (a b : PathKey) : bool :=
  String.eqb (fst (fst a)) (fst (fst b))
  && opt_eqb String.eqb (snd (fst a)) (snd (fst b))
  && opt_eqb Z.eqb (snd a) (snd b).

Definition path_key_leb : PathKey -> PathKey -> bool :=
  lex_leb
    (fun a b => String.eqb (fst a) (fst b) && opt_eqb String.eqb (snd a) (snd b))
    (lex_leb String.eqb String.leb (opt_leb String.leb))
    (opt_leb Z.leb).

Definition with_path (rows : list EventValues) : list (PathKey * EventValues) :=
  flat_map (fun v =>
              match v_path v with
              | Some p => [((p, v_method v, v_status v), v)]
              | None => []
              end) rows.

Definition path_group (k : PathKey) (rows : list (PathKey * EventValues))
    : list EventValues :=
  map snd (filter (fun kv => path_key_eqb (fst kv) k) rows).

Definition select_paths (first_draw : nat) (rows : list EventValues) : list PathRow :=
  let keyed := with_path rows in
  let groups := group_keys path_key_leb path_key_eqb (map fst keyed) in
  map (fun ik =>
         let k := snd ik in
         let g := path_group k keyed in
         mkPath (randomblob_hex (first_draw + fst ik))
           (fst (fst k)) (snd (fst k)) (snd k)
           (Z.of_nat (List.length g)) (max_int (map v_event_ts g))
           (sql_now_ms now))
      (combine (seq 0 (List.length groups)) groups).

Definition upsert_path (t : list PathRow) (excluded : PathRow) : list PathRow :=
  upsert
    (fun r => String.eqb (ap_path_hash r) (ap_path_hash excluded))
    (fun r => mkPath (ap_path_hash r) (ap_path r) (ap_method r) (ap_status r)
                (ap_count r + ap_count excluded)
                (max2 (ap_last_seen r) (ap_last_seen excluded))
                (sql_now_ms now))
    excluded t.

Definition update_attack_paths (fileId : Z) : M unit :=
  modify (fun w =>
    let selected := select_paths (draws w) (file_rows fileId w) in
    set_attack_paths
      (fold_left upsert_path selected (attack_paths w))
      (draws w + List.length selected)%nat
      w).

Definition updateAnalyticsTables (fileId : Z) : M unit :=
  update_daily_actions fileId ;;;
  update_top_rules fileId ;;;
  update_top_ips fileId ;;;
  update_attack_paths fileId.

(** ** processFile *)

Definition lift {A} (r : res A) : M A := fun w => (r, w).
Definition diverge {A} : M A := fun w => (Diverge, w).

(** The loop [for (let i = 0; i < events.length; i += batchSize)] of
    lines 137-142, for any step: an integer or NaN.  [fuel] bounds the
    number of times the condition is looked at. *)
Fixpoint insert_in_batches (fuel : nat) (i batchSize : option Z)
    (events : list WAFEvent) (fileId : Z)
    (totalInserted totalDeduped : Z) : M (Z * Z) :=
  match fuel with
  | O => diverge
  | S fuel' =>
      if num_lt i (Z.of_nat (List.length events))
      then
        let batch := slice events i (num_add i batchSize) in
        r <- insertEventBatch batch fileId ;;
        insert_in_batches fuel' (num_add i batchSize) batchSize events fileId
          (totalInserted + fst r) (totalDeduped + snd r)
      else ret (totalInserted, totalDeduped)
  end.

(** A step that is positive passes the end after at most one turn per
    event; with any other step a slice is empty by the second turn at the
    latest, and the batch without statements throws. *)
Definition batch_loop (batchSize : option Z) (events : list WAFEvent) (fileId : Z)
    : M (Z * Z) :=
  insert_in_batches (S (List.length events)) (Some 0) batchSize events fileId 0 0.

(** [Math.min(...xs)] and [Math.max(...xs)] over a non-empty list *)
Definition min_of (x : Z) (xs : list Z) : Z := fold_left Z.min xs x.
Definition max_of (x : Z) (xs : list Z) : Z := fold_left Z.max xs x.

(** A call that spreads [arguments] values and gives [result]. *)
Definition spread_call {A} (arguments : nat) (result : A) : M A :=
  if Z.of_nat arguments <=? max_arguments then ret result
  else throw "RangeError: Maximum call stack size exceeded".

(** [new Date(t).toISOString()]; the text is represented by [t].  It
    throws outside the range of time values. *)
Definition toISOString (t : Z) : M Z :=
  if Z.abs t <=? 8640000000000000 then ret t
  else throw "RangeError: Invalid time value".

(** Lines 97-176: the ingestion of a file that is not short-circuited. *)
Definition ingest (file : File) (env : Env) (batchSize : option Z)
    (checksum content : string) : M FileResult :=
  fileId <- insert_upload (f_name file) checksum (f_size file) now ;;
  (if R2_bound env && opt_eqb String.eqb (ENABLE_R2_STORAGE env) (Some "true")
   then
     let r2Key := ("uploads/" ++ checksum)%string in
     r2_put r2Key content ;;;
     set_raw_r2_key r2Key fileId
   else ret tt) ;;;
  parsed <- lift (parseContent content) ;;
  let events := fst parsed in
  let errors := snd parsed in
  match events with
  | [] =>
      set_total_records 0 fileId ;;;
      ret (no_valid_events (f_name file) checksum fileId
             (firstn 10 errors) (Z.of_nat (List.length errors)))
  | first :: others =>
      totals <- batch_loop batchSize events fileId ;;
      set_upload_stats (Z.of_nat (List.length events)) (fst totals) (snd totals) fileId ;;;
      updateAnalyticsTables fileId ;;;
      earliest <-
        spread_call (List.length events)
          (min_of (event_ts first) (map event_ts others)) ;;
      latest <-
        spread_call (List.length events)
          (max_of (event_ts first) (map event_ts others)) ;;
      iso_earliest <- toISOString earliest ;;
      iso_latest <- toISOString latest ;;
      ret (success (f_name file) checksum fileId
             (Z.of_nat (List.length events)) (fst totals) (snd totals)
             (firstn 10 errors) (iso_earliest, iso_latest)
             (earliest <? now - 24 * 60 * 60 * 1000))
  end.

Definition processFile (file : File) (env : Env) (batchSize : option Z)
    : M FileResult :=
  let content := f_text file in
  let checksum := computeChecksum content in
  existingUpload <- select_upload_by_checksum checksum ;;
  match existingUpload with
  | Some existing =>
      let insertedCount := or_zero (up_inserted_records existing) in
      if insertedCount =? 0
      then
        delete_upload (up_id existing) ;;;
        ingest file env batchSize checksum content
      else
        ret (already_processed (f_name file) checksum (up_id existing)
               insertedCount
               (or_zero (up_deduped_records existing))
               (or_zero (up_total_records existing)))
  | None => ingest file env batchSize checksum content
  end.

(** ** [handleUpload], lines 4-64 *)

(** What the handler reads of the request: the content-type header and
    the [files] entries of the form data.  The form data is taken as
    read: a body that [request.formData()] rejects, the one way to the
    [catch] of the handler and its 500, is not modelled. *)
Record UploadRequest := mkUploadRequest {
  content_type : option string;
  form_files : list File
}.

(** An entry of [results]: the result of [processFile]; the name and the
    [error.message] of a file whose processing threw; or the name of a file over
    the limit, with the two numbers of its message
    [File size ${file.size} exceeds maximum ${maxFileSize} bytes]. *)
Inductive UploadEntry :=
| entry_result (result : FileResult)
| entry_error (filename error : string)
| entry_too_large (filename : string) (size maxFileSize : Z).

Inductive UploadResponse :=
| upload_400 (error : string)
| upload_200 (results : list UploadEntry).

(** [file.size > maxFileSize]; no number is greater than NaN. *)
Definition exceeds (size : Z) (maxFileSize : option Z) : bool :=
  match maxFileSize with
  | Some m => m <? size
  | None => false
  end.

(** Lines 30-49, the loop over the files; an exception of [processFile]
    is caught per file. *)
Fixpoint upload_files (maxFileSize batchSize : option Z) (env : Env)
    (files : list File) (results : list UploadEntry) : M (list UploadEntry) :=
  match files with
  | [] => ret results
  | file :: rest =>
      if exceeds (f_size file) maxFileSize
      then
        upload_files maxFileSize batchSize env rest
          (push results
             (entry_too_large (f_name file) (f_size file)
                (match maxFileSize with Some m => m | None => 0 end)))
      else
        fun w =>
          match processFile file env batchSize w with
          | (Ok result, w') =>
              upload_files maxFileSize batchSize env rest
                (push results (entry_result result)) w'
          | (Throw error, w') =>
              upload_files maxFileSize batchSize env rest
                (push results (entry_error (f_name file) (message_of error))) w'
          | (Diverge, w') => (Diverge, w')
          end
  end.

(** [MAX_FILE_SIZE_MB] is the field of the environment that only this
    handler reads. *)
Definition handleUpload (request : UploadRequest) (env : Env)
    (MAX_FILE_SIZE_MB : option string) : M UploadResponse :=
  let maxFileSize :=
    option_map (fun n => n * 1024 * 1024)
      (parseInt (or_default MAX_FILE_SIZE_MB "50") 0) in
  let batchSize := parseInt (or_default (MAX_BATCH_SIZE env) "1000") 0 in
  let contentType := or_empty (content_type request) in
  if negb (includes contentType "multipart/form-data")
  then ret (upload_400 "Content-Type must be multipart/form-data")
  else
    match form_files request with
    | [] => ret (upload_400 "No files provided")
    | files =>
        results <- upload_files maxFileSize batchSize env files [] ;;
        ret (upload_200 results)
    end.

End WithRuntime.

End Upload.

(* ================================================================== *)
(** * functions/api/reindex.ts *)
(* ================================================================== *)

Module Reindex.
Import Js Parser Store Upload.

(** The JSON body of the request *)
Record Body := mkBody { b_checksum : option string; b_file_id : option Z }.

(** The responses of [handleReindex], by HTTP status. *)
Inductive Response :=
| status_400 (error : string)
| status_404 (error : string)
| status_200 (file_id : Z) (filename : string)
    (total_events inserted deduped : Z) (errors : list string)
| status_500 (message : string).

Definition falsy_string (s : option string) : bool :=
  match s with Some t => String.eqb t EmptyString | None => true end.

Definition falsy_number (n : option Z) : bool :=
  match n with Some z => z =? 0 | None => true end.

Section WithRuntime.

Variable JSON_parse : string -> Parsed.
Variable Date_parse : string -> option Z.
Variable now : Z.

(** Lines 77-105, the parse written inline in the handler.  Its two loops
    are the loops of [parseContent], statement for statement; the NDJSON
    loop sits in the [catch] of the whole-content parse. *)
Definition reparse (content : string) : res (list WAFEvent * list string) :=
  match JSON_parse content with
  | Value (JArr data) => parse_records Date_parse data [] []
  | Value _ => Ok ([], [])
  | SyntaxError _ =>
      parse_lines JSON_parse Date_parse (non_blank_lines content) [] []
  end.

(** Lines 112-161, the batch loop written inline, for any step. *)
Fixpoint reinsert_in_batches (fuel : nat) (i batchSize : option Z)
    (events : list WAFEvent) (fileId : Z)
    (totalInserted totalDeduped : Z) : M (Z * Z) :=
  match fuel with
  | O => diverge
  | S fuel' =>
      if num_lt i (Z.of_nat (List.length events))
      then
        let batch := slice events i (num_add i batchSize) in
        let batchStmts := map (fun event => bind_event now event fileId) batch in
        results <- db_batch batchStmts ;;
        let totals := count_results results totalInserted totalDeduped in
        reinsert_in_batches fuel' (num_add i batchSize) batchSize events fileId
          (fst totals) (snd totals)
      else ret (totalInserted, totalDeduped)
  end.

Definition reinsert (batchSize : option Z) (events : list WAFEvent) (fileId : Z)
    : M (Z * Z) :=
  reinsert_in_batches (S (List.length events)) (Some 0) batchSize events fileId 0 0.

(** The body of the handler's [try]. *)
Definition handleReindex_try (body : Body) (env : Env) : M Response :=
  if falsy_string (b_checksum body) && falsy_number (b_file_id body)
  then ret (status_400 "Either checksum or file_id is required")
  else
    fileInfo <-
      (if negb (falsy_string (b_checksum body))
       then select_upload_by_checksum (or_empty (b_checksum body))
       else select_upload_by_id (or_zero (b_file_id body))) ;;
    match fileInfo with
    | None => ret (status_404 "File not found")
    | Some info =>
        if negb (R2_bound env) || falsy_string (up_raw_r2_key info)
        then ret (status_400 "Raw file not available for reprocessing")
        else
          r2Object <- r2_get (or_empty (up_raw_r2_key info)) ;;
          match r2Object with
          | None => ret (status_404 "Raw file not found in R2")
          | Some content =>
              delete_events_of_file (up_id info) ;;;
              parsed <- lift (reparse content) ;;
              let events := fst parsed in
              let errors := snd parsed in
              let batchSize :=
                parseInt (or_default (MAX_BATCH_SIZE env) "1000") 0 in
              totals <- reinsert batchSize events (up_id info) ;;
              set_upload_stats (Z.of_nat (List.length events))
                (fst totals) (snd totals) (up_id info) ;;;
              ret (status_200 (up_id info) (up_filename info)
                     (Z.of_nat (List.length events)) (fst totals) (snd totals)
                     (firstn 10 errors))
          end
    end.

(** [handleReindex]: the [catch] turns an exception into a 500 response
    that carries its message. *)
Definition handleReindex (body : Body) (env : Env) : M Response :=
  fun w =>
    match handleReindex_try body env w with
    | (Throw e, w') => (Ok (status_500 (message_of e)), w')
    | r => r
    end.

End WithRuntime.

End Reindex.

(* ================================================================== *)
(** * functions/api/[[route]].ts *)
(* ================================================================== *)

Module Route.
Import Js Parser Store Upload Reindex.

(** [String.prototype.replace] with a text as pattern: the first
    occurrence is replaced, the replacement taken as it is. *)
Fixpoint replace (s pattern replacement : string) : string :=
  if String.prefix pattern s
  then replacement
       ++ String.substring (String.length pattern)
            (String.length s - String.length pattern) s
  else match s with
       | EmptyString => EmptyString
       | String c s' => String c (replace s' pattern replacement)
       end.

(** What the router and the two handlers that write read of the context:
    the method, [params.route] joined by [/] (the empty text when it is
    absent), the Authorization header, the form of an upload, the JSON
    body of a reindex. *)
Record Context := mkContext {
  req_method : string;
  req_route : string;
  req_authorization : option string;
  req_upload : UploadRequest;
  req_body : Body
}.

Section WithRuntime.

Variable JSON_parse : string -> Parsed.
Variable Date_parse : string -> option Z.
Variable computeChecksum : string -> string.
Variable now : Z.
Variable randomblob_hex : nat -> string.
Variable max_arguments : Z.

(** The handlers of the six GET routes and the type of their responses. *)
Variable ReadResponse : Type.
Variable handleEvents handleSummary handleTrends : Context -> Env -> M ReadResponse.
Variable handleTopRules handleTopIPs handleTopPaths : Context -> Env -> M ReadResponse.

Inductive Reply :=
| preflight
| reply_401
| reply_upload (response : UploadResponse)
| reply_reindex (response : Response)
| reply_read (response : ReadResponse)
| reply_404
| reply_500 (message : string).

(** Lines 40-80, the [switch (true)]: the first case that holds. *)
Definition dispatch (context : Context) (env : Env)
    (MAX_FILE_SIZE_MB : option string) : M Reply :=
  let path := req_route context in
  let method := req_method context in
  let read (handler : Context -> Env -> M ReadResponse) : M Reply :=
    response <- handler context env ;; ret (reply_read response) in
  if String.eqb path "upload" && String.eqb method "POST"
  then response <-
         handleUpload JSON_parse Date_parse computeChecksum now randomblob_hex
           max_arguments (req_upload context) env MAX_FILE_SIZE_MB ;;
       ret (reply_upload response)
  else if String.eqb path "events" && String.eqb method "GET"
  then read handleEvents
  else if String.eqb path "summary" && String.eqb method "GET"
  then read handleSummary
  else if String.eqb path "trends" && String.eqb method "GET"
  then read handleTrends
  else if String.eqb path "rules/top" && String.eqb method "GET"
  then read handleTopRules
  else if String.eqb path "ips/top" && String.eqb method "GET"
  then read handleTopIPs
  else if String.eqb path "paths/top" && String.eqb method "GET"
  then read handleTopPaths
  else if String.eqb path "reindex" && String.eqb method "POST"
  then response <- handleReindex JSON_parse Date_parse now (req_body context) env ;;
       ret (reply_reindex response)
  else ret reply_404.

(** [onRequest]; [AUTH_TOKEN] and [MAX_FILE_SIZE_MB] are the fields of the
    environment that the router and [handleUpload] read. *)
Definition onRequest (context : Context) (env : Env) (AUTH_TOKEN : string)
    (MAX_FILE_SIZE_MB : option string) : M Reply :=
  if String.eqb (req_method context) "OPTIONS"
  then ret preflight
  else
    let authToken :=
      option_map (fun header => replace header "Bearer " EmptyString)
        (req_authorization context) in
    let isProtectedRoute :=
      String.eqb (req_route context) "reindex"
      || String.eqb (req_method context) "POST" in
    if isProtectedRoute
       && negb (opt_eqb String.eqb authToken (Some AUTH_TOKEN))
    then ret reply_401
    else
      fun w =>
        match dispatch context env MAX_FILE_SIZE_MB w with
        | (Throw e, w') => (Ok (reply_500 (message_of e)), w')
        | r => r
        end.

End WithRuntime.

Arguments preflight {ReadResponse}.
Arguments reply_401 {ReadResponse}.
Arguments reply_upload {ReadResponse} response.
Arguments reply_reindex {ReadResponse} response.
Arguments reply_read {ReadResponse} response.
Arguments reply_404 {ReadResponse}.
Arguments reply_500 {ReadResponse} message.

End Route.

(* ================================================================== *)
(** * lib/parser.ts: computeChecksum *)
(* ================================================================== *)

Module Checksum.

(** [Number.prototype.toString(16)] on a natural number *)
Definition digit (d : N) : ascii :=
  match String.get (N.to_nat d) "0123456789abcdef" with
  | Some c => c
  | None => "0"%char
  end.

Fixpoint toString_aux (fuel : nat) (n : N) (acc : string) : string :=
  match fuel with
  | O => acc
  | S fuel' =>
      let acc' := String (digit (n mod 16)) acc in
      if (n <? 16)%N then acc' else toString_aux fuel' (n / 16) acc'
  end.

Definition toString16 (n : N) : string :=
  toString_aux (S (N.to_nat (N.log2 n))) n EmptyString.

(** [padStart(targetLength, padString)] for a pad of one character *)
Fixpoint pad (n : nat) (c : ascii) : string :=
  match n with
  | O => EmptyString
  | S n' => String c (pad n' c)
  end.

Definition padStart (s : string) (targetLength : nat) (padString : ascii) : string :=
  (pad (targetLength - String.length s) padString ++ s)%string.

(** [join('')] *)
Definition join (parts : list string) : string := String.concat EmptyString parts.

Section WithDigest.

(** [TextEncoder.encode] followed by [crypto.subtle.digest('SHA-256', ...)],
    read as a [Uint8Array]. *)
Variable sha256 : string -> list Byte.byte.

(** Lines 227-233 *)
Definition computeChecksum (content : string) : string :=
  let hashArray := sha256 content in
  join (map (fun b => padStart (toString16 (Byte.to_N b)) 2 "0"%char) hashArray).

End WithDigest.

End Checksum.

(* ================================================================== *)
(** * functions/api/trends.ts: the series of handleTrends *)
(* ================================================================== *)

Module Trends.
Import Js Upload.

(** A row of the query: [timestamp], [action], [count]. *)
Record TrendRow := mkTrendRow {
  tr_timestamp : Z;
  tr_action : string;
  tr_count : Z
}.

(** A [TimeSeriesData] object: [timestamp], [total], and the properties
    named by actions, in the order of their creation. *)
Record TimeSeriesData := mkSeries {
  ts_timestamp : Z;
  ts_total : Z;
  ts_actions : list (string * Z)
}.

Fixpoint assoc_set {K V} (eqb : K -> K -> bool) (k : K) (v : V)
    (l : list (K * V)) : list (K * V) :=
  match l with
  | [] => [(k, v)]
  | (k', v') :: rest =>
      if eqb k' k then (k, v) :: rest else (k', v') :: assoc_set eqb k v rest
  end.

Fixpoint assoc_get {K V} (eqb : K -> K -> bool) (k : K) (l : list (K * V))
    : option V :=
  match l with
  | [] => None
  | (k', v') :: rest => if eqb k' k then Some v' else assoc_get eqb k rest
  end.

(** [data[key] = value] *)
Definition set_property (data : TimeSeriesData) (key : string) (value : Z)
    : TimeSeriesData :=
  if String.eqb key "timestamp"
  then mkSeries value (ts_total data) (ts_actions data)
  else if String.eqb key "total"
  then mkSeries (ts_timestamp data) value (ts_actions data)
  else mkSeries (ts_timestamp data) (ts_total data)
         (assoc_set String.eqb key value (ts_actions data)).

(** The [switch] on the bucket name *)
Definition bucketSize_of (bucket : string) : Z :=
  if String.eqb bucket "minute" then 60 * 1000
  else if String.eqb bucket "hour" then 60 * 60 * 1000
  else if String.eqb bucket "day" then 24 * 60 * 60 * 1000
  else 60 * 60 * 1000.

(** The loop over the rows of the query; [timeSeriesMap] is a [Map], in
    the order of insertion. *)
Definition add_row (timeSeriesMap : list (Z * TimeSeriesData)) (row : TrendRow)
    : list (Z * TimeSeriesData) :=
  let m :=
    match assoc_get Z.eqb (tr_timestamp row) timeSeriesMap with
    | Some _ => timeSeriesMap
    | None =>
        assoc_set Z.eqb (tr_timestamp row)
          (mkSeries (tr_timestamp row) 0 []) timeSeriesMap
    end in
  match assoc_get Z.eqb (tr_timestamp row) m with
  | Some data =>
      let data1 := set_property data (tr_action row) (tr_count row) in
      let data2 :=
        mkSeries (ts_timestamp data1) (ts_total data1 + tr_count row)
          (ts_actions data1) in
      assoc_set Z.eqb (tr_timestamp row) data2 m
  | None => m
  end.

Definition zero_series (bucketTs : Z) : TimeSeriesData :=
  mkSeries bucketTs 0
    [("block", 0); ("challenge", 0); ("log", 0); ("allow", 0); ("skip", 0)].

(** [for (let ts = startTime; ts <= endTime; ts += bucketSize)]; [fuel]
    bounds the number of iterations. *)
Fixpoint fill (fuel : nat) (ts endTime bucketSize : Z)
    (timeSeriesMap : list (Z * TimeSeriesData))
    (filledSeries : list TimeSeriesData) : list TimeSeriesData :=
  match fuel with
  | O => filledSeries
  | S fuel' =>
      if ts <=? endTime
      then
        let bucketTs := (ts / bucketSize) * bucketSize in
        let item :=
          match assoc_get Z.eqb bucketTs timeSeriesMap with
          | Some data => data
          | None => zero_series bucketTs
          end in
        fill fuel' (ts + bucketSize) endTime bucketSize timeSeriesMap
          (push filledSeries item)
      else filledSeries
  end.

(** [sort((a, b) => a.timestamp - b.timestamp)], which is stable *)
Fixpoint insert_sorted (x : TimeSeriesData) (l : list TimeSeriesData)
    : list TimeSeriesData :=
  match l with
  | [] => [x]
  | y :: rest =>
      if ts_timestamp x <=? ts_timestamp y then x :: y :: rest
      else y :: insert_sorted x rest
  end.

Definition sort (l : list TimeSeriesData) : list TimeSeriesData :=
  fold_right insert_sorted [] l.

(** [Array.from(new Map(items.map(item => [item.timestamp, item])).values())] *)
Definition unique_by_timestamp (items : list TimeSeriesData) : list TimeSeriesData :=
  map snd
    (fold_left (fun m item => assoc_set Z.eqb (ts_timestamp item) item m) items []).

(** A time parameter: [param ? parseInt(param) : fallback]; [None] is NaN. *)
Definition time_param (param : option string) (fallback : Z) : option Z :=
  match param with
  | Some text => if String.eqb text EmptyString then Some fallback else parseInt text 0
  | None => Some fallback
  end.

Record TrendsResponse := mkTrends {
  t_bucket : string;
  t_bucket_size : Z;
  t_start_time : option Z;
  t_end_time : option Z;
  t_data : list TimeSeriesData
}.

(** The series built from the rows of the query. *)
Definition series (bucketSize : Z) (startTime endTime : option Z)
    (rows : list TrendRow) : list TimeSeriesData :=
  let timeSeriesMap := fold_left add_row rows [] in
  let filledSeries :=
    match startTime, endTime with
    | Some s, Some e =>
        fill (Z.to_nat (e - s + 1)) s e bucketSize timeSeriesMap []
    | _, _ => []
    end in
  sort (unique_by_timestamp filledSeries).

(** The answer of [handleTrends] to the parameters [start_time],
    [end_time] and [bucket], from the rows that the query gave. *)
Definition handleTrends (now : Z) (start_time end_time bucket : option string)
    (rows : list TrendRow) : TrendsResponse :=
  let startTime := time_param start_time (now - 7 * 24 * 60 * 60 * 1000) in
  let endTime := time_param end_time now in
  let bucket := or_default bucket "hour" in
  let bucketSize := bucketSize_of bucket in
  mkTrends bucket bucketSize startTime endTime
    (series bucketSize startTime endTime rows).

End Trends.

(* ================================================================== *)
(** * functions/api/events.ts: the query of handleEvents *)
(* ================================================================== *)

Module Events.
Import Js Upload.

(** The search parameters of the URL, as [searchParams.get] gives them. *)
Record SearchParams := mkSearchParams {
  sp_start_time : option string;
  sp_end_time : option string;
  sp_action : option string;
  sp_rule_id : option string;
  sp_host : option string;
  sp_src_country : option string;
  sp_colo : option string;
  sp_method : option string;
  sp_status : option string;
  sp_search : option string;
  sp_limit : option string;
  sp_offset : option string
}.

(** A number of JavaScript: [None] is NaN. *)
Definition Num : Type := option Z.

(** [EventsQuery]; an absent field is [undefined]. *)
Record EventsQuery := mkEventsQuery {
  q_start_time : option Num;
  q_end_time : option Num;
  q_action : option string;
  q_rule_id : option string;
  q_host : option string;
  q_src_country : option string;
  q_colo : option string;
  q_method : option string;
  q_status : option Num;
  q_search : option string;
  q_limit : Num;
  q_offset : Num
}.

Definition truthy_text (s : option string) : bool :=
  match s with
  | Some t => negb (String.eqb t EmptyString)
  | None => false
  end.

Definition truthy_num (n : option Num) : bool :=
  match n with
  | Some (Some z) => negb (z =? 0)
  | _ => false
  end.

(** [get(name) ? parseInt(get(name)!) : undefined] *)
Definition number_of (param : option string) : option Num :=
  if truthy_text param then Some (parseInt (or_empty param) 0) else None.

(** [get(name) || undefined] *)
Definition text_of (param : option string) : option string :=
  if truthy_text param then param else None.

Definition query_of (p : SearchParams) : EventsQuery := {|
  q_start_time := number_of (sp_start_time p);
  q_end_time := number_of (sp_end_time p);
  q_action := text_of (sp_action p);
  q_rule_id := text_of (sp_rule_id p);
  q_host := text_of (sp_host p);
  q_src_country := text_of (sp_src_country p);
  q_colo := text_of (sp_colo p);
  q_method := text_of (sp_method p);
  q_status := number_of (sp_status p);
  q_search := text_of (sp_search p);
  q_limit := parseInt (or_default (sp_limit p) "50") 0;
  q_offset := parseInt (or_default (sp_offset p) "0") 0
|}.

(** A bound value *)
Inductive Param :=
| p_number (n : Num)
| p_text (s : string).

Definition number_param (n : option Num) : Param :=
  p_number (match n with Some z => z | None => None end).

Definition text_param (s : option string) : Param := p_text (or_empty s).

(** One [if (query.x) { conditions.push(...); params.push(...) }] *)
Definition filter_by (present : bool) (condition : string) (values : list Param)
    (built : list string * list Param) : list string * list Param :=
  if present
  then (push (fst built) condition, (snd built ++ values)%list)
  else built.

(** Lines 22-74: [conditions] and [params] *)
Definition conditions_of (query : EventsQuery) : list string * list Param :=
  let built := ([], []) in
  let built :=
    filter_by (truthy_num (q_start_time query)) "event_ts >= ?"
      [number_param (q_start_time query)] built in
  let built :=
    filter_by (truthy_num (q_end_time query)) "event_ts <= ?"
      [number_param (q_end_time query)] built in
  let built :=
    filter_by (truthy_text (q_action query)) "action = ?"
      [text_param (q_action query)] built in
  let built :=
    filter_by (truthy_text (q_rule_id query)) "rule_id = ?"
      [text_param (q_rule_id query)] built in
  let built :=
    filter_by (truthy_text (q_host query)) "host = ?"
      [text_param (q_host query)] built in
  let built :=
    filter_by (truthy_text (q_src_country query)) "src_country = ?"
      [text_param (q_src_country query)] built in
  let built :=
    filter_by (truthy_text (q_colo query)) "colo = ?"
      [text_param (q_colo query)] built in
  let built :=
    filter_by (truthy_text (q_method query)) "method = ?"
      [text_param (q_method query)] built in
  let built :=
    filter_by (truthy_num (q_status query)) "status = ?"
      [number_param (q_status query)] built in
  let searchPattern := ("%" ++ or_empty (q_search query) ++ "%")%string in
  filter_by (truthy_text (q_search query))
    "(path LIKE ? OR ua LIKE ? OR host LIKE ?)"
    [p_text searchPattern; p_text searchPattern; p_text searchPattern] built.

(** [conditions.length > 0 ? `WHERE ${conditions.join(' AND ')}` : ''] *)
Definition whereClause_of (conditions : list string) : string :=
  match conditions with
  | [] => EmptyString
  | _ => ("WHERE " ++ String.concat " AND " conditions)%string
  end.

(** The count query with its bound values, and the values bound to the
    page query, whose text ends in [LIMIT ? OFFSET ?]. *)
Definition countQuery_of (query : EventsQuery) : string * list Param :=
  let built := conditions_of query in
  (("SELECT COUNT(*) as total FROM waf_events " ++ whereClause_of (fst built))%string,
   snd built).

Definition page_params (query : EventsQuery) : list Param :=
  (snd (conditions_of query)
   ++ [p_number (q_limit query); p_number (q_offset query)])%list.

(** [has_more: query.offset + query.limit < total] *)
Definition has_more (query : EventsQuery) (total : Z) : bool :=
  match q_offset query, q_limit query with
  | Some offset, Some limit => offset + limit <? total
  | _, _ => false
  end.

End Events.

(* ================================================================== *)
(** * A concrete runtime and concrete files, for the closed examples *)
(* ================================================================== *)

Module Fixtures.
Import Js Parser Store Upload Reindex.

Definition dq : string := String (ascii_of_nat 34) EmptyString.
Definition nl : string := newline.

(** [{"k1":v1,...}] for the members given as (key, text of the value) *)
Fixpoint members (kvs : list (string * string)) : string :=
  match kvs with
  | [] => EmptyString
  | [(k, v)] => dq ++ k ++ dq ++ ":" ++ v
  | (k, v) :: rest => dq ++ k ++ dq ++ ":" ++ v ++ "," ++ members rest
  end.
Definition object_text (kvs : list (string * string)) : string :=
  "{" ++ members kvs ++ "}".
Definition quoted (s : string) : string := dq ++ s ++ dq.

(** Three records of a WAF export, as text and as [JSON.parse] reads them. *)
Definition login_text : string :=
  object_text [("RayID", quoted "ray-1"); ("EdgeStartTimestamp", "1700000000");
               ("ClientIP", quoted "192.0.2.1"); ("ClientCountry", quoted "US");
               ("ClientASN", "64500");
               ("ClientRequestPath", quoted "/login");
               ("ClientRequestMethod", quoted "POST");
               ("EdgeResponseStatus", "403"); ("action", quoted "block")].
Definition login_value : JsVal :=
  JObj [("RayID", JStr "ray-1"); ("EdgeStartTimestamp", JNum 1700000000);
        ("ClientIP", JStr "192.0.2.1"); ("ClientCountry", JStr "US");
        ("ClientASN", JNum 64500);
        ("ClientRequestPath", JStr "/login");
        ("ClientRequestMethod", JStr "POST");
        ("EdgeResponseStatus", JNum 403); ("action", JStr "block")].

Definition retry_text : string :=
  object_text [("RayID", quoted "ray-2"); ("EdgeStartTimestamp", "1700000060");
               ("ClientIP", quoted "192.0.2.1"); ("ClientCountry", quoted "DE");
               ("ClientASN", "64501");
               ("ClientRequestPath", quoted "/login");
               ("ClientRequestMethod", quoted "POST");
               ("EdgeResponseStatus", "403"); ("action", quoted "block")].
Definition retry_value : JsVal :=
  JObj [("RayID", JStr "ray-2"); ("EdgeStartTimestamp", JNum 1700000060);
        ("ClientIP", JStr "192.0.2.1"); ("ClientCountry", JStr "DE");
        ("ClientASN", JNum 64501);
        ("ClientRequestPath", JStr "/login");
        ("ClientRequestMethod", JStr "POST");
        ("EdgeResponseStatus", JNum 403); ("action", JStr "block")].

Definition zero_text : string :=
  object_text [("RayID", quoted "ray-3"); ("EdgeStartTimestamp", "1700000120");
               ("ClientASN", quoted "0"); ("EdgeResponseStatus", quoted "0");
               ("ClientRequestBytes", "0"); ("threat_score", "0")].
Definition zero_value : JsVal :=
  JObj [("RayID", JStr "ray-3"); ("EdgeStartTimestamp", JNum 1700000120);
        ("ClientASN", JStr "0"); ("EdgeResponseStatus", JStr "0");
        ("ClientRequestBytes", JNum 0); ("threat_score", JNum 0)].

(** [JSON.parse] on the texts of the examples; every other text that the
    examples submit to it is not JSON. *)
Definition JSON_parse (s : string) : Parsed :=
  if String.eqb s login_text then Value login_value
  else if String.eqb s retry_text then Value retry_value
  else if String.eqb s zero_text then Value zero_value
  else SyntaxError "SyntaxError: Unexpected token".

(** [Date.parse] on the texts of the examples: the year-only ISO form
    [2020] is midnight UTC of its first of January; the other texts the
    examples submit are not dates. *)
Definition Date_parse (s : string) : option Z :=
  if String.eqb s "2020" then Some 1577836800000 else None.

(** An injective stand-in for the digest. *)
Definition computeChecksum (s : string) : string := s.

Definition now : Z := 1700003600000.

(** Draws that differ from one another: a0...0, b0...0, and so on. *)
Definition randomblob_hex (n : nat) : string :=
  String (ascii_of_nat (97 + n)) "0000000000000000000000000000000".

(** A stack that takes 125000 arguments. *)
Definition max_arguments : Z := 125000.

Definition empty_world : World := mkWorld [] 0 [] 0 [] [] [] [] [] 0.

(** A store that holds the upload rows of two files and no event. *)
Definition two_uploads : World :=
  mkWorld
    [mkUpload 1 "a.json" "checksum-a" 10 now None (Some 0) (Some 0) (Some 0);
     mkUpload 2 "b.json" "checksum-b" 10 now None (Some 0) (Some 0) (Some 0)]
    2 [] 0 [] [] [] [] [] 0.

Definition env_r2 : Env := mkEnv true (Some "true") None.
Definition env_plain : Env := mkEnv false None None.

Definition file_of (name content : string) : File :=
  mkFile name (Z.of_nat (String.length content)) content.

(** The events of the first two records. *)
Definition login_event : WAFEvent := {|
  ray_id := "ray-1"; event_ts := 1700000000000;
  src_ip := Some "192.0.2.1"; src_country := Some "US"; src_asn := Some 64500;
  colo := None; host := None; path := Some "/login"; method := Some "POST";
  status := Some 403; rule_id := None; rule_name := None;
  rule_type := unknown_rule; action := block; service := None;
  mitigation_reason := None; ua := None; ja3 := None;
  bytes := None; threat_score := None |}.

Definition retry_event : WAFEvent := {|
  ray_id := "ray-2"; event_ts := 1700000060000;
  src_ip := Some "192.0.2.1"; src_country := Some "DE"; src_asn := Some 64501;
  colo := None; host := None; path := Some "/login"; method := Some "POST";
  status := Some 403; rule_id := None; rule_name := None;
  rule_type := unknown_rule; action := block; service := None;
  mitigation_reason := None; ua := None; ja3 := None;
  bytes := None; threat_score := None |}.

(** Files: one record; another record; both records, one per line; and a
    file without any record. *)
Definition login_file : File := file_of "login.json" login_text.
Definition retry_file : File := file_of "retry.json" retry_text.
Definition ndjson_file : File :=
  file_of "waf.ndjson" (login_text ++ nl ++ retry_text)%string.
Definition junk_file : File := file_of "junk.txt" "not json".

Definition processFile :=
  Upload.processFile JSON_parse Date_parse computeChecksum now randomblob_hex
    max_arguments.
Definition handleReindex := Reindex.handleReindex JSON_parse Date_parse now.
Definition parseContent := Upload.parseContent JSON_parse Date_parse.
Definition updateAnalyticsTables := Upload.updateAnalyticsTables now randomblob_hex.

(** A JSON array of the first two records and a [null], and [JSON.parse]
    extended to it. *)
Definition array_text : string :=
  ("[" ++ login_text ++ "," ++ retry_text ++ ",null]")%string.
Definition array_value : JsVal := JArr [login_value; retry_value; JNull].
Definition JSON_parse_with_array (s : string) : Parsed :=
  if String.eqb s array_text then Value array_value else JSON_parse s.

Definition handleUpload :=
  Upload.handleUpload JSON_parse Date_parse computeChecksum now randomblob_hex
    max_arguments.

Definition multipart (files : list File) : UploadRequest :=
  mkUploadRequest (Some "multipart/form-data; boundary=x") files.

(** A record whose timestamp, in milliseconds, is beyond the range of
    [Date], and [JSON.parse] extended to it. *)
Definition far_text : string :=
  object_text [("RayID", quoted "ray-9");
               ("EdgeStartTimestamp", "9000000000000000")].
Definition far_value : JsVal :=
  JObj [("RayID", JStr "ray-9"); ("EdgeStartTimestamp", JNum 9000000000000000)].
Definition JSON_parse_with_far (s : string) : Parsed :=
  if String.eqb s far_text then Value far_value else JSON_parse s.
Definition far_file : File := file_of "far.json" far_text.

(** The router over read handlers that answer nothing and leave the store
    as it is. *)
Definition silent (context : Route.Context) (env : Env) : M unit := ret tt.
Definition onRequest :=
  Route.onRequest JSON_parse Date_parse computeChecksum now randomblob_hex
    max_arguments unit silent silent silent silent silent silent.

Definition post_upload (authorization : option string) (files : list File)
    : Route.Context :=
  Route.mkContext "POST" "upload" authorization (multipart files) (mkBody None None).

(** The answer and the store of the upload of [login_file] with raw
    retention, into the empty store. *)
Definition login_result : FileResult :=
  Eval vm_compute in
    match fst (processFile login_file env_r2 (Some 1000) empty_world) with
    | Ok r => r
    | _ => no_valid_events EmptyString EmptyString 0 [] 0
    end.
Definition login_uploaded : World :=
  Eval vm_compute in
    snd (processFile login_file env_r2 (Some 1000) empty_world).


(** The answer and the store of the upload of [junk_file] into the empty
    store. *)
Definition junk_result : FileResult :=
  Eval vm_compute in
    match fst (processFile junk_file env_plain (Some 1000) empty_world) with
    | Ok r => r
    | _ => no_valid_events EmptyString EmptyString 0 [] 0
    end.
Definition junk_uploaded : World :=
  Eval vm_compute in
    snd (processFile junk_file env_plain (Some 1000) empty_world).

(** A record of another path, and a store in which it comes after the
    login record: the groups of the rollups come out in key order,
    "/admin" first. *)
Definition admin_event : WAFEvent := {|
  ray_id := "ray-3"; event_ts := 1700000120000;
  src_ip := Some "192.0.2.9"; src_country := Some "FR"; src_asn := Some 64502;
  colo := None; host := None; path := Some "/admin"; method := Some "GET";
  status := Some 403; rule_id := None; rule_name := None;
  rule_type := unknown_rule; action := block; service := None;
  mitigation_reason := None; ua := None; ja3 := None;
  bytes := None; threat_score := None |}.

Definition paths_stored : World :=
  Eval vm_compute in
    snd (Upload.insertEventBatch now [login_event; admin_event] 1 two_uploads).

(** The store after the upload of the file whose timestamp is beyond the
    year 9999: the event is stored, the rollup update has failed. *)
Definition far_result : res FileResult :=
  Eval vm_compute in
    fst (Upload.processFile JSON_parse_with_far Date_parse computeChecksum now
           randomblob_hex max_arguments far_file env_plain (Some 1000)
           empty_world).

Definition far_uploaded : World :=
  Eval vm_compute in
    snd (Upload.processFile JSON_parse_with_far Date_parse computeChecksum now
           randomblob_hex max_arguments far_file env_plain (Some 1000)
           empty_world).

(** A record with nothing but its two mandatory fields, and a record
    whose optional fields are malformed: an address that is a number, an
    ASN that is not numeric, an array of rule ids whose head is a number,
    beside a rule id that is empty, and an action that is a number. *)
Definition bare_value : JsVal :=
  JObj [("RayID", JStr "ray-7"); ("EdgeStartTimestamp", JNum 1700000000)].

Definition bare_event : WAFEvent := {|
  ray_id := "ray-7"; event_ts := 1700000000000;
  src_ip := None; src_country := None; src_asn := None;
  colo := None; host := None; path := None; method := None;
  status := None; rule_id := None; rule_name := None;
  rule_type := unknown_rule; action := unknown_action; service := None;
  mitigation_reason := None; ua := None; ja3 := None;
  bytes := None; threat_score := None |}.

Definition malformed_value : JsVal :=
  JObj [("RayID", JStr "ray-8"); ("EdgeStartTimestamp", JNum 1700000000);
        ("ClientIP", JNum 5); ("ClientASN", JStr "none");
        ("FirewallMatchesRuleIDs", JArr [JNum 1]); ("rule_id", JStr EmptyString);
        ("action", JNum 1); ("ClientRequestPath", JStr "/login")].

Definition malformed_event : WAFEvent := {|
  ray_id := "ray-8"; event_ts := 1700000000000;
  src_ip := None; src_country := None; src_asn := None;
  colo := None; host := None; path := Some "/login"; method := None;
  status := None; rule_id := None; rule_name := None;
  rule_type := unknown_rule; action := unknown_action; service := None;
  mitigation_reason := None; ua := None; ja3 := None;
  bytes := None; threat_score := None |}.

(** A line of white space: two spaces, a TAB and a CR. *)
Definition blank_line : string :=
  String " " (String " " (String (ascii_of_nat 9)
    (String (ascii_of_nat 13) EmptyString))).

End Fixtures.

(* ================================================================== *)
(** * The vocabulary of the statements *)
(* ================================================================== *)

Import Js Parser Store Upload Reindex.

Local Open Scope list_scope.

(** ** Records *)

(** The keys read for the correlation id and for the timestamp. *)
Definition ray_id_aliases : list string :=
  ["RayID"; "rayId"; "ray_id"; "rayName"; "ray_name"].

Definition timestamp_aliases : list string :=
  ["EdgeStartTimestamp"; "edgeStartTimestamp"; "timestamp";
   "event_timestamp"; "datetime"].

(** No correlation-id alias carries a non-empty string. *)
Definition no_correlation_id (raw : JsVal) : Prop :=
  forall k s, In k ray_id_aliases -> prop raw k = JStr s -> s = EmptyString.

(** No timestamp alias carries a value that normalizes to a timestamp. *)
Definition no_parseable_timestamp (Date_parse : string -> option Z)
    (raw : JsVal) : Prop :=
  forall k, In k timestamp_aliases ->
    normalizeTimestamp Date_parse (prop raw k) = None.

(** Two records that agree on every correlation-id and timestamp alias. *)
Definition same_mandatory_fields (raw raw' : JsVal) : Prop :=
  forall k, In k (ray_id_aliases ++ timestamp_aliases) ->
    prop raw k = prop raw' k.

(** The optional fields that are read as a text, each with its aliases. *)
Definition text_fields : list ((WAFEvent -> option string) * list string) :=
  [(src_ip, ["ClientIP"; "clientIP"; "client_ip"; "source_ip"]);
   (src_country,
    ["ClientCountry"; "clientCountry"; "client_country"; "clientCountryName";
     "client_country_name"]);
   (colo,
    ["EdgeColoCode"; "edgeColoCode"; "colo"; "datacenter"; "edgeColo";
     "edge_colo"]);
   (host,
    ["ClientRequestHost"; "clientRequestHost"; "host"; "hostname";
     "clientRequestHTTPHost"; "client_request_http_host"]);
   (path,
    ["ClientRequestPath"; "clientRequestPath"; "path"; "uri";
     "client_request_path"]);
   (method,
    ["ClientRequestMethod"; "clientRequestMethod"; "method";
     "clientRequestHTTPMethodName"; "client_request_http_method_name"]);
   (rule_name, ["WAFRuleMessage"; "wafRuleMessage"; "rule_name"; "description"]);
   (mitigation_reason, ["mitigation_reason"]);
   (ua,
    ["ClientRequestUserAgent"; "clientRequestUserAgent"; "user_agent"; "ua";
     "userAgent"]);
   (ja3, ["JA3Hash"; "ja3Hash"; "ja3"])].

(** The optional fields that are read as a number, each with its aliases. *)
Definition number_fields : list ((WAFEvent -> option Z) * list string) :=
  [(src_asn, ["ClientASN"; "clientASN"; "client_asn"; "clientAsn"]);
   (status,
    ["EdgeResponseStatus"; "edgeResponseStatus"; "status";
     "edge_response_status"]);
   (bytes,
    ["ClientRequestBytes"; "clientRequestBytes"; "bytes";
     "client_request_bytes"]);
   (threat_score, ["SecurityLevel"; "securityLevel"; "threat_score"])].

(** The optional fields that are read from the head of an array or from a
    text: the aliases that are arrays, and those that are texts. *)
Definition head_fields
    : list ((WAFEvent -> option string) * (list string * list string)) :=
  [(rule_id,
    (["FirewallMatchesRuleIDs"; "firewallMatchesRuleIDs"],
     ["rule_id"; "ruleId"; "WAFRuleID"; "wafRuleID"]));
   (service,
    (["FirewallMatchesSources"; "firewallMatchesSources"],
     ["service"; "source"]))].

Definition action_aliases : list string * list string :=
  (["FirewallMatchesActions"; "firewallMatchesActions"],
   ["action"; "WAFAction"; "wafAction"]).

(** No alias carries a non-empty string. *)
Definition no_text (raw : JsVal) (aliases : list string) : Prop :=
  forall k s, In k aliases -> prop raw k = JStr s -> s = EmptyString.

(** No alias carries a number other than 0, or a text that reads as one. *)
Definition no_number (raw : JsVal) (aliases : list string) : Prop :=
  forall k, In k aliases ->
    match prop raw k with
    | JNum z => z = 0
    | JStr s => parseInt s 10 = None \/ parseInt s 10 = Some 0
    | _ => True
    end.

(** No array alias has a non-empty string at its head, and no text alias
    carries a non-empty string. *)
Definition no_head_text (raw : JsVal) (aliases : list string * list string)
    : Prop :=
  (forall k s rest, In k (fst aliases) ->
     prop raw k = JArr (JStr s :: rest) -> s = EmptyString)
  /\ no_text raw (snd aliases).

(** ** Content *)

(** White space, by its code units: TAB, LF, VT, FF, CR, SP and NBSP. *)
Definition white_space : list nat := [9; 10; 11; 12; 13; 32; 160]%nat.

(** A blank line: every character of it is white space. *)
Definition blank (line : string) : Prop :=
  forall c, In c (list_ascii_of_string line) -> In (nat_of_ascii c) white_space.

Definition is_blank (line : string) : bool :=
  forallb (fun c => existsb (Nat.eqb (nat_of_ascii c)) white_space)
    (list_ascii_of_string line).

(** What one record, and one line, contribute to the two sequences. *)
Definition record_events (Date_parse : string -> option Z) (record : JsVal)
    : list WAFEvent :=
  match parseWAFRecord Date_parse record with
  | Some event => [event]
  | None => []
  end.

Definition line_events (JSON_parse : string -> Parsed)
    (Date_parse : string -> option Z) (line : string) : list WAFEvent :=
  match JSON_parse line with
  | Value record => record_events Date_parse record
  | SyntaxError _ => []
  end.

Definition line_errors (JSON_parse : string -> Parsed) (line : string)
    : list string :=
  match JSON_parse line with
  | Value _ => []
  | SyntaxError e => [("Failed to parse line: " ++ e)%string]
  end.

(** ** Tables *)

(** The number of stored rows that carry the key of [v]. *)
Definition key_count (v : EventValues) (t : list EventRow) : nat :=
  List.length (filter (fun e => same_key (e_vals e) v) t).

(** The stored rows with a correlation id and a timestamp, and their
    number. *)
Definition rows_with (ray : string) (ts : Z) (t : list EventRow) : list EventRow :=
  filter (fun r => String.eqb (v_ray_id (e_vals r)) ray
                   && (v_event_ts (e_vals r) =? ts)) t.

Definition stored_with (ray : string) (ts : Z) (t : list EventRow) : nat :=
  List.length (rows_with ray ts t).

(** The stored events without their row ids. *)
Definition stored_values (w : World) : list EventValues :=
  map e_vals (waf_events w).

(** The constraint UNIQUE(ray_id, event_ts) on a table. *)
Definition unique_keys (t : list EventRow) : Prop :=
  forall v, (key_count v t <= 1)%nat.

(** One [INSERT OR IGNORE], as a function of the world. *)
Definition add_event (v : EventValues) (w : World) : World :=
  mkWorld (uploads w) (uploads_seq w)
    (waf_events w ++ [mkRow (events_seq w + 1) v]) (events_seq w + 1)
    (daily_actions w) (top_rules w) (top_ips w) (attack_paths w)
    (r2 w) (draws w).

(** One ignored insert: the AUTOINCREMENT counter has moved. *)
Definition skip_event (w : World) : World :=
  mkWorld (uploads w) (uploads_seq w) (waf_events w) (events_seq w + 1)
    (daily_actions w) (top_rules w) (top_ips w) (attack_paths w)
    (r2 w) (draws w).

(** One [INSERT OR IGNORE] for a file that has its upload row. *)
Definition insert_step (v : EventValues) (w : World) : Z * World :=
  if has_key v (waf_events w) then (0, skip_event w) else (1, add_event v w).

(** [DB.batch] for a file that has its upload row, as a function of the
    world. *)
Fixpoint run_batch (stmts : list EventValues) (w : World) : list Z * World :=
  match stmts with
  | [] => ([], w)
  | v :: rest =>
      let (cs, w') := run_batch rest (snd (insert_step v w)) in
      (fst (insert_step v w) :: cs, w')
  end.

(** A result with [meta.changes > 0], and one without. *)
Definition written (changes : Z) : bool := 0 <? changes.

Definition suppressed (changes : Z) : bool := negb (0 <? changes).

(** ** Computations *)

(** [m] leaves the part [part] of the world unchanged, whatever it returns. *)
Definition preserves {A X : Type} (part : World -> X) (m : M A) : Prop :=
  forall w, part (snd (m w)) = part w.

(** The constraint [checksum TEXT UNIQUE] on [uploads]. *)
Definition unique_checksums (t : list UploadRow) : Prop :=
  NoDup (map up_checksum t).

(** The row that the lookup by checksum gives. *)
Definition upload_with (checksum : string) (w : World) : option UploadRow :=
  find (fun u => String.eqb (up_checksum u) checksum) (uploads w).

(** The world after [DELETE FROM uploads WHERE id = ?]. *)
Definition without_upload (id : Z) (w : World) : World :=
  snd (delete_upload id w).




(** UNIQUE(ray_id, event_ts) on [waf_events], UNIQUE on [uploads.checksum]. *)
Definition constraints (w : World) : Prop :=
  unique_keys (waf_events w) /\ unique_checksums (uploads w).

(** [m] keeps the invariant [I], whatever it returns. *)
Definition maintains {A : Type} (I : World -> Prop) (m : M A) : Prop :=
  forall w, I w -> I (snd (m w)).

(** The part of the world that the constraints speak of. *)
Definition constrained (w : World) := (waf_events w, uploads w).

(** The last row of [uploads] carries the checksum and the id, no row
    before it carries the checksum, and [P] holds of it. *)
Definition newest (checksum : string) (id : Z) (P : UploadRow -> Prop)
    (t : list UploadRow) : Prop :=
  exists before u,
    t = before ++ [u]
    /\ (forall x, In x before -> up_checksum x <> checksum)
    /\ up_checksum u = checksum /\ up_id u = id /\ P u.

(** ** More vocabulary: the batch loop and the rollup totals *)

(** The rows of [waf_events] that belong to a file. *)
Definition rows_of_file (fileId : Z) (t : list EventRow) : list EventRow :=
  filter (fun e => v_file_id (e_vals e) =? fileId) t.

(** The rows of [waf_events] that belong to the other files. *)
Definition rows_of_others (fileId : Z) (t : list EventRow) : list EventRow :=
  filter (fun e => negb (v_file_id (e_vals e) =? fileId)) t.

(** The sum of a list of integers, and of the [count] column of each
    rollup table. *)
Definition sumZ (l : list Z) : Z := fold_right Z.add 0 l.



(** ** More vocabulary: events *)

(** An optional text that is absent or not empty. *)
Definition absent_or_nonempty (o : option string) : Prop :=
  o <> Some EmptyString.

(** The optional texts of an event. *)
Definition optional_texts (e : WAFEvent) : list (option string) :=
  [src_ip e; src_country e; colo e; host e; path e; method e; rule_id e;
   rule_name e; service e; mitigation_reason e; ua e; ja3 e].

(** The row that carries the fields of an event as they are. *)
Definition values_of_event (now : Z) (e : WAFEvent) (fileId : Z) : EventValues := {|
  v_ray_id := ray_id e;
  v_event_ts := event_ts e;
  v_src_ip := src_ip e;
  v_src_country := src_country e;
  v_src_asn := src_asn e;
  v_colo := colo e;
  v_host := host e;
  v_path := path e;
  v_method := method e;
  v_status := status e;
  v_rule_id := rule_id e;
  v_rule_name := rule_name e;
  v_rule_type := Some (rule_type_text (rule_type e));
  v_action := action_text (action e);
  v_service := service e;
  v_mitigation_reason := mitigation_reason e;
  v_ua := ua e;
  v_ja3 := ja3 e;
  v_bytes := bytes e;
  v_threat_score := threat_score e;
  v_file_id := fileId;
  v_ingested_at := now
|}.

(** ** More vocabulary: the outcome of an upload and the target of a reindex *)

(** Raw retention is on: [env.R2 && env.ENABLE_R2_STORAGE === 'true']. *)
Definition retains (env : Env) : bool :=
  R2_bound env && opt_eqb String.eqb (ENABLE_R2_STORAGE env) (Some "true").

(** The file id and the inserted count that a result reports (a result
    without valid events reports no count: nothing was inserted). *)
Definition result_file_id (r : FileResult) : Z :=
  match r with
  | already_processed _ _ id _ _ _ => id
  | no_valid_events _ _ id _ _ => id
  | success _ _ id _ _ _ _ _ _ => id
  end.

Definition result_inserted (r : FileResult) : Z :=
  match r with
  | already_processed _ _ _ inserted _ _ => inserted
  | no_valid_events _ _ _ _ _ => 0
  | success _ _ _ _ inserted _ _ _ _ => inserted
  end.

Definition result_filename (r : FileResult) : string :=
  match r with
  | already_processed name _ _ _ _ _ => name
  | no_valid_events name _ _ _ _ => name
  | success name _ _ _ _ _ _ _ _ => name
  end.

(** The result of a run that ingested the file. *)
Definition ingested (r : FileResult) : bool :=
  match r with already_processed _ _ _ _ _ _ => false | _ => true end.

(** The upload row that a reindex request designates: by checksum when the
    body has one, by file id otherwise. *)
Definition reindex_target (body : Body) (w : World) : option UploadRow :=
  if negb (falsy_string (b_checksum body))
  then find (fun u => String.eqb (up_checksum u) (or_empty (b_checksum body)))
         (uploads w)
  else find (fun u => up_id u =? or_zero (b_file_id body)) (uploads w).

(** The uploads, their AUTOINCREMENT counter and the bucket. *)
Definition files_part (w : World) := (uploads w, uploads_seq w, r2 w).

(** ** More vocabulary: the upload endpoint *)

(** The file name that an entry of [results] carries. *)
Definition entry_filename (e : UploadEntry) : string :=
  match e with
  | entry_result r => result_filename r
  | entry_error name _ => name
  | entry_too_large name _ _ => name
  end.

(** The limit of [handleUpload] in bytes; [None] is NaN. *)
Definition maxFileSize_of (MAX_FILE_SIZE_MB : option string) : option Z :=
  option_map (fun n => n * 1024 * 1024)
    (parseInt (or_default MAX_FILE_SIZE_MB "50") 0).

Definition fits (MAX_FILE_SIZE_MB : option string) (file : File) : bool :=
  negb (exceeds (f_size file) (maxFileSize_of MAX_FILE_SIZE_MB)).

Definition is_multipart (request : UploadRequest) : bool :=
  includes (or_empty (content_type request)) "multipart/form-data".

(** A call of one of the two endpoints that write, at a time [now]. *)
Inductive Call :=
| call_upload (now : Z) (request : UploadRequest) (env : Env)
    (MAX_FILE_SIZE_MB : option string)
| call_reindex (now : Z) (body : Body) (env : Env).

(** The world after a sequence of calls. *)
Definition serve (JSON_parse : string -> Parsed) (Date_parse : string -> option Z)
    (computeChecksum : string -> string) (randomblob_hex : nat -> string)
    (max_arguments : Z) (calls : list Call) (w : World) : World :=
  fold_left
    (fun w call =>
       match call with
       | call_upload now request env mb =>
           snd (handleUpload JSON_parse Date_parse computeChecksum now
                  randomblob_hex max_arguments request env mb w)
       | call_reindex now body env =>
           snd (handleReindex JSON_parse Date_parse now body env w)
       end)
    calls w.

(** ** More vocabulary: the router *)

Import Route.

(** The route is behind the token: [path === 'reindex' || method === 'POST']. *)
Definition is_protected (context : Context) : bool :=
  String.eqb (req_route context) "reindex"
  || String.eqb (req_method context) "POST".

(** The Authorization header, less its first [Bearer ], is the token. *)
Definition presents (context : Context) (token : string) : bool :=
  match req_authorization context with
  | Some header => String.eqb (replace header "Bearer " EmptyString) token
  | None => false
  end.

(** A handler that leaves the whole store as it is, whatever it answers. *)
Definition reads_only {A : Type} (handler : Context -> Env -> M A) : Prop :=
  forall context env, preserves (fun w => w) (handler context env).

(** ** More vocabulary: hexadecimal texts *)

Definition is_lower_hex (c : ascii) : bool :=
  let n := nat_of_ascii c in
  ((48 <=? n) && (n <=? 57) || (97 <=? n) && (n <=? 102))%nat.

Definition hex_value (c : ascii) : option N :=
  let n := N_of_ascii c in
  if ((48 <=? n) && (n <=? 57))%N then Some (n - 48)%N
  else if ((97 <=? n) && (n <=? 102))%N then Some (n - 87)%N
  else None.

(** The bytes that a text of hexadecimal pairs writes. *)
Fixpoint unhex (s : string) : option (list Byte.byte) :=
  match s with
  | EmptyString => Some []
  | String hi (String lo rest) =>
      match hex_value hi, hex_value lo, unhex rest with
      | Some h, Some l, Some bytes =>
          option_map (fun b => b :: bytes) (Byte.of_N (16 * h + l))
      | _, _, _ => None
      end
  | String _ EmptyString => None
  end.

(** ** More vocabulary: the buckets of a series *)

(** The starts of the buckets that the loop from [s] to [e] visits. *)
Definition bucket_starts (bucketSize s e : Z) : list Z :=
  map (fun k => (s / bucketSize + Z.of_nat k) * bucketSize)
    (seq 0 (Z.to_nat ((e - s) / bucketSize + 1))).

Fixpoint ascending (l : list Z) : Prop :=
  match l with
  | [] => True
  | x :: rest =>
      match rest with [] => True | y :: _ => x < y end /\ ascending rest
  end.

(** Every object of the map carries the timestamp it is stored under. *)
Definition keyed (m : list (Z * Trends.TimeSeriesData)) : Prop :=
  forall k d, In (k, d) m -> Trends.ts_timestamp d = k.

(** ** More vocabulary: the placeholders of a query *)

(** The number of [?] in a text. *)
Fixpoint placeholders (s : string) : nat :=
  match s with
  | EmptyString => O
  | String c rest =>
      ((if Ascii.eqb c "?"%char then 1 else 0) + placeholders rest)%nat
  end.

(** A value that a filter binds: a number other than 0 and NaN, or a text
    that is not empty. *)
Definition bound_by_filter (p : Events.Param) : Prop :=
  match p with
  | Events.p_number n => exists z, n = Some z /\ z <> 0
  | Events.p_text s => s <> EmptyString
  end.

(* ================================================================== *)
(** * The field normalizer: mandatory fields, timestamps, zeros *)
(* ================================================================== *)

Lemma extractString_None (v : JsVal) :
  (forall s, v = JStr s -> s = EmptyString) -> extractString v = None.
Proof.
  intros H. destruct v; simpl; try reflexivity.
  rewrite (H s eq_refl). reflexivity.
Qed.

Lemma extractString_nonempty (v : JsVal) (s : string) :
  extractString v = Some s -> v = JStr s /\ s <> EmptyString.
Proof.
  destruct v; simpl; try discriminate.
  destruct (String.eqb_spec s0 EmptyString); try discriminate.
  intros [= <-]. split; [reflexivity | assumption].
Qed.

Lemma str_or_None_l (b : option string) : str_or None b = b.
Proof. reflexivity. Qed.

Lemma rayId_of_None (raw : JsVal) :
  no_correlation_id raw -> rayId_of raw = None.
Proof.
  intros H.
  assert (Hk : forall k, In k ray_id_aliases -> extractString (prop raw k) = None).
  { intros k Hk. apply extractString_None. intros s Hs. exact (H k s Hk Hs). }
  unfold rayId_of.
  rewrite !Hk by (simpl; tauto). reflexivity.
Qed.

(** [a || b] is one of its two operands. *)
Lemma js_or_cases (a b : JsVal) : js_or a b = a \/ js_or a b = b.
Proof. unfold js_or. destruct (truthy a); auto. Qed.

Lemma timestamp_of_alias (raw : JsVal) :
  exists k, In k timestamp_aliases /\ timestamp_of raw = prop raw k.
Proof.
  unfold timestamp_of, timestamp_aliases.
  repeat match goal with
  | |- context [js_or ?a ?b] =>
      destruct (js_or_cases a b) as [-> | ->]
  end;
  eexists; (split; [| reflexivity]); simpl; tauto.
Qed.

Lemma rayId_of_same (raw raw' : JsVal) :
  same_mandatory_fields raw raw' -> rayId_of raw = rayId_of raw'.
Proof.
  intros H. unfold rayId_of.
  rewrite !(H _) by (simpl; tauto). reflexivity.
Qed.

Lemma timestamp_of_same (raw raw' : JsVal) :
  same_mandatory_fields raw raw' -> timestamp_of raw = timestamp_of raw'.
Proof.
  intros H. unfold timestamp_of.
  rewrite !(H _) by (simpl; tauto). reflexivity.
Qed.

(** The verdict of [parseWAFRecord] is decided by the correlation id and
    the timestamp alone. *)
Lemma parseWAFRecord_verdict (Date_parse : string -> option Z) (raw : JsVal) :
  parseWAFRecord Date_parse raw = None <->
  (rayId_of raw = None
   \/ normalizeTimestamp Date_parse (timestamp_of raw) = None
   \/ normalizeTimestamp Date_parse (timestamp_of raw) = Some 0).
Proof.
  unfold parseWAFRecord, parseWAFRecord_exn, parseWAFRecord_try.
  destruct (is_nullish raw) eqn:Hn.
  - split; [intros _ | reflexivity].
    left. destruct raw; try discriminate; reflexivity.
  - destruct (rayId_of raw) as [rayId |]; [| tauto].
    destruct (normalizeTimestamp Date_parse (timestamp_of raw)) as [ts |]; [| tauto].
    destruct (Z.eqb_spec ts 0) as [-> | Hts]; [tauto |].
    split; [discriminate |].
    intros [H | [H | H]]; try discriminate.
    injection H as ->. contradiction.
Qed.

Lemma parseWAFRecord_accepts (Date_parse : string -> option Z)
    (raw : JsVal) (rayId : string) (ts : Z) :
  rayId_of raw = Some rayId ->
  normalizeTimestamp Date_parse (timestamp_of raw) = Some ts ->
  ts <> 0 ->
  exists e, parseWAFRecord Date_parse raw = Some e
            /\ ray_id e = rayId /\ event_ts e = ts.
Proof.
  intros Hr Ht Hz.
  unfold parseWAFRecord, parseWAFRecord_exn, parseWAFRecord_try.
  destruct (is_nullish raw) eqn:Hn.
  { destruct raw; discriminate. }
  rewrite Hr, Ht.
  destruct (Z.eqb_spec ts 0); [contradiction |].
  eexists; repeat split.
Qed.

(** ** The optional fields *)

Lemma extractString_no_text (raw : JsVal) (aliases : list string) (k : string) :
  no_text raw aliases -> In k aliases -> extractString (prop raw k) = None.
Proof.
  intros H Hk. specialize (H k). unfold extractString.
  destruct (prop raw k); try reflexivity.
  rewrite (H _ Hk eq_refl). reflexivity.
Qed.

Lemma safeString_no_text (raw : JsVal) (aliases : list string) (k : string) :
  no_text raw aliases -> In k aliases -> safeString (prop raw k) = None.
Proof. exact (extractString_no_text raw aliases k). Qed.

Lemma normalizeNumber_no_number (raw : JsVal) (aliases : list string)
    (v : JsVal) :
  no_number raw aliases ->
  (exists k, In k aliases /\ v = prop raw k) ->
  num_or_undefined (normalizeNumber v) = None.
Proof.
  intros H (k & Hk & ->). specialize (H k Hk).
  destruct (prop raw k); simpl; try reflexivity.
  - rewrite H. reflexivity.
  - destruct H as [-> | ->]; reflexivity.
Qed.

Ltac alias_of_chain :=
  repeat match goal with
  | |- context [js_or ?a ?b] => destruct (js_or_cases a b) as [-> | ->]
  end;
  eexists; (split; [| reflexivity]); simpl; tauto.

Lemma number_aliases (raw : JsVal) :
  (exists k, In k ["ClientASN"; "clientASN"; "client_asn"; "clientAsn"]%string
             /\ asn_of raw = prop raw k)
  /\ (exists k, In k ["EdgeResponseStatus"; "edgeResponseStatus"; "status";
                      "edge_response_status"]%string
                /\ status_of raw = prop raw k)
  /\ (exists k, In k ["ClientRequestBytes"; "clientRequestBytes"; "bytes";
                      "client_request_bytes"]%string
                /\ bytes_of raw = prop raw k)
  /\ (exists k, In k ["SecurityLevel"; "securityLevel"; "threat_score"]%string
                /\ threat_of raw = prop raw k).
Proof.
  unfold asn_of, status_of, bytes_of, threat_of.
  repeat apply conj; alias_of_chain.
Qed.

Lemma first_if_string_no_head (v : JsVal) :
  (forall s rest, v = JArr (JStr s :: rest) -> s = EmptyString) ->
  str_or (first_if_string v) None = None.
Proof.
  intros H. destruct v as [| | | | | l |]; try reflexivity.
  destruct l as [| [| | | | s | |] rest]; try reflexivity.
  rewrite (H _ _ eq_refl). reflexivity.
Qed.

Lemma string_of_no_text (v : JsVal) :
  (forall s, v = JStr s -> s = EmptyString) ->
  str_or (string_of v) None = None.
Proof.
  intros H. destruct v; try reflexivity.
  rewrite (H _ eq_refl). reflexivity.
Qed.

Ltac no_head_chain raw Ha Hs :=
  repeat match goal with
  | |- context [if nonempty_array (prop raw ?k) then _ else _] =>
      destruct (nonempty_array (prop raw k));
      [apply first_if_string_no_head; intros s rest E;
       apply (Ha k s rest); [simpl; tauto | exact E] |]
  | |- context [if is_string (prop raw ?k) then _ else _] =>
      destruct (is_string (prop raw k));
      [apply string_of_no_text; intros s E;
       apply (Hs k s); [simpl; tauto | exact E] |]
  end;
  reflexivity.

Lemma ruleId_of_no_head (raw : JsVal) :
  no_head_text raw
    (["FirewallMatchesRuleIDs"; "firewallMatchesRuleIDs"],
     ["rule_id"; "ruleId"; "WAFRuleID"; "wafRuleID"])%string ->
  str_or (ruleId_of raw) None = None.
Proof. intros [Ha Hs]. unfold ruleId_of. no_head_chain raw Ha Hs. Qed.

Lemma service_of_no_head (raw : JsVal) :
  no_head_text raw
    (["FirewallMatchesSources"; "firewallMatchesSources"],
     ["service"; "source"])%string ->
  str_or (service_of raw) None = None.
Proof. intros [Ha Hs]. unfold service_of. no_head_chain raw Ha Hs. Qed.

Lemma actionValue_of_no_head (raw : JsVal) :
  no_head_text raw action_aliases ->
  str_or (actionValue_of raw) None = None.
Proof. intros [Ha Hs]. unfold actionValue_of. no_head_chain raw Ha Hs. Qed.

Lemma normalizeAction_no_text (a : option string) :
  str_or a None = None -> normalizeAction a = unknown_action.
Proof.
  unfold str_or, normalizeAction. destruct a as [s |]; [| reflexivity].
  destruct (String.eqb s EmptyString); [reflexivity | discriminate].
Qed.

Lemma determineRuleType_no_rule (ruleId service : option string) :
  str_or ruleId None = None -> determineRuleType ruleId service = unknown_rule.
Proof.
  unfold str_or, determineRuleType. destruct ruleId as [r |]; [| reflexivity].
  destruct (String.eqb r EmptyString); [reflexivity | discriminate].
Qed.

(** An optional field whose aliases carry nothing usable is absent in the
    event; the action is then [unknown], and the rule type is [unknown]
    when there is no rule id. *)
Lemma parseWAFRecord_optional_fields (Date_parse : string -> option Z)
    (raw : JsVal) (e : WAFEvent) :
  parseWAFRecord Date_parse raw = Some e ->
  Forall (fun field => no_text raw (snd field) -> fst field e = None)
    text_fields
  /\ Forall (fun field => no_number raw (snd field) -> fst field e = None)
       number_fields
  /\ Forall (fun field => no_head_text raw (snd field) -> fst field e = None)
       head_fields
  /\ (no_head_text raw action_aliases -> action e = unknown_action)
  /\ (rule_id e = None -> rule_type e = unknown_rule).
Proof.
  unfold parseWAFRecord, parseWAFRecord_exn, parseWAFRecord_try.
  destruct (is_nullish raw); [discriminate |].
  destruct (rayId_of raw) as [rayId |]; [| discriminate].
  destruct (normalizeTimestamp Date_parse (timestamp_of raw)) as [ts |];
    [| discriminate].
  destruct (ts =? 0); [discriminate |].
  intros [= <-].
  destruct (number_aliases raw) as (Hasn & Hstatus & Hbytes & Hthreat).
  repeat apply conj.
  - unfold text_fields.
    repeat (apply Forall_cons; [| try apply Forall_nil]);
      cbn [fst snd Parser.src_ip Parser.src_country Parser.colo Parser.host
           Parser.path Parser.method Parser.rule_name Parser.mitigation_reason
           Parser.ua Parser.ja3];
      intros H;
      repeat (rewrite (extractString_no_text raw _ _ H) by (simpl; tauto));
      repeat (rewrite (safeString_no_text raw _ _ H) by (simpl; tauto));
      reflexivity.
  - unfold number_fields.
    repeat (apply Forall_cons; [| try apply Forall_nil]);
      cbn [fst snd Parser.src_asn Parser.status Parser.bytes Parser.threat_score];
      intros H; eapply normalizeNumber_no_number; eassumption.
  - unfold head_fields.
    repeat (apply Forall_cons; [| try apply Forall_nil]);
      cbn [fst snd Parser.rule_id Parser.service].
    + apply ruleId_of_no_head.
    + apply service_of_no_head.
  - cbn [Parser.action]. intros H.
    apply normalizeAction_no_text, actionValue_of_no_head, H.
  - cbn [Parser.rule_id Parser.rule_type]. apply determineRuleType_no_rule.
Qed.

(** C6 (as amended): a record without a usable correlation id, or without
    a parseable timestamp, is answered by [null]; [parseWAFRecord] never
    throws; no other field can reject a record: whether a record is
    rejected depends on its correlation-id and timestamp aliases only, and
    a record with a correlation id and a non-zero timestamp is accepted
    with them.  In an accepted record, an optional text or number whose
    aliases carry nothing usable (they are missing, of another type,
    empty, 0 or unreadable) is absent in the event.  The action and the
    rule type are never absent: the action is [unknown] when its aliases
    carry nothing usable, the rule type is [unknown] when the event has
    no rule id, and both are stored as the text unknown. *)
Theorem parseWAFRecord_mandatory_fields (Date_parse : string -> option Z) :
  (forall raw, exists r, parseWAFRecord_exn Date_parse raw = Ok r)
  /\ (forall raw,
        no_correlation_id raw \/ no_parseable_timestamp Date_parse raw ->
        parseWAFRecord Date_parse raw = None)
  /\ (forall raw raw',
        same_mandatory_fields raw raw' ->
        (parseWAFRecord Date_parse raw = None <->
         parseWAFRecord Date_parse raw' = None))
  /\ (forall raw rayId ts,
        rayId_of raw = Some rayId ->
        normalizeTimestamp Date_parse (timestamp_of raw) = Some ts ->
        ts <> 0 ->
        exists e, parseWAFRecord Date_parse raw = Some e
                  /\ ray_id e = rayId /\ event_ts e = ts)
  /\ (forall raw e,
        parseWAFRecord Date_parse raw = Some e ->
        Forall (fun field => no_text raw (snd field) -> fst field e = None)
          text_fields
        /\ Forall (fun field => no_number raw (snd field) -> fst field e = None)
             number_fields
        /\ Forall (fun field => no_head_text raw (snd field) -> fst field e = None)
             head_fields
        /\ (no_head_text raw action_aliases -> action e = unknown_action)
        /\ (rule_id e = None -> rule_type e = unknown_rule)
        /\ (forall now fileId,
              (action e = unknown_action ->
               v_action (bind_event now e fileId) = "unknown"%string)
              /\ (rule_type e = unknown_rule ->
                  v_rule_type (bind_event now e fileId) = Some "unknown"%string))).
Proof.
  repeat apply conj.
  - intros raw. unfold parseWAFRecord_exn.
    destruct (parseWAFRecord_try Date_parse raw) eqn:E; eauto.
    exfalso. revert E. unfold parseWAFRecord_try.
    destruct (is_nullish raw); [discriminate |].
    destruct (rayId_of raw); [| discriminate].
    destruct (normalizeTimestamp Date_parse (timestamp_of raw)); [| discriminate].
    destruct (z =? 0); discriminate.
  - intros raw [H | H]; apply parseWAFRecord_verdict.
    + left. apply rayId_of_None, H.
    + right; left.
      destruct (timestamp_of_alias raw) as (k & Hk & ->). apply H, Hk.
  - intros raw raw' H. rewrite !parseWAFRecord_verdict.
    rewrite (rayId_of_same _ _ H), (timestamp_of_same _ _ H). tauto.
  - intros raw rayId ts. apply parseWAFRecord_accepts.
  - intros raw e He.
    destruct (parseWAFRecord_optional_fields _ _ _ He)
      as (Htext & Hnum & Hhead & Haction & Hrule).
    repeat apply conj; try assumption.
    intros now fileId. unfold bind_event. cbn [v_action v_rule_type].
    split; intros ->; reflexivity.
Qed.

Lemma parseWAFRecord_mandatory_fields_witness :
  parseWAFRecord Fixtures.Date_parse (JObj [("RayID", JStr EmptyString)]) = None
  /\ (exists e, parseWAFRecord Fixtures.Date_parse Fixtures.login_value = Some e
                /\ ray_id e = "ray-1" /\ event_ts e = 1700000000000)
  /\ src_ip Fixtures.malformed_event = None
  /\ src_asn Fixtures.malformed_event = None
  /\ rule_id Fixtures.malformed_event = None
  /\ action Fixtures.malformed_event = unknown_action.
Proof.
  destruct (parseWAFRecord_mandatory_fields Fixtures.Date_parse)
    as (_ & Hreject & _ & Haccept & Hfields).
  destruct (Hfields Fixtures.malformed_value Fixtures.malformed_event eq_refl)
    as (Htext & Hnum & Hhead & Haction & _).
  repeat apply conj.
  - apply Hreject. right. intros k Hk.
    simpl in Hk.
    repeat (destruct Hk as [<- | Hk]; [reflexivity |]). destruct Hk.
  - apply Haccept; [reflexivity | reflexivity | lia].
  - apply (Forall_inv Htext).
    intros k s Hk. simpl in Hk.
    repeat (destruct Hk as [<- | Hk]; [discriminate |]). destruct Hk.
  - apply (Forall_inv Hnum).
    intros k Hk. simpl in Hk.
    repeat (destruct Hk as [<- | Hk]; [vm_compute; auto |]). destruct Hk.
  - apply (Forall_inv Hhead). split.
    + intros k s rest Hk. simpl in Hk.
      repeat (destruct Hk as [<- | Hk]; [discriminate |]). destruct Hk.
    + intros k s Hk. simpl in Hk.
      repeat (destruct Hk as [<- | Hk]; [vm_compute; intros [= <-]; reflexivity |]).
      destruct Hk.
  - apply Haction. split.
    + intros k s rest Hk. simpl in Hk.
      repeat (destruct Hk as [<- | Hk]; [discriminate |]). destruct Hk.
    + intros k s Hk. simpl in Hk.
      repeat (destruct Hk as [<- | Hk]; [discriminate |]). destruct Hk.
Defined.

(** C6, as stated, fails for two fields: in a record that carries nothing
    but a correlation id and a timestamp, every other field is missing;
    the record is accepted, and its action and its rule type are not
    absent: they are [unknown], and the row that is bound for the event
    carries the text unknown in both columns. *)
Lemma parseWAFRecord_unknown_is_not_absent :
  parseWAFRecord Fixtures.Date_parse Fixtures.bare_value = Some Fixtures.bare_event
  /\ no_head_text Fixtures.bare_value action_aliases
  /\ action_text (action Fixtures.bare_event) = "unknown"%string
  /\ rule_type_text (rule_type Fixtures.bare_event) = "unknown"%string
  /\ v_action (bind_event Fixtures.now Fixtures.bare_event 1) = "unknown"%string
  /\ v_rule_type (bind_event Fixtures.now Fixtures.bare_event 1)
     = Some "unknown"%string
  /\ v_rule_type (bind_event Fixtures.now Fixtures.bare_event 1) <> None.
Proof.
  repeat apply conj; try reflexivity; try discriminate.
  - intros k s rest Hk. simpl in Hk.
    repeat (destruct Hk as [<- | Hk]; [discriminate |]). destruct Hk.
  - intros k s Hk. simpl in Hk.
    repeat (destruct Hk as [<- | Hk]; [discriminate |]). destruct Hk.
Qed.

(** ** Timestamps *)

Lemma normalizeTimestamp_number (Date_parse : string -> option Z) (v : Z) :
  normalizeTimestamp Date_parse (JNum v) =
  if v =? 0 then None
  else if v <? SECONDS_THRESHOLD then Some (v * 1000) else Some v.
Proof.
  unfold normalizeTimestamp. simpl.
  destruct (v =? 0); simpl; [reflexivity |].
  destruct (v <? SECONDS_THRESHOLD); reflexivity.
Qed.

Lemma parse_digits_Some (radix : Z) (s : string) (a : Z) :
  exists n, parse_digits radix s (Some a) = Some n.
Proof.
  revert a. induction s as [| c s IH]; intros a; simpl; [eauto |].
  destruct (digit_value c) as [d |]; [| eauto].
  destruct (d <? radix); eauto.
Qed.

(** A text that [parseInt] reads is not empty. *)
Lemma parseInt_nonempty (s : string) (radix n : Z) :
  parseInt s radix = Some n -> s <> EmptyString.
Proof.
  intros H ->. revert H. unfold parseInt. simpl.
  destruct (negb (radix =? 0) && ((radix <? 2) || (36 <? radix)));
    [discriminate |].
  destruct ((radix =? 0) || (radix =? 16)); simpl; discriminate.
Qed.

Lemma normalizeTimestamp_string (Date_parse : string -> option Z) (s : string) :
  s <> EmptyString ->
  normalizeTimestamp Date_parse (JStr s) =
  match Date_parse s with
  | Some parsed => Some parsed
  | None =>
      match parseInt s 0 with
      | Some num => Some (if num <? SECONDS_THRESHOLD then num * 1000 else num)
      | None => None
      end
  end.
Proof.
  intros Hs. unfold normalizeTimestamp. simpl.
  destruct (String.eqb_spec s EmptyString); [contradiction | reflexivity].
Qed.

(** C7 (as amended): a 9-digit epoch in seconds and its value in
    milliseconds normalize to the same timestamp, so two records that
    differ only in that carry the same [event_ts]; a number other than 0
    below the threshold is multiplied by 1000 and a number from the
    threshold on is kept, while the number 0 gives no timestamp; a text
    that [Date.parse] reads gives the milliseconds it reads; a text that
    [Date.parse] does not read and [parseInt] does follows the heuristic
    of the numbers. *)
Theorem normalizeTimestamp_seconds_millis (Date_parse : string -> option Z) :
  (forall s, 100000000 <= s <= 999999999 ->
     normalizeTimestamp Date_parse (JNum s)
     = normalizeTimestamp Date_parse (JNum (s * 1000))
     /\ forall raw raw' id id',
          timestamp_of raw = JNum s -> timestamp_of raw' = JNum (s * 1000) ->
          rayId_of raw = Some id -> rayId_of raw' = Some id' ->
          exists e e', parseWAFRecord Date_parse raw = Some e
                       /\ parseWAFRecord Date_parse raw' = Some e'
                       /\ event_ts e = event_ts e')
  /\ (forall v, v <> 0 -> v < SECONDS_THRESHOLD ->
        normalizeTimestamp Date_parse (JNum v) = Some (v * 1000))
  /\ (forall v, SECONDS_THRESHOLD <= v ->
        normalizeTimestamp Date_parse (JNum v) = Some v)
  /\ normalizeTimestamp Date_parse (JNum 0) = None
  /\ (forall s ms, s <> EmptyString -> Date_parse s = Some ms ->
        normalizeTimestamp Date_parse (JStr s) = Some ms)
  /\ (forall s num, Date_parse s = None -> parseInt s 0 = Some num ->
        normalizeTimestamp Date_parse (JStr s)
        = Some (if num <? SECONDS_THRESHOLD then num * 1000 else num)).
Proof.
  unfold SECONDS_THRESHOLD.
  repeat apply conj.
  - intros s Hs.
    assert (E1 : normalizeTimestamp Date_parse (JNum s) = Some (s * 1000)).
    { rewrite normalizeTimestamp_number. unfold SECONDS_THRESHOLD.
      destruct (Z.eqb_spec s 0); [lia |].
      destruct (Z.ltb_spec s 10000000000); [reflexivity | lia]. }
    assert (E2 : normalizeTimestamp Date_parse (JNum (s * 1000)) = Some (s * 1000)).
    { rewrite normalizeTimestamp_number. unfold SECONDS_THRESHOLD.
      destruct (Z.eqb_spec (s * 1000) 0); [lia |].
      destruct (Z.ltb_spec (s * 1000) 10000000000); [lia | reflexivity]. }
    split; [congruence |].
    intros raw raw' id id' Ht Ht' Hid Hid'.
    destruct (parseWAFRecord_accepts Date_parse raw id (s * 1000))
      as (e & He & _ & Hts); [assumption | rewrite Ht; exact E1 | lia |].
    destruct (parseWAFRecord_accepts Date_parse raw' id' (s * 1000))
      as (e' & He' & _ & Hts'); [assumption | rewrite Ht'; exact E2 | lia |].
    exists e, e'. repeat split; congruence.
  - intros v Hv Hlt. rewrite normalizeTimestamp_number. unfold SECONDS_THRESHOLD.
    destruct (Z.eqb_spec v 0); [contradiction |].
    destruct (Z.ltb_spec v 10000000000); [reflexivity | lia].
  - intros v Hge. rewrite normalizeTimestamp_number. unfold SECONDS_THRESHOLD.
    destruct (Z.eqb_spec v 0); [lia |].
    destruct (Z.ltb_spec v 10000000000); [lia | reflexivity].
  - reflexivity.
  - intros s ms Hs Hd. rewrite normalizeTimestamp_string by assumption.
    rewrite Hd. reflexivity.
  - intros s num Hd Hp.
    rewrite normalizeTimestamp_string by (eapply parseInt_nonempty; eassumption).
    rewrite Hd, Hp. reflexivity.
Qed.

Lemma normalizeTimestamp_seconds_millis_witness :
  normalizeTimestamp Fixtures.Date_parse (JNum 170000000)
  = normalizeTimestamp Fixtures.Date_parse (JNum 170000000000)
  /\ normalizeTimestamp Fixtures.Date_parse (JNum 5) = Some 5000
  /\ normalizeTimestamp Fixtures.Date_parse (JStr "2020") = Some 1577836800000
  /\ normalizeTimestamp Fixtures.Date_parse (JStr " 1700000000 ") = Some 1700000000000.
Proof.
  destruct (normalizeTimestamp_seconds_millis Fixtures.Date_parse)
    as (Hnine & Hbelow & _ & _ & Hdate & Hdigits).
  repeat apply conj.
  - apply (Hnine 170000000). lia.
  - apply (Hbelow 5); [lia | reflexivity].
  - apply Hdate; [discriminate | reflexivity].
  - apply (Hdigits " 1700000000 " 1700000000); reflexivity.
Defined.

(** C7, as stated, fails: the number 0 lies below the threshold and is not
    multiplied by 1000 (it gives no timestamp); and the numeric text
    [2020], which [Date.parse] reads as a year, does not follow the
    heuristic that the number 2020 follows. *)
Lemma normalizeTimestamp_not_always_scaled :
  (0 < SECONDS_THRESHOLD
   /\ normalizeTimestamp Fixtures.Date_parse (JNum 0) <> Some (0 * 1000))
  /\ (parseInt "2020" 0 = Some 2020
      /\ normalizeTimestamp Fixtures.Date_parse (JNum 2020) = Some (2020 * 1000)
      /\ normalizeTimestamp Fixtures.Date_parse (JStr "2020") <> Some (2020 * 1000)).
Proof.
  repeat apply conj; try reflexivity; vm_compute; discriminate.
Qed.

(** ** Zero-valued numeric fields *)

Lemma num_or_undefined_zero (n : option Z) :
  n = Some 0 -> num_or_undefined n = None.
Proof. intros ->. reflexivity. Qed.

Lemma num_or_undefined_not_zero (n : option Z) :
  num_or_undefined n <> Some 0.
Proof.
  destruct n as [z |]; simpl; [| discriminate].
  destruct (Z.eqb_spec z 0); [discriminate |].
  intros [= ->]. contradiction.
Qed.

(** The numeric fields of an accepted record are the normalized aliases,
    with 0 turned into [undefined]. *)
Lemma parseWAFRecord_numeric_fields (Date_parse : string -> option Z)
    (raw : JsVal) (e : WAFEvent) :
  parseWAFRecord Date_parse raw = Some e ->
  src_asn e = num_or_undefined (normalizeNumber (asn_of raw))
  /\ status e = num_or_undefined (normalizeNumber (status_of raw))
  /\ bytes e = num_or_undefined (normalizeNumber (bytes_of raw))
  /\ threat_score e = num_or_undefined (normalizeNumber (threat_of raw)).
Proof.
  unfold parseWAFRecord, parseWAFRecord_exn, parseWAFRecord_try.
  destruct (is_nullish raw); [discriminate |].
  destruct (rayId_of raw); [| discriminate].
  destruct (normalizeTimestamp Date_parse (timestamp_of raw)); [| discriminate].
  destruct (z =? 0); [discriminate |].
  intros [= <-]. simpl. repeat split.
Qed.

(** C10: when the source ASN, the response status, the request bytes or
    the threat score of a record normalizes to 0, the event that
    [parseWAFRecord] returns has that field absent, and [insertEventBatch]
    binds NULL for its column; no event of the normalizer and no bound row
    carries a 0 in these four columns. *)
Theorem zero_numeric_fields_are_dropped (Date_parse : string -> option Z)
    (now fileId : Z) (raw : JsVal) (e : WAFEvent) :
  parseWAFRecord Date_parse raw = Some e ->
  (normalizeNumber (asn_of raw) = Some 0 ->
     src_asn e = None /\ v_src_asn (bind_event now e fileId) = None)
  /\ (normalizeNumber (status_of raw) = Some 0 ->
        status e = None /\ v_status (bind_event now e fileId) = None)
  /\ (normalizeNumber (bytes_of raw) = Some 0 ->
        bytes e = None /\ v_bytes (bind_event now e fileId) = None)
  /\ (normalizeNumber (threat_of raw) = Some 0 ->
        threat_score e = None /\ v_threat_score (bind_event now e fileId) = None)
  /\ (src_asn e <> Some 0 /\ status e <> Some 0
      /\ bytes e <> Some 0 /\ threat_score e <> Some 0)
  /\ (forall e' : WAFEvent,
        v_src_asn (bind_event now e' fileId) <> Some 0
        /\ v_status (bind_event now e' fileId) <> Some 0
        /\ v_bytes (bind_event now e' fileId) <> Some 0
        /\ v_threat_score (bind_event now e' fileId) <> Some 0).
Proof.
  intros He.
  destruct (parseWAFRecord_numeric_fields _ _ _ He) as (Ha & Hs & Hb & Ht).
  unfold bind_event, num_or_null; simpl.
  rewrite Ha, Hs, Hb, Ht.
  repeat apply conj;
    try (intros ->; split; reflexivity);
    try apply num_or_undefined_not_zero.
  intros e'. repeat apply conj; apply num_or_undefined_not_zero.
Qed.

Lemma zero_numeric_fields_are_dropped_witness :
  exists e,
    parseWAFRecord Fixtures.Date_parse Fixtures.zero_value = Some e
    /\ normalizeNumber (asn_of Fixtures.zero_value) = Some 0
    /\ normalizeNumber (threat_of Fixtures.zero_value) = Some 0
    /\ src_asn e = None /\ threat_score e = None
    /\ v_src_asn (bind_event Fixtures.now e 1) = None
    /\ v_threat_score (bind_event Fixtures.now e 1) = None.
Proof.
  destruct (parseWAFRecord Fixtures.Date_parse Fixtures.zero_value) as [e |] eqn:He;
    [| discriminate].
  exists e.
  destruct (zero_numeric_fields_are_dropped Fixtures.Date_parse Fixtures.now 1
              Fixtures.zero_value e He) as (Hasn & _ & _ & Hthreat & _).
  destruct (Hasn eq_refl) as [H1 H2].
  destruct (Hthreat eq_refl) as [H3 H4].
  repeat apply conj; try reflexivity; assumption.
Defined.

(* ================================================================== *)
(** * The content parser *)
(* ================================================================== *)


Lemma parseWAFRecord_exn_Ok (Date_parse : string -> option Z) (raw : JsVal) :
  parseWAFRecord_exn Date_parse raw = Ok (parseWAFRecord Date_parse raw).
Proof.
  unfold parseWAFRecord, parseWAFRecord_exn, parseWAFRecord_try.
  destruct (is_nullish raw); [reflexivity |].
  destruct (rayId_of raw); [| reflexivity].
  destruct (normalizeTimestamp Date_parse (timestamp_of raw)); [| reflexivity].
  destruct (z =? 0); reflexivity.
Qed.

Section ContentParser.

Variable JSON_parse : string -> Parsed.
Variable Date_parse : string -> option Z.

Lemma parse_records_spec (data : list JsVal)
    (events : list WAFEvent) (errors : list string) :
  parse_records Date_parse data events errors
  = Ok (events ++ flat_map (record_events Date_parse) data, errors).
Proof.
  revert events. induction data as [| record rest IH]; intros events; simpl.
  - rewrite app_nil_r. reflexivity.
  - rewrite parseWAFRecord_exn_Ok. unfold record_events at 1.
    destruct (parseWAFRecord Date_parse record) as [event |].
    + rewrite IH. unfold push. rewrite <- app_assoc. reflexivity.
    + rewrite IH. reflexivity.
Qed.

Lemma parse_lines_spec (lines : list string)
    (events : list WAFEvent) (errors : list string) :
  parse_lines JSON_parse Date_parse lines events errors
  = Ok (events ++ flat_map (line_events JSON_parse Date_parse) lines,
        errors ++ flat_map (line_errors JSON_parse) lines).
Proof.
  revert events errors.
  induction lines as [| line rest IH]; intros events errors; simpl.
  - rewrite !app_nil_r. reflexivity.
  - unfold line_events at 1, line_errors at 1.
    destruct (JSON_parse line) as [record | e].
    + rewrite parseWAFRecord_exn_Ok. unfold record_events.
      destruct (parseWAFRecord Date_parse record) as [event |];
        rewrite IH; unfold push; rewrite <- ?app_assoc; reflexivity.
    + rewrite IH. unfold push. rewrite <- app_assoc. reflexivity.
Qed.

(** Line mode is compositional: the lines are parsed independently. *)
Lemma parse_lines_app (l1 l2 : list string) :
  parse_lines JSON_parse Date_parse (l1 ++ l2) [] []
  = Ok (flat_map (line_events JSON_parse Date_parse) l1
          ++ flat_map (line_events JSON_parse Date_parse) l2,
        flat_map (line_errors JSON_parse) l1
          ++ flat_map (line_errors JSON_parse) l2).
Proof. rewrite parse_lines_spec, !flat_map_app. reflexivity. Qed.

End ContentParser.

(** [split('\n')] cuts at every line feed and nowhere else. *)
Lemma split_lines_aux_nonempty (cur s : string) : split_lines_aux cur s <> [].
Proof.
  revert cur. induction s as [| c s IH]; intros cur; simpl; [discriminate |].
  destruct (Ascii.eqb c LF); [discriminate | apply IH].
Qed.

Lemma string_app_assoc (a b c : string) :
  ((a ++ b) ++ c = a ++ (b ++ c))%string.
Proof. induction a as [| x a IH]; simpl; [reflexivity | now rewrite IH]. Qed.

Lemma string_app_empty_r (a : string) : (a ++ EmptyString)%string = a.
Proof. induction a as [| x a IH]; simpl; [reflexivity | now rewrite IH]. Qed.

Lemma split_lines_aux_join (cur s : string) :
  String.concat newline (split_lines_aux cur s) = (cur ++ s)%string.
Proof.
  revert cur. induction s as [| c s IH]; intros cur; simpl.
  - rewrite string_app_empty_r. reflexivity.
  - destruct (Ascii.eqb_spec c LF) as [-> | Hc].
    + specialize (IH EmptyString).
      pose proof (split_lines_aux_nonempty EmptyString s) as Hne.
      destruct (split_lines_aux EmptyString s) as [| l ls]; [contradiction |].
      change (String.concat newline (cur :: l :: ls))
        with (cur ++ newline ++ String.concat newline (l :: ls))%string.
      rewrite IH. reflexivity.
    + rewrite IH, string_app_assoc. reflexivity.
Qed.

Lemma split_lines_join (content : string) :
  String.concat newline (split_lines content) = content.
Proof. apply split_lines_aux_join. Qed.

Lemma list_ascii_of_string_app (a b : string) :
  list_ascii_of_string (a ++ b) = list_ascii_of_string a ++ list_ascii_of_string b.
Proof. induction a as [| c a IH]; simpl; [reflexivity | now rewrite IH]. Qed.

(** No line of [split('\n')] holds a line feed. *)
Lemma split_lines_aux_no_LF (cur s line : string) :
  ~ In LF (list_ascii_of_string cur) ->
  In line (split_lines_aux cur s) ->
  ~ In LF (list_ascii_of_string line).
Proof.
  revert cur. induction s as [| c s IH]; intros cur Hcur; simpl.
  - intros [<- | []]. exact Hcur.
  - destruct (Ascii.eqb_spec c LF) as [-> | Hc].
    + intros [<- | Hin]; [exact Hcur |].
      apply (IH EmptyString); [intros [] | exact Hin].
    + apply IH. rewrite list_ascii_of_string_app. simpl.
      intros Hin. apply in_app_or in Hin.
      destruct Hin as [Hin | [E | []]]; [exact (Hcur Hin) | exact (Hc E)].
Qed.

Lemma is_space_white_space (c : ascii) :
  is_space c = existsb (Nat.eqb (nat_of_ascii c)) white_space.
Proof. destruct c as [[] [] [] [] [] [] [] []]; reflexivity. Qed.

(** [line.trim()] is the empty text exactly when the line is blank. *)
Lemma trim_truthy_is_blank (line : string) :
  trim_truthy line = negb (is_blank line).
Proof.
  unfold is_blank. induction line as [| c line IH]; [reflexivity |].
  cbn [trim_truthy list_ascii_of_string forallb].
  rewrite is_space_white_space.
  destruct (existsb (Nat.eqb (nat_of_ascii c)) white_space); [exact IH | reflexivity].
Qed.

Lemma is_blank_blank (line : string) : is_blank line = true <-> blank line.
Proof.
  unfold is_blank, blank. rewrite forallb_forall.
  split; intros H c Hc; specialize (H c Hc).
  - apply existsb_exists in H. destruct H as (n & Hn & E).
    apply Nat.eqb_eq in E. rewrite E. exact Hn.
  - apply existsb_exists. exists (nat_of_ascii c).
    split; [exact H | apply Nat.eqb_refl].
Qed.

(** C8: [parseContent] never throws; when the whole-content parse does not
    give an array, the result is that of the line mode: the content is cut
    at the line feeds (the lines hold no line feed, and joined by line
    feeds they give the content back), the blank lines, those that hold
    nothing but white space, are discarded and the others are kept in
    their order, and every remaining line contributes on its own either
    one event, or nothing when the normalizer rejects its record, or
    exactly one error when it is not JSON; no line changes what another
    line contributes. *)
Theorem parseContent_line_mode (JSON_parse : string -> Parsed)
    (Date_parse : string -> option Z) :
  (forall content, exists events errors,
      parseContent JSON_parse Date_parse content = Ok (events, errors))
  /\ (forall content,
        (forall data, JSON_parse content <> Value (JArr data)) ->
        parseContent JSON_parse Date_parse content
        = Ok (flat_map (line_events JSON_parse Date_parse) (non_blank_lines content),
              flat_map (line_errors JSON_parse) (non_blank_lines content)))
  /\ (forall content,
        String.concat newline (split_lines content) = content
        /\ (forall line, In line (split_lines content) ->
                         ~ In LF (list_ascii_of_string line))
        /\ non_blank_lines content
           = filter (fun line => negb (is_blank line)) (split_lines content)
        /\ (forall line, In line (non_blank_lines content) <->
                         In line (split_lines content) /\ ~ blank line))
  /\ (forall line,
        match JSON_parse line with
        | SyntaxError e =>
            line_events JSON_parse Date_parse line = []
            /\ List.length (line_errors JSON_parse line) = 1%nat
        | Value record =>
            line_errors JSON_parse line = []
            /\ (parseWAFRecord Date_parse record = None ->
                line_events JSON_parse Date_parse line = [])
            /\ (forall event, parseWAFRecord Date_parse record = Some event ->
                line_events JSON_parse Date_parse line = [event])
        end).
Proof.
  assert (Hfilter : forall content,
             non_blank_lines content
             = filter (fun line => negb (is_blank line)) (split_lines content)).
  { intros content. unfold non_blank_lines. apply filter_ext.
    exact trim_truthy_is_blank. }
  repeat apply conj.
  - intros content. unfold parseContent.
    destruct (JSON_parse content) as [[] |];
      rewrite ?parse_lines_spec, ?parse_records_spec; eauto.
  - intros content Hna. unfold parseContent.
    destruct (JSON_parse content) as [[] |] eqn:E;
      try (rewrite parse_lines_spec; reflexivity).
    exfalso. exact (Hna _ eq_refl).
  - intros content. repeat apply conj.
    + apply split_lines_join.
    + intros line. apply split_lines_aux_no_LF. intros [].
    + apply Hfilter.
    + intros line. rewrite Hfilter, filter_In, negb_true_iff.
      rewrite <- is_blank_blank.
      destruct (is_blank line); split; intros [Hin H]; split;
        congruence || auto.
  - intros line. unfold line_events, line_errors, record_events.
    destruct (JSON_parse line) as [record | e]; [| split; reflexivity].
    repeat split.
    + intros ->. reflexivity.
    + intros event ->. reflexivity.
Qed.

Lemma parseContent_line_mode_witness :
  let content :=
    (Fixtures.login_text ++ Fixtures.nl ++ Fixtures.blank_line ++ Fixtures.nl
       ++ "not json" ++ Fixtures.nl ++ Fixtures.nl ++ Fixtures.retry_text)%string in
  Fixtures.parseContent content
  = Ok ([Fixtures.login_event; Fixtures.retry_event],
        ["Failed to parse line: SyntaxError: Unexpected token"%string])
  /\ split_lines content
     = [Fixtures.login_text; Fixtures.blank_line; "not json"%string;
        EmptyString; Fixtures.retry_text]
  /\ non_blank_lines content
     = [Fixtures.login_text; "not json"%string; Fixtures.retry_text].
Proof.
  destruct (parseContent_line_mode Fixtures.JSON_parse Fixtures.Date_parse)
    as (_ & Hlines & Hsplit & _).
  cbv zeta. repeat apply conj.
  - unfold Fixtures.parseContent. rewrite Hlines.
    + vm_compute. reflexivity.
    + intros data. vm_compute. discriminate.
  - vm_compute. reflexivity.
  - rewrite (proj1 (proj2 (proj2 (Hsplit _)))). vm_compute. reflexivity.
Defined.

(** ** The parse of the reindex handler against [parseContent] *)

(** The two parsers agree when the content is an array or is not JSON; on
    JSON that is not an array, the handler's parse gives nothing and
    [parseContent] reads the lines. *)
Lemma reparse_cases (JSON_parse : string -> Parsed)
    (Date_parse : string -> option Z) (content : string) :
  match JSON_parse content with
  | Value (JArr _) | SyntaxError _ =>
      reparse JSON_parse Date_parse content
      = parseContent JSON_parse Date_parse content
  | Value _ =>
      reparse JSON_parse Date_parse content = Ok ([], [])
      /\ parseContent JSON_parse Date_parse content
         = Ok (flat_map (line_events JSON_parse Date_parse) (non_blank_lines content),
               flat_map (line_errors JSON_parse) (non_blank_lines content))
  end.
Proof.
  unfold reparse, parseContent.
  destruct (JSON_parse content) as [[] |];
    try reflexivity; (split; [reflexivity | apply parse_lines_spec]).
Qed.

(** C9: on a file that holds one record on one line (JSON, but not an
    array), [parseContent] gives the event of that record and the parse of
    the reindex handler gives no event. *)
Theorem reparse_drops_single_object :
  Fixtures.JSON_parse Fixtures.login_text = Value Fixtures.login_value
  /\ (exists event,
        parseWAFRecord Fixtures.Date_parse Fixtures.login_value = Some event
        /\ parseContent Fixtures.JSON_parse Fixtures.Date_parse Fixtures.login_text
           = Ok ([event], []))
  /\ reparse Fixtures.JSON_parse Fixtures.Date_parse Fixtures.login_text
     = Ok ([], []).
Proof.
  split; [reflexivity |]. split.
  - eexists. split; vm_compute; reflexivity.
  - vm_compute. reflexivity.
Qed.

(* ================================================================== *)
(** * The batched upsert engine: UNIQUE(ray_id, event_ts) *)
(* ================================================================== *)

Lemma insert_or_ignore_step (v : EventValues) (w : World) :
  has_upload (v_file_id v) (uploads w) = true ->
  insert_or_ignore v w = (Ok (fst (insert_step v w)), snd (insert_step v w)).
Proof.
  intros Hup. unfold insert_or_ignore, insert_step, bind, get, ret, modify.
  destruct (has_key v (waf_events w)); [reflexivity |].
  rewrite Hup. reflexivity.
Qed.

Lemma insert_step_uploads (v : EventValues) (w : World) :
  uploads (snd (insert_step v w)) = uploads w.
Proof. unfold insert_step. destruct (has_key v (waf_events w)); reflexivity. Qed.

Lemma run_batch_uploads (stmts : list EventValues) (w : World) :
  uploads (snd (run_batch stmts w)) = uploads w.
Proof.
  revert w. induction stmts as [| v rest IH]; intros w; simpl; [reflexivity |].
  specialize (IH (snd (insert_step v w))).
  destruct (run_batch rest (snd (insert_step v w))). simpl in *.
  rewrite IH. apply insert_step_uploads.
Qed.

Lemma run_statements_run (stmts : list EventValues) (w : World) :
  Forall (fun v => has_upload (v_file_id v) (uploads w) = true) stmts ->
  run_statements stmts w
  = (Ok (fst (run_batch stmts w)), snd (run_batch stmts w)).
Proof.
  revert w. induction stmts as [| v rest IH]; intros w Hall; simpl;
    [reflexivity |].
  inversion Hall as [| ? ? Hv Hrest]; subst.
  unfold bind at 1. rewrite insert_or_ignore_step by exact Hv.
  unfold bind at 1. rewrite IH.
  - destruct (run_batch rest (snd (insert_step v w))). reflexivity.
  - rewrite insert_step_uploads. exact Hrest.
Qed.

(** [DB.batch] of INSERT OR IGNORE statements for files that have their
    upload rows fails only when it has no statement. *)
Lemma db_batch_run (stmts : list EventValues) (w : World) :
  stmts <> [] ->
  Forall (fun v => has_upload (v_file_id v) (uploads w) = true) stmts ->
  db_batch stmts w = (Ok (fst (run_batch stmts w)), snd (run_batch stmts w)).
Proof.
  intros Hne Hall. destruct stmts as [| v rest]; [contradiction |].
  unfold db_batch. rewrite run_statements_run by exact Hall. reflexivity.
Qed.

(** Whatever a batch answers, the store after it is the store before it
    or the store after its statements. *)
Lemma db_batch_world (stmts : list EventValues) (w : World) :
  snd (db_batch stmts w) = w
  \/ (exists results,
        db_batch stmts w = (Ok results, snd (run_statements stmts w))
        /\ run_statements stmts w = (Ok results, snd (run_statements stmts w)))
  \/ db_batch stmts w = (Diverge, snd (run_statements stmts w)).
Proof.
  destruct stmts as [| v rest]; [left; reflexivity |].
  unfold db_batch.
  destruct (run_statements (v :: rest) w) as [[results | e |] w'].
  - right. left. exists results. split; reflexivity.
  - left. reflexivity.
  - right. right. reflexivity.
Qed.

Lemma run_batch_app (l1 l2 : list EventValues) (w : World) :
  run_batch (l1 ++ l2) w
  = (fst (run_batch l1 w) ++ fst (run_batch l2 (snd (run_batch l1 w))),
     snd (run_batch l2 (snd (run_batch l1 w)))).
Proof.
  revert w. induction l1 as [| v l1 IH]; intros w; simpl.
  - destruct (run_batch l2 w); reflexivity.
  - rewrite IH.
    destruct (run_batch l1 (snd (insert_step v w))) as [cs w']. reflexivity.
Qed.

(** *** The key relation *)

Lemma same_key_sym (a b : EventValues) : same_key a b = same_key b a.
Proof.
  unfold same_key. now rewrite String.eqb_sym, Z.eqb_sym.
Qed.

Lemma same_key_true (a b : EventValues) :
  same_key a b = true <-> v_ray_id a = v_ray_id b /\ v_event_ts a = v_event_ts b.
Proof.
  unfold same_key. rewrite andb_true_iff, String.eqb_eq, Z.eqb_eq. tauto.
Qed.

Lemma same_key_congr (a b c : EventValues) :
  same_key a b = true -> same_key c a = same_key c b.
Proof.
  rewrite same_key_true. intros [Hr Ht]. unfold same_key. now rewrite Hr, Ht.
Qed.

Lemma key_count_congr (a b : EventValues) (t : list EventRow) :
  same_key a b = true -> key_count a t = key_count b t.
Proof.
  intros H. unfold key_count. f_equal. apply filter_ext.
  intros e. apply same_key_congr, H.
Qed.

Lemma has_key_count (v : EventValues) (t : list EventRow) :
  has_key v t = true <-> (1 <= key_count v t)%nat.
Proof.
  unfold has_key, key_count. induction t as [| e t IH]; simpl.
  - split; [discriminate | lia].
  - destruct (same_key (e_vals e) v); simpl; [split; [lia | reflexivity] | exact IH].
Qed.

Lemma has_key_congr (a b : EventValues) (t : list EventRow) :
  same_key a b = true -> has_key a t = has_key b t.
Proof.
  intros H. apply eq_true_iff_eq.
  rewrite !has_key_count, (key_count_congr a b t H). tauto.
Qed.

Lemma key_count_app (v : EventValues) (t1 t2 : list EventRow) :
  key_count v (t1 ++ t2) = (key_count v t1 + key_count v t2)%nat.
Proof. unfold key_count. now rewrite filter_app, length_app. Qed.

(** *** One statement, then a batch *)

Lemma insert_step_unique (v : EventValues) (w : World) :
  unique_keys (waf_events w) ->
  unique_keys (waf_events (snd (insert_step v w))).
Proof.
  intros Hu. unfold insert_step.
  destruct (has_key v (waf_events w)) eqn:Hk; simpl; [exact Hu |].
  intros v'. rewrite key_count_app. unfold key_count at 2. simpl.
  destruct (same_key v v') eqn:Hs; simpl.
  - assert (key_count v' (waf_events w) = 0%nat).
    { rewrite <- (key_count_congr v v' _ Hs).
      destruct (key_count v (waf_events w)) eqn:E; [reflexivity |].
      assert (has_key v (waf_events w) = true) by (apply has_key_count; lia).
      congruence. }
    lia.
  - specialize (Hu v'). lia.
Qed.

Lemma insert_step_present (v : EventValues) (w : World) :
  has_key v (waf_events (snd (insert_step v w))) = true.
Proof.
  unfold insert_step.
  destruct (has_key v (waf_events w)) eqn:Hk; simpl; [exact Hk |].
  apply has_key_count. rewrite key_count_app. unfold key_count at 2. simpl.
  assert (same_key v v = true) by (apply same_key_true; tauto).
  rewrite H. simpl. lia.
Qed.

Lemma insert_step_keeps (v v' : EventValues) (w : World) :
  has_key v' (waf_events w) = true ->
  has_key v' (waf_events (snd (insert_step v w))) = true.
Proof.
  intros H. unfold insert_step.
  destruct (has_key v (waf_events w)); simpl; [exact H |].
  apply has_key_count. rewrite key_count_app.
  apply has_key_count in H. lia.
Qed.

Lemma run_batch_unique (stmts : list EventValues) (w : World) :
  unique_keys (waf_events w) ->
  unique_keys (waf_events (snd (run_batch stmts w))).
Proof.
  revert w. induction stmts as [| v rest IH]; intros w Hu; simpl; [exact Hu |].
  specialize (IH _ (insert_step_unique v w Hu)).
  destruct (run_batch rest (snd (insert_step v w))). exact IH.
Qed.

Lemma run_batch_keeps (stmts : list EventValues) (v' : EventValues) (w : World) :
  has_key v' (waf_events w) = true ->
  has_key v' (waf_events (snd (run_batch stmts w))) = true.
Proof.
  revert w. induction stmts as [| v rest IH]; intros w Hk; simpl; [exact Hk |].
  specialize (IH _ (insert_step_keeps v v' w Hk)).
  destruct (run_batch rest (snd (insert_step v w))). exact IH.
Qed.

(** After a batch, the key of each of its statements is stored. *)
Lemma run_batch_present (stmts : list EventValues) (v : EventValues) (w : World) :
  In v stmts ->
  has_key v (waf_events (snd (run_batch stmts w))) = true.
Proof.
  revert w. induction stmts as [| v0 rest IH]; intros w Hin; [destruct Hin |].
  simpl.
  destruct (run_batch rest (snd (insert_step v0 w))) as [cs w'] eqn:E.
  simpl. destruct Hin as [-> | Hin].
  - pose proof (run_batch_keeps rest v _ (insert_step_present v w)) as H.
    rewrite E in H. exact H.
  - specialize (IH (snd (insert_step v0 w)) Hin). rewrite E in IH. exact IH.
Qed.

(** *** The tally *)

Lemma count_results_spec (results : list Z) (inserted deduped : Z) :
  count_results results inserted deduped
  = (inserted + count_of written results, deduped + count_of suppressed results).
Proof.
  revert inserted deduped.
  induction results as [| c rest IH]; intros i d; simpl.
  - unfold count_of. simpl. f_equal; lia.
  - unfold count_of, written, suppressed in *. simpl.
    destruct (0 <? c); simpl; rewrite IH; f_equal; lia.
Qed.

Lemma count_of_app {A} (p : A -> bool) (l1 l2 : list A) :
  count_of p (l1 ++ l2) = count_of p l1 + count_of p l2.
Proof. unfold count_of. rewrite filter_app, length_app. lia. Qed.

Lemma insertEventBatch_run (now : Z) (events : list WAFEvent) (fileId : Z)
    (w : World) :
  events <> [] ->
  has_upload fileId (uploads w) = true ->
  let stmts := map (fun event => bind_event now event fileId) events in
  insertEventBatch now events fileId w
  = (Ok (count_of written (fst (run_batch stmts w)),
         count_of suppressed (fst (run_batch stmts w))),
     snd (run_batch stmts w)).
Proof.
  intros Hne Hup. simpl. unfold insertEventBatch, bind.
  rewrite db_batch_run.
  - unfold ret. rewrite count_results_spec. reflexivity.
  - destruct events; [contradiction | discriminate].
  - apply Forall_forall. intros v Hv. apply in_map_iff in Hv.
    destruct Hv as (e & <- & _). exact Hup.
Qed.

(** A batch without statements is refused, and changes nothing. *)
Lemma insertEventBatch_empty (now fileId : Z) (w : World) :
  insertEventBatch now [] fileId w
  = (Throw "Error: D1_ERROR: No SQL statements detected.", w).
Proof. reflexivity. Qed.

(** A statement whose key is stored writes nothing and gives 0 changes. *)
Lemma run_batch_duplicate (l1 l2 : list EventValues) (v : EventValues) (w : World) :
  has_key v (waf_events w) = true ->
  run_batch (l1 ++ v :: l2) w
  = (fst (run_batch l1 w)
       ++ 0 :: fst (run_batch l2 (skip_event (snd (run_batch l1 w)))),
     snd (run_batch l2 (skip_event (snd (run_batch l1 w))))).
Proof.
  intros Hk. rewrite run_batch_app. simpl.
  pose proof (run_batch_keeps l1 v w Hk) as Hk'.
  unfold insert_step. rewrite Hk'. simpl.
  destruct (run_batch l2 (skip_event (snd (run_batch l1 w)))). reflexivity.
Qed.

Lemma run_batch_length (stmts : list EventValues) (w : World) :
  List.length (fst (run_batch stmts w)) = List.length stmts.
Proof.
  revert w. induction stmts as [| v rest IH]; intros w; simpl; [reflexivity |].
  specialize (IH (snd (insert_step v w))).
  destruct (run_batch rest (snd (insert_step v w))). simpl in *. now rewrite IH.
Qed.

Lemma count_written_suppressed (results : list Z) :
  count_of written results + count_of suppressed results
  = Z.of_nat (List.length results).
Proof.
  unfold count_of, written, suppressed.
  induction results as [| c rest IH]; [reflexivity |].
  cbn [filter]. destruct (0 <? c); cbn [negb List.length];
    rewrite !Nat2Z.inj_succ; lia.
Qed.

(** A batch only appends rows: one for each statement that wrote, each
    carrying the values of a statement; nothing else of the world moves,
    but the AUTOINCREMENT counter. *)
Lemma run_batch_appends (P : EventValues -> Prop) (stmts : list EventValues)
    (w : World) :
  Forall P stmts ->
  exists added,
    waf_events (snd (run_batch stmts w)) = waf_events w ++ added
    /\ Z.of_nat (List.length added) = count_of written (fst (run_batch stmts w))
    /\ Forall (fun r => P (e_vals r)) added
    /\ uploads (snd (run_batch stmts w)) = uploads w
    /\ rollups (snd (run_batch stmts w)) = rollups w
    /\ r2 (snd (run_batch stmts w)) = r2 w.
Proof.
  revert w. induction stmts as [| v rest IH]; intros w HP; simpl.
  - exists []. rewrite app_nil_r. repeat split. constructor.
  - inversion HP as [| ? ? Hv Hrest]; subst.
    destruct (IH (snd (insert_step v w)) Hrest)
      as (added & Hev & Hlen & Hall & Hup & Hroll & Hr2).
    destruct (run_batch rest (snd (insert_step v w))) as [cs w'] eqn:E.
    simpl in *. unfold insert_step in *.
    destruct (has_key v (waf_events w)); simpl in *.
    + exists added. repeat split; assumption.
    + exists (mkRow (events_seq w + 1) v :: added).
      rewrite Hev, <- app_assoc. repeat split; try assumption.
      * unfold count_of in *. simpl. lia.
      * constructor; assumption.
Qed.

(** The rows that carry a stored key are not touched by a batch, and no
    row with that key is added. *)
Lemma run_batch_rows_with (stmts : list EventValues) (v : EventValues) (w : World) :
  has_key v (waf_events w) = true ->
  filter (fun e => same_key (e_vals e) v) (waf_events (snd (run_batch stmts w)))
  = filter (fun e => same_key (e_vals e) v) (waf_events w).
Proof.
  revert w. induction stmts as [| v0 rest IH]; intros w Hk; simpl; [reflexivity |].
  specialize (IH (snd (insert_step v0 w)) (insert_step_keeps v0 v w Hk)).
  destruct (run_batch rest (snd (insert_step v0 w))) as [cs w']. simpl in *.
  rewrite IH. unfold insert_step.
  destruct (has_key v0 (waf_events w)) eqn:Hk0; simpl; [reflexivity |].
  rewrite filter_app. simpl.
  destruct (same_key v0 v) eqn:Hs; [| apply app_nil_r].
  rewrite (has_key_congr v0 v _ Hs) in Hk0. congruence.
Qed.

(** What a batch answers and writes depends on the stored values, not on
    the row ids. *)
Lemma has_key_values (v : EventValues) (t : list EventRow) :
  has_key v t = existsb (fun x => same_key x v) (map e_vals t).
Proof.
  unfold has_key. induction t as [| e t IH]; simpl; [reflexivity |].
  now rewrite IH.
Qed.

Lemma run_batch_values (stmts : list EventValues) (w w' : World) :
  stored_values w = stored_values w' ->
  fst (run_batch stmts w) = fst (run_batch stmts w')
  /\ stored_values (snd (run_batch stmts w))
     = stored_values (snd (run_batch stmts w')).
Proof.
  revert w w'. induction stmts as [| v rest IH]; intros w w' Hsame; simpl;
    [split; [reflexivity | exact Hsame] |].
  assert (Hk : has_key v (waf_events w) = has_key v (waf_events w')).
  { rewrite !has_key_values. unfold stored_values in Hsame. now rewrite Hsame. }
  assert (Hstep : fst (insert_step v w) = fst (insert_step v w')
                  /\ stored_values (snd (insert_step v w))
                     = stored_values (snd (insert_step v w'))).
  { unfold insert_step. rewrite Hk.
    destruct (has_key v (waf_events w')); simpl; [split; [reflexivity | exact Hsame] |].
    split; [reflexivity |].
    unfold stored_values in *. simpl. rewrite !map_app, Hsame. reflexivity. }
  destruct Hstep as (Hc & Hnext).
  destruct (IH _ _ Hnext) as (Hcs & Hvals).
  destruct (run_batch rest (snd (insert_step v w))) as [cs w1].
  destruct (run_batch rest (snd (insert_step v w'))) as [cs' w1'].
  simpl in *. split; [congruence | exact Hvals].
Qed.

(** The rows counted by the key of an event are the rows counted at the
    values that [insertEventBatch] binds for it. *)
Lemma stored_with_bound (now fileId : Z) (e : WAFEvent) (t : list EventRow) :
  rows_with (ray_id e) (event_ts e) t
  = filter (fun r => same_key (e_vals r) (bind_event now e fileId)) t.
Proof. reflexivity. Qed.

(** C2: when two events share (ray_id, event_ts) and are inserted by two
    batches, for files that have their upload rows, the table holds
    exactly one row with that correlation id and timestamp after both
    batches, and it is the row that was there after the first batch; the
    occurrence in the second batch writes nothing and is counted as
    deduped: the second batch adds as many rows as its inserted tally
    says, its two tallies add up to its number of events, and the batch
    without the occurrence (when it is not empty) stores the same values
    with the same inserted tally and a deduped tally smaller by one. *)
Theorem duplicate_key_across_batches (now1 now2 file1 file2 : Z) (w : World)
    (batch1 before after : list WAFEvent) (e1 e2 : WAFEvent) :
  unique_keys (waf_events w) ->
  has_upload file1 (uploads w) = true ->
  has_upload file2 (uploads w) = true ->
  In e1 batch1 ->
  ray_id e1 = ray_id e2 ->
  event_ts e1 = event_ts e2 ->
  exists tally1 w1 inserted deduped w2,
    insertEventBatch now1 batch1 file1 w = (Ok tally1, w1)
    /\ insertEventBatch now2 (before ++ e2 :: after) file2 w1
       = (Ok (inserted, deduped), w2)
    /\ stored_with (ray_id e2) (event_ts e2) (waf_events w2) = 1%nat
    /\ rows_with (ray_id e2) (event_ts e2) (waf_events w2)
       = rows_with (ray_id e2) (event_ts e2) (waf_events w1)
    /\ Z.of_nat (List.length (waf_events w2))
       = Z.of_nat (List.length (waf_events w1)) + inserted
    /\ inserted + deduped = Z.of_nat (List.length (before ++ e2 :: after))
    /\ (before ++ after <> [] ->
        exists w2',
          insertEventBatch now2 (before ++ after) file2 w1
          = (Ok (inserted, deduped - 1), w2')
          /\ stored_values w2' = stored_values w2)
    /\ unique_keys (waf_events w2).
Proof.
  intros Hu Hup1 Hup2 Hin Hray Hts.
  set (bind1 := fun event => bind_event now1 event file1).
  set (bind2 := fun event => bind_event now2 event file2).
  set (r1 := run_batch (map bind1 batch1) w).
  set (w1 := snd r1).
  assert (Hne1 : batch1 <> []) by (intros ->; destruct Hin).
  assert (Hup21 : has_upload file2 (uploads w1) = true).
  { unfold w1, r1. rewrite run_batch_uploads. exact Hup2. }
  assert (Hu1 : unique_keys (waf_events w1)) by (apply run_batch_unique, Hu).
  assert (Hk1 : has_key (bind2 e2) (waf_events w1) = true).
  { rewrite <- (has_key_congr (bind1 e1) (bind2 e2)).
    - apply run_batch_present, in_map, Hin.
    - apply same_key_true. split; assumption. }
  set (ra := run_batch (map bind2 before) w1).
  set (rb := run_batch (map bind2 after) (skip_event (snd ra))).
  set (rb' := run_batch (map bind2 after) (snd ra)).
  assert (Ewith : run_batch (map bind2 (before ++ e2 :: after)) w1
                  = (fst ra ++ 0 :: fst rb, snd rb)).
  { rewrite map_app. apply run_batch_duplicate, Hk1. }
  assert (Ewithout : run_batch (map bind2 (before ++ after)) w1
                     = (fst ra ++ fst rb', snd rb')).
  { rewrite map_app. apply run_batch_app. }
  destruct (run_batch_values (map bind2 after) (skip_event (snd ra)) (snd ra)
              eq_refl) as (Hsame_results & Hsame_values).
  fold rb in Hsame_results, Hsame_values. fold rb' in Hsame_results, Hsame_values.
  assert (Hu2 : unique_keys (waf_events (snd rb))).
  { replace (snd rb)
      with (snd (run_batch (map bind2 (before ++ e2 :: after)) w1))
      by (rewrite Ewith; reflexivity).
    apply run_batch_unique, Hu1. }
  assert (Hrows : filter (fun r => same_key (e_vals r) (bind2 e2))
                    (waf_events (snd rb))
                  = filter (fun r => same_key (e_vals r) (bind2 e2))
                      (waf_events w1)).
  { replace (snd rb)
      with (snd (run_batch (map bind2 (before ++ e2 :: after)) w1))
      by (rewrite Ewith; reflexivity).
    apply run_batch_rows_with, Hk1. }
  assert (Hrows' : rows_with (ray_id e2) (event_ts e2) (waf_events (snd rb))
                   = rows_with (ray_id e2) (event_ts e2) (waf_events w1))
    by (rewrite !(stored_with_bound now2 file2); exact Hrows).
  destruct (run_batch_appends (fun _ => True)
              (map bind2 (before ++ e2 :: after)) w1)
    as (added & Hadded & Hlen & _); [apply Forall_forall; auto |].
  rewrite Ewith in Hadded, Hlen. cbn [fst snd] in Hadded, Hlen.
  exists (count_of written (fst r1), count_of suppressed (fst r1)), w1,
         (count_of written (fst ra ++ 0 :: fst rb)),
         (count_of suppressed (fst ra ++ 0 :: fst rb)),
         (snd rb).
  repeat apply conj.
  - apply insertEventBatch_run; assumption.
  - rewrite insertEventBatch_run; [| now destruct before | exact Hup21].
    cbv zeta. fold bind2. rewrite Ewith. reflexivity.
  - unfold stored_with. rewrite Hrows'.
    assert (Hk : (1 <= key_count (bind2 e2) (waf_events w1))%nat)
      by (apply has_key_count, Hk1).
    specialize (Hu1 (bind2 e2)).
    change (key_count (bind2 e2) (waf_events w1))
      with (List.length (rows_with (ray_id e2) (event_ts e2) (waf_events w1)))
      in Hk, Hu1.
    lia.
  - exact Hrows'.
  - rewrite Hadded, length_app, Nat2Z.inj_add, Hlen. reflexivity.
  - rewrite count_written_suppressed.
    replace (fst ra ++ 0 :: fst rb)
      with (fst (run_batch (map bind2 (before ++ e2 :: after)) w1))
      by (rewrite Ewith; reflexivity).
    rewrite run_batch_length, length_map. reflexivity.
  - intros Hne. exists (snd rb'). split; [| symmetry; exact Hsame_values].
    rewrite insertEventBatch_run; [| exact Hne | exact Hup21].
    cbv zeta. fold bind2. rewrite Ewithout. cbn [fst snd].
    rewrite <- Hsame_results, !count_of_app.
    replace (count_of written (0 :: fst rb)) with (count_of written (fst rb))
      by reflexivity.
    replace (count_of suppressed (0 :: fst rb))
      with (count_of suppressed (fst rb) + 1)
      by (unfold count_of; simpl; lia).
    do 2 f_equal. f_equal. lia.
  - exact Hu2.
Qed.

Lemma duplicate_key_across_batches_witness :
  exists tally1 w1 inserted deduped w2,
    insertEventBatch Fixtures.now [Fixtures.login_event] 1 Fixtures.two_uploads
    = (Ok tally1, w1)
    /\ insertEventBatch Fixtures.now
         ([Fixtures.retry_event] ++ Fixtures.login_event :: []) 2 w1
       = (Ok (inserted, deduped), w2)
    /\ stored_with "ray-1" 1700000000000 (waf_events w2) = 1%nat
    /\ rows_with "ray-1" 1700000000000 (waf_events w2)
       = rows_with "ray-1" 1700000000000 (waf_events w1)
    /\ Z.of_nat (List.length (waf_events w2))
       = Z.of_nat (List.length (waf_events w1)) + inserted
    /\ inserted + deduped = 2
    /\ ([Fixtures.retry_event] ++ [] <> [] ->
        exists w2',
          insertEventBatch Fixtures.now ([Fixtures.retry_event] ++ []) 2 w1
          = (Ok (inserted, deduped - 1), w2')
          /\ stored_values w2' = stored_values w2)
    /\ unique_keys (waf_events w2).
Proof.
  apply (duplicate_key_across_batches Fixtures.now Fixtures.now 1 2
           Fixtures.two_uploads [Fixtures.login_event]
           [Fixtures.retry_event] [] Fixtures.login_event Fixtures.login_event).
  - intros v. unfold key_count. simpl. lia.
  - reflexivity.
  - reflexivity.
  - simpl. auto.
  - reflexivity.
  - reflexivity.
Defined.

(* ================================================================== *)
(** * What a computation leaves unchanged *)
(* ================================================================== *)

Section Frame.

Context {X : Type} (part : World -> X).

Lemma preserves_ret {A} (a : A) : preserves part (ret a).
Proof. intros w. reflexivity. Qed.

Lemma preserves_get : preserves part get.
Proof. intros w. reflexivity. Qed.

Lemma preserves_throw {A} (e : string) : preserves part (@throw A e).
Proof. intros w. reflexivity. Qed.

Lemma preserves_lift {A} (r : res A) : preserves part (lift r).
Proof. intros w. reflexivity. Qed.

Lemma preserves_diverge {A} : preserves part (@diverge A).
Proof. intros w. reflexivity. Qed.

Lemma preserves_modify (f : World -> World) :
  (forall w, part (f w) = part w) -> preserves part (modify f).
Proof. intros H w. apply H. Qed.

Lemma preserves_bind {A B} (m : M A) (k : A -> M B) :
  preserves part m -> (forall a, preserves part (k a)) ->
  preserves part (bind m k).
Proof.
  intros Hm Hk w. unfold bind. specialize (Hm w).
  destruct (m w) as [[a | e |] w']; simpl in *; try exact Hm.
  rewrite Hk. exact Hm.
Qed.

Lemma preserves_if {A} (b : bool) (m1 m2 : M A) :
  preserves part m1 -> preserves part m2 ->
  preserves part (if b then m1 else m2).
Proof. destruct b; auto. Qed.

End Frame.

Create HintDb frame.
#[local] Hint Resolve preserves_ret preserves_get preserves_throw
  preserves_lift preserves_diverge : frame.

Ltac frame :=
  repeat first
    [ progress auto with frame
    | apply preserves_bind; [| intros ?]
    | apply preserves_if
    | apply preserves_modify; intros ?; reflexivity
    | match goal with
      | |- preserves _ (match ?x with _ => _ end) => destruct x
      | |- preserves _ (let '(_, _) := ?x in _) => destruct x
      end ].

(** ** The statements that leave the rollup tables alone *)

Lemma select_upload_by_checksum_rollups (c : string) :
  preserves rollups (select_upload_by_checksum c).
Proof. unfold select_upload_by_checksum. frame. Qed.

Lemma select_upload_by_id_rollups (id : Z) :
  preserves rollups (select_upload_by_id id).
Proof. unfold select_upload_by_id. frame. Qed.

Lemma r2_get_rollups (key : string) : preserves rollups (r2_get key).
Proof. unfold r2_get. frame. Qed.

Lemma delete_events_of_file_rollups (id : Z) :
  preserves rollups (delete_events_of_file id).
Proof. unfold delete_events_of_file. frame. Qed.

Lemma set_upload_stats_rollups (total inserted deduped id : Z) :
  preserves rollups (set_upload_stats total inserted deduped id).
Proof. unfold set_upload_stats, update_upload. frame. Qed.

Lemma insert_or_ignore_rollups (v : EventValues) :
  preserves rollups (insert_or_ignore v).
Proof. unfold insert_or_ignore. frame. Qed.

(** A part that no statement touches is not touched by a batch. *)
Lemma run_statements_preserves {X : Type} (part : World -> X)
    (stmts : list EventValues) :
  (forall v, preserves part (insert_or_ignore v)) ->
  preserves part (run_statements stmts).
Proof.
  intros H. induction stmts as [| v rest IH]; simpl; frame.
Qed.

Lemma db_batch_preserves {X : Type} (part : World -> X)
    (stmts : list EventValues) :
  (forall v, preserves part (insert_or_ignore v)) ->
  preserves part (db_batch stmts).
Proof.
  intros H w. destruct stmts as [| v rest]; [reflexivity |].
  unfold db_batch.
  pose proof (run_statements_preserves part (v :: rest) H w) as Hrun.
  destruct (run_statements (v :: rest) w) as [[results | e |] w'];
    [exact Hrun | reflexivity | exact Hrun].
Qed.

Lemma db_batch_rollups (stmts : list EventValues) :
  preserves rollups (db_batch stmts).
Proof. apply db_batch_preserves, insert_or_ignore_rollups. Qed.

#[local] Hint Resolve select_upload_by_checksum_rollups
  select_upload_by_id_rollups r2_get_rollups delete_events_of_file_rollups
  set_upload_stats_rollups insert_or_ignore_rollups db_batch_rollups : frame.

Lemma reinsert_in_batches_rollups (now : Z) (fuel : nat) (i n : option Z)
    (events : list WAFEvent) (fileId inserted deduped : Z) :
  preserves rollups
    (reinsert_in_batches now fuel i n events fileId inserted deduped).
Proof.
  revert i inserted deduped.
  induction fuel as [| fuel IH]; intros i inserted deduped; simpl; [frame |].
  destruct (num_lt i (Z.of_nat (List.length events))); [| frame].
  apply preserves_bind; [auto with frame |].
  intros results. apply IH.
Qed.

Lemma reinsert_rollups (now : Z) (batchSize : option Z)
    (events : list WAFEvent) (fileId : Z) :
  preserves rollups (reinsert now batchSize events fileId).
Proof. unfold reinsert. apply reinsert_in_batches_rollups. Qed.

Lemma handleReindex_try_rollups (JSON_parse : string -> Parsed)
    (Date_parse : string -> option Z) (now : Z) (body : Body) (env : Env) :
  preserves rollups (handleReindex_try JSON_parse Date_parse now body env).
Proof.
  unfold handleReindex_try.
  pose proof (reinsert_rollups now) as Hloop. frame.
Qed.

(** C3 (as amended): [handleReindex] deletes the events of the file,
    parses the stored content again, inserts the events and overwrites the
    statistics of the upload, and it leaves the four rollup tables exactly
    as they were: the rollup update is run by the upload path only. *)
Theorem handleReindex_keeps_rollups (JSON_parse : string -> Parsed)
    (Date_parse : string -> option Z) (now : Z)
    (body : Body) (env : Env) (w : World) :
  rollups (snd (handleReindex JSON_parse Date_parse now body env w)) = rollups w.
Proof.
  unfold handleReindex.
  pose proof (handleReindex_try_rollups JSON_parse Date_parse now body env w) as H.
  destruct (handleReindex_try JSON_parse Date_parse now body env w)
    as [[r | e |] w']; exact H.
Qed.

(** C3, as stated, fails: a file of two records is uploaded with raw
    retention and then reindexed.  The reindex succeeds and inserts both
    events again; the rollup tables are what they were before it, and they
    are not what running [updateAnalyticsTables] for the file gives. *)
Lemma handleReindex_skips_rollup_update :
  let w0 := snd (Fixtures.processFile Fixtures.ndjson_file Fixtures.env_r2
                   (Some 1000) Fixtures.empty_world) in
  let result := Fixtures.handleReindex (mkBody None (Some 1)) Fixtures.env_r2 w0 in
  fst result = Ok (status_200 1 "waf.ndjson" 2 2 0 [])
  /\ rollups (snd result) = rollups w0
  /\ rollups (snd (Fixtures.updateAnalyticsTables 1 (snd result)))
     <> rollups (snd result).
Proof.
  repeat apply conj; vm_compute; [reflexivity | reflexivity | discriminate].
Qed.

(* ================================================================== *)
(** * The checksum gate of processFile *)
(* ================================================================== *)

Lemma NoDup_map_inj {A B} (f : A -> B) (l : list A) (x y : A) :
  NoDup (map f l) -> In x l -> In y l -> f x = f y -> x = y.
Proof.
  induction l as [| a l IH]; simpl; intros Hnd Hx Hy Hf; [destruct Hx |].
  inversion Hnd as [| ? ? Hnotin Hnd']; subst.
  destruct Hx as [-> | Hx], Hy as [-> | Hy]; auto.
  - exfalso. apply Hnotin. rewrite Hf. apply in_map, Hy.
  - exfalso. apply Hnotin. rewrite <- Hf. apply in_map, Hx.
Qed.

(** Under the constraint, deleting the row found by checksum leaves no row
    with that checksum. *)
Lemma upload_with_deleted (checksum : string) (w : World) (existing : UploadRow) :
  unique_checksums (uploads w) ->
  upload_with checksum w = Some existing ->
  upload_with checksum (without_upload (up_id existing) w) = None
  /\ ~ In existing (uploads (without_upload (up_id existing) w)).
Proof.
  intros Hu Hfind. unfold upload_with in *.
  apply find_some in Hfind. destruct Hfind as [Hin Hc].
  apply String.eqb_eq in Hc.
  unfold without_upload, delete_upload, modify. simpl.
  split.
  - destruct (find _ (filter _ (uploads w))) as [x |] eqn:E; [| reflexivity].
    exfalso. apply find_some in E. destruct E as [Hx Hxc].
    apply filter_In in Hx. destruct Hx as [Hx Hid].
    apply String.eqb_eq in Hxc.
    assert (x = existing)
      by (eapply NoDup_map_inj; eauto; congruence).
    subst x. rewrite Z.eqb_refl in Hid. discriminate.
  - intros Hx. apply filter_In in Hx. destruct Hx as [_ Hid].
    rewrite Z.eqb_refl in Hid. discriminate.
Qed.

Section Gate.

Variable JSON_parse : string -> Parsed.
Variable Date_parse : string -> option Z.
Variable computeChecksum : string -> string.
Variable now : Z.
Variable randomblob_hex : nat -> string.
Variable max_arguments : Z.

Let processFile := processFile JSON_parse Date_parse computeChecksum now randomblob_hex max_arguments.
Let ingest := ingest JSON_parse Date_parse now randomblob_hex max_arguments.

Lemma processFile_new (file : File) (env : Env) (batchSize : option Z) (w : World) :
  upload_with (computeChecksum (f_text file)) w = None ->
  processFile file env batchSize w
  = ingest file env batchSize (computeChecksum (f_text file)) (f_text file) w.
Proof.
  intros H. unfold processFile, Upload.processFile, bind at 1.
  unfold select_upload_by_checksum, bind, get, ret.
  unfold upload_with in H. rewrite H. reflexivity.
Qed.

Lemma processFile_stale (file : File) (env : Env) (batchSize : option Z)
    (w : World) (existing : UploadRow) :
  upload_with (computeChecksum (f_text file)) w = Some existing ->
  or_zero (up_inserted_records existing) = 0 ->
  processFile file env batchSize w
  = ingest file env batchSize (computeChecksum (f_text file)) (f_text file)
      (without_upload (up_id existing) w).
Proof.
  intros H H0. unfold processFile, Upload.processFile, bind at 1.
  unfold select_upload_by_checksum, bind at 1, get, ret.
  unfold upload_with in H. rewrite H, H0. simpl.
  unfold bind at 1. unfold delete_upload at 1, modify.
  reflexivity.
Qed.

Lemma processFile_done (file : File) (env : Env) (batchSize : option Z)
    (w : World) (existing : UploadRow) :
  upload_with (computeChecksum (f_text file)) w = Some existing ->
  or_zero (up_inserted_records existing) <> 0 ->
  processFile file env batchSize w
  = (Ok (already_processed (f_name file) (computeChecksum (f_text file))
           (up_id existing)
           (or_zero (up_inserted_records existing))
           (or_zero (up_deduped_records existing))
           (or_zero (up_total_records existing))),
     w).
Proof.
  intros H H0. unfold processFile, Upload.processFile, bind at 1.
  unfold select_upload_by_checksum, bind at 1, get, ret.
  unfold upload_with in H. rewrite H.
  destruct (Z.eqb_spec (or_zero (up_inserted_records existing)) 0);
    [contradiction | reflexivity].
Qed.

End Gate.

(** C1: when the checksum of the file is that of an upload row, and the
    inserted count of the row is positive, [processFile] answers
    [already_processed] with the statistics stored in the row, and the
    world (every table and the bucket) is unchanged, whatever the parser
    would have made of the content; when the inserted count is zero (or
    NULL), [processFile] deletes the row and ingests the file in the world
    without it, which is what it does for a file whose checksum no row
    carries. *)
Theorem processFile_checksum_gate
    (JSON_parse : string -> Parsed) (Date_parse : string -> option Z)
    (computeChecksum : string -> string) (now : Z) (randomblob_hex : nat -> string)
    (max_arguments : Z)
    (file : File) (env : Env) (batchSize : option Z)
    (w : World) (existing : UploadRow) :
  unique_checksums (uploads w) ->
  upload_with (computeChecksum (f_text file)) w = Some existing ->
  (0 < or_zero (up_inserted_records existing) ->
   forall (JSON_parse' : string -> Parsed) (Date_parse' : string -> option Z),
     processFile JSON_parse' Date_parse' computeChecksum now randomblob_hex max_arguments
       file env batchSize w
     = (Ok (already_processed (f_name file) (computeChecksum (f_text file))
              (up_id existing)
              (or_zero (up_inserted_records existing))
              (or_zero (up_deduped_records existing))
              (or_zero (up_total_records existing))),
        w))
  /\ (or_zero (up_inserted_records existing) = 0 ->
      let w' := without_upload (up_id existing) w in
      ~ In existing (uploads w')
      /\ upload_with (computeChecksum (f_text file)) w' = None
      /\ processFile JSON_parse Date_parse computeChecksum now randomblob_hex max_arguments
           file env batchSize w
         = ingest JSON_parse Date_parse now randomblob_hex max_arguments
             file env batchSize (computeChecksum (f_text file)) (f_text file) w'
      /\ processFile JSON_parse Date_parse computeChecksum now randomblob_hex max_arguments
           file env batchSize w
         = processFile JSON_parse Date_parse computeChecksum now randomblob_hex max_arguments
             file env batchSize w').
Proof.
  intros Hu Hfind. split.
  - intros Hpos JSON_parse' Date_parse'.
    apply processFile_done; [exact Hfind | lia].
  - intros Hzero w'.
    destruct (upload_with_deleted _ _ _ Hu Hfind) as [Hnone Hnotin].
    repeat apply conj; try assumption.
    + apply processFile_stale; assumption.
    + rewrite (processFile_new _ _ _ _ _ _ _ _ _ w' Hnone).
      apply processFile_stale; assumption.
Qed.

Lemma processFile_checksum_gate_witness :
  let w1 := snd (Fixtures.processFile Fixtures.login_file Fixtures.env_plain
                   (Some 1000) Fixtures.empty_world) in
  let w0 := snd (Fixtures.processFile Fixtures.junk_file Fixtures.env_plain
                   (Some 1000) Fixtures.empty_world) in
  Fixtures.processFile Fixtures.login_file Fixtures.env_plain (Some 1000) w1
  = (Ok (already_processed "login.json" Fixtures.login_text 1 1 0 1), w1)
  /\ Fixtures.processFile Fixtures.junk_file Fixtures.env_plain (Some 1000) w0
     = Fixtures.processFile Fixtures.junk_file Fixtures.env_plain (Some 1000)
         (without_upload 1 w0).
Proof.
  intros w1 w0. split.
  - assert (Hfind : upload_with (Fixtures.computeChecksum (f_text Fixtures.login_file)) w1
                    = Some (mkUpload 1 "login.json" Fixtures.login_text
                              (f_size Fixtures.login_file) Fixtures.now None
                              (Some 1) (Some 1) (Some 0)))
      by (vm_compute; reflexivity).
    assert (Hu : unique_checksums (uploads w1)).
    { vm_compute. constructor; [intros [] | constructor]. }
    destruct (processFile_checksum_gate Fixtures.JSON_parse Fixtures.Date_parse
                Fixtures.computeChecksum Fixtures.now Fixtures.randomblob_hex Fixtures.max_arguments
                Fixtures.login_file Fixtures.env_plain (Some 1000) w1 _ Hu Hfind)
      as [Hdone _].
    apply (Hdone ltac:(simpl; lia)).
  - assert (Hfind : upload_with (Fixtures.computeChecksum (f_text Fixtures.junk_file)) w0
                    = Some (mkUpload 1 "junk.txt" "not json"
                              (f_size Fixtures.junk_file) Fixtures.now None
                              (Some 0) (Some 0) (Some 0)))
      by (vm_compute; reflexivity).
    assert (Hu : unique_checksums (uploads w0)).
    { vm_compute. constructor; [intros [] | constructor]. }
    destruct (processFile_checksum_gate Fixtures.JSON_parse Fixtures.Date_parse
                Fixtures.computeChecksum Fixtures.now Fixtures.randomblob_hex Fixtures.max_arguments
                Fixtures.junk_file Fixtures.env_plain (Some 1000) w0 _ Hu Hfind)
      as [_ Hstale].
    apply (Hstale eq_refl).
Defined.

(* ================================================================== *)
(** * The rollup updater *)
(* ================================================================== *)

(** ** GROUP BY gives each key once *)



(** ** One upsert into top_ips, seen from the row of one address *)






(** ** GROUP BY gives its keys in order: the same keys, each once *)

Lemma insert_key_perm {K} (leb : K -> K -> bool) (k : K) (l : list K) :
  Permutation (insert_key leb k l) (k :: l).
Proof.
  induction l as [| x l IH]; simpl; [apply Permutation_refl |].
  destruct (leb k x); [apply Permutation_refl |].
  eapply Permutation_trans; [apply perm_skip, IH | apply perm_swap].
Qed.

Lemma sort_keys_perm {K} (leb : K -> K -> bool) (l : list K) :
  Permutation (sort_keys leb l) l.
Proof.
  unfold sort_keys. induction l as [| x l IH]; simpl; [apply perm_nil |].
  eapply Permutation_trans; [apply insert_key_perm | apply perm_skip, IH].
Qed.

Lemma group_keys_perm {K} (leb eqb : K -> K -> bool) (l : list K) :
  Permutation (group_keys leb eqb l) (distinct eqb l).
Proof. apply sort_keys_perm. Qed.



(** ** The four statements of the update *)

(** The update fails at its first statement, and changes nothing, when a
    selected date is NULL; otherwise the four statements run, each on the
    events of the file, which none of them changes. *)
Lemma updateAnalyticsTables_run (now : Z) (randomblob_hex : nat -> string)
    (fileId : Z) (w : World) :
  updateAnalyticsTables now randomblob_hex fileId w
  = match insert_daily now (select_daily (file_rows fileId w)) (daily_actions w) with
    | Some daily =>
        let selected :=
          select_paths now randomblob_hex (draws w) (file_rows fileId w) in
        (Ok tt,
         mkWorld (uploads w) (uploads_seq w) (waf_events w) (events_seq w)
           daily
           (fold_left (upsert_rule now) (select_rules now (file_rows fileId w))
              (top_rules w))
           (fold_left (upsert_ip now) (select_ips now (file_rows fileId w))
              (top_ips w))
           (fold_left (upsert_path now) selected (attack_paths w))
           (r2 w) (draws w + List.length selected)%nat)
    | None =>
        (Throw "Error: D1_ERROR: NOT NULL constraint failed: daily_actions.date",
         w)
    end.
Proof.
  unfold updateAnalyticsTables, update_daily_actions.
  unfold bind at 1. unfold bind at 1. unfold get at 1.
  destruct (insert_daily now (select_daily (file_rows fileId w)) (daily_actions w));
    reflexivity.
Qed.

Lemma updateAnalyticsTables_keeps (now : Z) (randomblob_hex : nat -> string)
    (fileId : Z) (w : World) :
  let w' := snd (updateAnalyticsTables now randomblob_hex fileId w) in
  uploads w' = uploads w /\ uploads_seq w' = uploads_seq w /\ r2 w' = r2 w
  /\ waf_events w' = waf_events w /\ events_seq w' = events_seq w.
Proof.
  cbv zeta. rewrite updateAnalyticsTables_run.
  destruct (insert_daily now _ _); repeat split.
Qed.








(** ** attack_paths *)

(** A drawn hash that no stored row carries never conflicts: the row is
    appended, whatever (path, method, status) the stored rows have. *)
Lemma upsert_path_fresh (now : Z) (t : list PathRow) (x : PathRow) :
  (forall r, In r t -> ap_path_hash r <> ap_path_hash x) ->
  upsert_path now t x = t ++ [x].
Proof.
  unfold upsert_path. induction t as [| r t IH]; simpl; intros H; [reflexivity |].
  destruct (String.eqb_spec (ap_path_hash r) (ap_path_hash x)) as [E | E].
  - exfalso. exact (H r (or_introl eq_refl) E).
  - f_equal. apply IH. intros r' Hr'. apply H. right. exact Hr'.
Qed.

(** C5: two files that each hold one event for POST /login answered 403
    are ingested.  [attack_paths] then holds two rows with the key
    (/login, POST, 403), each with count 1: the second update did not
    accumulate into the row of the first. *)
Theorem attack_paths_key_repeated :
  let w1 := snd (Fixtures.processFile Fixtures.login_file Fixtures.env_plain
                   (Some 1000) Fixtures.empty_world) in
  let w2 := snd (Fixtures.processFile Fixtures.retry_file Fixtures.env_plain
                   (Some 1000) w1) in
  map (fun r => (ap_path r, ap_method r, ap_status r, ap_count r)) (attack_paths w1)
  = [("/login", Some "POST", Some 403, 1)]
  /\ map (fun r => (ap_path r, ap_method r, ap_status r, ap_count r)) (attack_paths w2)
     = [("/login", Some "POST", Some 403, 1); ("/login", Some "POST", Some 403, 1)]
  /\ map ap_path_hash (attack_paths w2)
     = [Fixtures.randomblob_hex 0; Fixtures.randomblob_hex 1].
Proof.
  repeat apply conj; vm_compute; reflexivity.
Qed.

(* ================================================================== *)
(** * The constraints of the schema are invariants of the handlers *)
(* ================================================================== *)

Section Invariant.

Variable I : World -> Prop.

Lemma maintains_ret {A} (a : A) : maintains I (ret a).
Proof. intros w H. exact H. Qed.

Lemma maintains_get : maintains I get.
Proof. intros w H. exact H. Qed.

Lemma maintains_throw {A} (e : string) : maintains I (@throw A e).
Proof. intros w H. exact H. Qed.

Lemma maintains_lift {A} (r : res A) : maintains I (lift r).
Proof. intros w H. exact H. Qed.

Lemma maintains_diverge {A} : maintains I (@diverge A).
Proof. intros w H. exact H. Qed.

Lemma maintains_bind {A B} (m : M A) (k : A -> M B) :
  maintains I m -> (forall a, maintains I (k a)) -> maintains I (bind m k).
Proof.
  intros Hm Hk w Hw. unfold bind. specialize (Hm w Hw).
  destruct (m w) as [[a | e |] w']; simpl in *; try exact Hm.
  apply Hk, Hm.
Qed.

Lemma maintains_if {A} (b : bool) (m1 m2 : M A) :
  maintains I m1 -> maintains I m2 -> maintains I (if b then m1 else m2).
Proof. destruct b; auto. Qed.

(** A computation that leaves the tables of the invariant alone keeps it. *)
Lemma maintains_frame {A X} (part : World -> X) (m : M A) :
  (forall w w', part w = part w' -> I w -> I w') ->
  preserves part m -> maintains I m.
Proof. intros Hpart Hm w Hw. eapply Hpart; [symmetry; apply Hm | exact Hw]. Qed.

End Invariant.

Lemma key_count_filter (p : EventRow -> bool) (v : EventValues) (t : list EventRow) :
  (key_count v (filter p t) <= key_count v t)%nat.
Proof.
  unfold key_count. induction t as [| e t IH]; simpl; [lia |].
  destruct (p e); simpl; destruct (same_key (e_vals e) v); simpl; lia.
Qed.

Lemma unique_keys_filter (p : EventRow -> bool) (t : list EventRow) :
  unique_keys t -> unique_keys (filter p t).
Proof.
  intros H v. specialize (H v). pose proof (key_count_filter p v t). lia.
Qed.

Lemma unique_checksums_filter (p : UploadRow -> bool) (t : list UploadRow) :
  unique_checksums t -> unique_checksums (filter p t).
Proof.
  unfold unique_checksums. induction t as [| u t IH]; simpl; intros H; [exact H |].
  inversion H as [| ? ? Hnotin Hnd]; subst.
  destruct (p u); simpl; [| exact (IH Hnd)].
  constructor; [| exact (IH Hnd)].
  intros Hin. apply Hnotin. apply in_map_iff in Hin.
  destruct Hin as (x & Hx & Hxin). apply filter_In in Hxin.
  rewrite <- Hx. apply in_map, Hxin.
Qed.

Lemma unique_checksums_update (id : Z) (f : UploadRow -> UploadRow)
    (t : list UploadRow) :
  (forall u, up_checksum (f u) = up_checksum u) ->
  unique_checksums t ->
  unique_checksums (map (fun u => if up_id u =? id then f u else u) t).
Proof.
  intros Hf H. unfold unique_checksums in *. rewrite map_map.
  replace (map (fun u => up_checksum (if up_id u =? id then f u else u)) t)
    with (map up_checksum t); [exact H |].
  apply map_ext. intros u.
  destruct (up_id u =? id); [symmetry; apply Hf | reflexivity].
Qed.

Lemma unique_checksums_insert (t : list UploadRow) (u : UploadRow) :
  existsb (fun x => String.eqb (up_checksum x) (up_checksum u)) t = false ->
  unique_checksums t -> unique_checksums (t ++ [u]).
Proof.
  unfold unique_checksums. intros Hex Hnd. rewrite map_app. simpl.
  apply NoDup_app; [exact Hnd | repeat constructor; intros [] |].
  intros c Hc [<- | []].
  apply in_map_iff in Hc. destruct Hc as (x & Hx & Hin).
  assert (existsb (fun x => String.eqb (up_checksum x) (up_checksum u)) t = true).
  { apply existsb_exists. exists x. split; [exact Hin |]. now apply String.eqb_eq. }
  congruence.
Qed.

(** ** Each statement keeps the constraints *)

Lemma delete_upload_constraints (id : Z) : maintains constraints (delete_upload id).
Proof.
  intros w [Hk Hc]. split; simpl.
  - apply unique_keys_filter, Hk.
  - apply unique_checksums_filter, Hc.
Qed.

Lemma insert_upload_constraints (filename checksum : string) (size now : Z) :
  maintains constraints (insert_upload filename checksum size now).
Proof.
  intros w [Hk Hc]. unfold insert_upload, bind, get, ret, throw, modify.
  destruct (existsb _ (uploads w)) eqn:E; simpl; [split; assumption |].
  split; [exact Hk |]. apply unique_checksums_insert; assumption.
Qed.

Lemma update_upload_constraints (id : Z) (f : UploadRow -> UploadRow) :
  (forall u, up_checksum (f u) = up_checksum u) ->
  maintains constraints (update_upload id f).
Proof.
  intros Hf w [Hk Hc]. split; simpl; [exact Hk |].
  apply unique_checksums_update; assumption.
Qed.

Lemma insert_or_ignore_constraints (v : EventValues) :
  maintains constraints (insert_or_ignore v).
Proof.
  intros w [Hk Hc]. unfold insert_or_ignore, bind, get, ret, modify, throw.
  destruct (has_key v (waf_events w)) eqn:E; simpl; [split; assumption |].
  destruct (has_upload (v_file_id v) (uploads w)); simpl; [| split; assumption].
  split; [| exact Hc].
  pose proof (insert_step_unique v w Hk) as H.
  unfold insert_step in H. rewrite E in H. exact H.
Qed.

Lemma db_batch_constraints (stmts : list EventValues) :
  maintains constraints (db_batch stmts).
Proof.
  assert (Hrun : forall l, maintains constraints (run_statements l)).
  { induction l as [| v rest IH]; simpl.
    - apply maintains_ret.
    - apply maintains_bind; [apply insert_or_ignore_constraints | intros c].
      apply maintains_bind; [exact IH | intros cs]. apply maintains_ret. }
  intros w Hw. destruct stmts as [| v rest]; [exact Hw |].
  unfold db_batch. specialize (Hrun (v :: rest) w Hw).
  destruct (run_statements (v :: rest) w) as [[results | e |] w'];
    [exact Hrun | exact Hw | exact Hrun].
Qed.

Lemma delete_events_of_file_constraints (id : Z) :
  maintains constraints (delete_events_of_file id).
Proof.
  intros w [Hk Hc]. split; simpl; [apply unique_keys_filter, Hk | exact Hc].
Qed.

Lemma constraints_constrained (w w' : World) :
  constrained w = constrained w' -> constraints w -> constraints w'.
Proof. unfold constrained, constraints. intros [= -> ->]. tauto. Qed.

Lemma updateAnalyticsTables_constrained (now : Z) (randomblob_hex : nat -> string)
    (fileId : Z) :
  preserves constrained (updateAnalyticsTables now randomblob_hex fileId).
Proof.
  intros w. rewrite updateAnalyticsTables_run.
  destruct (insert_daily now _ _); reflexivity.
Qed.

Lemma r2_put_constrained (key content : string) :
  preserves constrained (r2_put key content).
Proof. intros w. reflexivity. Qed.

Create HintDb constraints.
#[local] Hint Resolve maintains_ret maintains_get maintains_throw
  maintains_lift maintains_diverge
  delete_upload_constraints insert_upload_constraints
  insert_or_ignore_constraints db_batch_constraints
  delete_events_of_file_constraints : constraints.

Ltac constraints :=
  repeat first
    [ progress auto with constraints
    | apply maintains_bind; [| intros ?]
    | apply maintains_if
    | apply update_upload_constraints; intros ?; reflexivity
    | match goal with
      | |- maintains _ (match ?x with _ => _ end) => destruct x
      end ].

Lemma insertEventBatch_constraints (now : Z) (events : list WAFEvent) (fileId : Z) :
  maintains constraints (insertEventBatch now events fileId).
Proof. unfold insertEventBatch. constraints. Qed.

Lemma insert_in_batches_constraints (now : Z) (fuel : nat) (i n : option Z)
    (events : list WAFEvent) (fileId inserted deduped : Z) :
  maintains constraints
    (insert_in_batches now fuel i n events fileId inserted deduped).
Proof.
  revert i inserted deduped.
  induction fuel as [| fuel IH]; intros i inserted deduped; simpl;
    [auto with constraints |].
  destruct (num_lt i (Z.of_nat (List.length events))); [| auto with constraints].
  apply maintains_bind; [apply insertEventBatch_constraints | intros r].
  apply IH.
Qed.

Lemma reinsert_in_batches_constraints (now : Z) (fuel : nat) (i n : option Z)
    (events : list WAFEvent) (fileId inserted deduped : Z) :
  maintains constraints
    (reinsert_in_batches now fuel i n events fileId inserted deduped).
Proof.
  revert i inserted deduped.
  induction fuel as [| fuel IH]; intros i inserted deduped; simpl;
    [auto with constraints |].
  destruct (num_lt i (Z.of_nat (List.length events))); [| auto with constraints].
  apply maintains_bind; [auto with constraints | intros r]. apply IH.
Qed.

(** Every run of [processFile], whatever its outcome, leaves the two
    uniqueness constraints in force. *)
Lemma processFile_constraints
    (JSON_parse : string -> Parsed) (Date_parse : string -> option Z)
    (computeChecksum : string -> string) (now : Z) (randomblob_hex : nat -> string)
    (max_arguments : Z)
    (file : File) (env : Env) (batchSize : option Z) :
  maintains constraints
    (processFile JSON_parse Date_parse computeChecksum now randomblob_hex max_arguments
       file env batchSize).
Proof.
  assert (Hingest : forall checksum content,
             maintains constraints
               (ingest JSON_parse Date_parse now randomblob_hex max_arguments
                  file env batchSize checksum content)).
  { intros checksum content. unfold ingest.
    apply maintains_bind; [auto with constraints | intros fileId].
    apply maintains_bind.
    { apply maintains_if; [| auto with constraints].
      apply maintains_bind; [| intros ?].
      - eapply maintains_frame;
          [apply constraints_constrained | apply r2_put_constrained].
      - apply update_upload_constraints. intros ?; reflexivity. }
    intros _. apply maintains_bind; [auto with constraints | intros parsed].
    destruct (fst parsed) as [| first others].
    { apply maintains_bind; [| intros ?; auto with constraints].
      apply update_upload_constraints. intros ?; reflexivity. }
    apply maintains_bind.
    { unfold batch_loop. apply insert_in_batches_constraints. }
    intros totals.
    apply maintains_bind;
      [apply update_upload_constraints; intros ?; reflexivity | intros _].
    apply maintains_bind.
    { eapply maintains_frame;
        [apply constraints_constrained | apply updateAnalyticsTables_constrained]. }
    intros _. unfold spread_call, toISOString. constraints. }
  unfold processFile, select_upload_by_checksum.
  apply maintains_bind; [constraints | intros existing].
  destruct existing as [existing |]; [| apply Hingest].
  apply maintains_if; [| auto with constraints].
  apply maintains_bind; [auto with constraints | intros _]. apply Hingest.
Qed.

(** So does every run of [handleReindex]. *)
Lemma handleReindex_constraints
    (JSON_parse : string -> Parsed) (Date_parse : string -> option Z) (now : Z)
    (body : Body) (env : Env) :
  maintains constraints (handleReindex JSON_parse Date_parse now body env).
Proof.
  assert (Htry : maintains constraints
                   (handleReindex_try JSON_parse Date_parse now body env)).
  { unfold handleReindex_try.
    apply maintains_if; [auto with constraints |].
    apply maintains_bind.
    { unfold select_upload_by_checksum, select_upload_by_id. constraints. }
    intros [info |]; [| auto with constraints].
    apply maintains_if; [auto with constraints |].
    apply maintains_bind; [unfold r2_get; constraints |].
    intros [content |]; [| auto with constraints].
    apply maintains_bind; [auto with constraints | intros _].
    apply maintains_bind; [auto with constraints | intros parsed].
    apply maintains_bind.
    { unfold reinsert. apply reinsert_in_batches_constraints. }
    intros totals.
    apply maintains_bind;
      [apply update_upload_constraints; intros ?; reflexivity | intros _].
    auto with constraints. }
  intros w Hw. unfold handleReindex. specialize (Htry w Hw).
  destruct (handleReindex_try JSON_parse Date_parse now body env w)
    as [[r | e |] w']; exact Htry.
Qed.

(* ================================================================== *)
(** * Uploading the same content twice *)
(* ================================================================== *)

Lemma bind_Ok {A B} (m : M A) (k : A -> M B) (w w' : World) (b : B) :
  bind m k w = (Ok b, w') ->
  exists a w1, m w = (Ok a, w1) /\ k a w1 = (Ok b, w').
Proof.
  unfold bind. destruct (m w) as [[a | e |] w1]; try discriminate. eauto.
Qed.

Lemma newest_find (checksum : string) (id : Z) (P : UploadRow -> Prop)
    (t : list UploadRow) :
  newest checksum id P t ->
  exists u, find (fun x => String.eqb (up_checksum x) checksum) t = Some u
            /\ up_id u = id /\ P u.
Proof.
  intros (before & u & -> & Hbefore & Hc & Hid & HP). exists u.
  split; [| tauto].
  induction before as [| x before IH]; simpl.
  - rewrite Hc, String.eqb_refl. reflexivity.
  - destruct (String.eqb_spec (up_checksum x) checksum) as [E | _].
    + exfalso. exact (Hbefore x (or_introl eq_refl) E).
    + apply IH. intros y Hy. apply Hbefore. right. exact Hy.
Qed.

Lemma newest_update (checksum : string) (id : Z) (P P' : UploadRow -> Prop)
    (f : UploadRow -> UploadRow) (t : list UploadRow) :
  (forall u, up_checksum (f u) = up_checksum u) ->
  (forall u, up_id (f u) = up_id u) ->
  (forall u, P' (f u)) ->
  newest checksum id P t ->
  newest checksum id P' (map (fun u => if up_id u =? id then f u else u) t).
Proof.
  intros Hc Hid HP' (before & u & -> & Hbefore & Huc & Huid & _).
  exists (map (fun u => if up_id u =? id then f u else u) before), (f u).
  repeat apply conj.
  - rewrite map_app. simpl. rewrite Huid, Z.eqb_refl. reflexivity.
  - intros x Hx. apply in_map_iff in Hx. destruct Hx as (y & <- & Hy).
    destruct (up_id y =? id); [rewrite Hc |]; apply Hbefore, Hy.
  - rewrite Hc. exact Huc.
  - rewrite Hid. exact Huid.
  - apply HP'.
Qed.

Lemma insert_upload_Ok (filename checksum : string) (size now id : Z)
    (w w' : World) :
  insert_upload filename checksum size now w = (Ok id, w') ->
  newest checksum id (fun _ => True) (uploads w').
Proof.
  unfold insert_upload, bind, get, ret, throw, modify.
  destruct (existsb _ (uploads w)) eqn:E; [discriminate |].
  intros [= <- <-]. simpl.
  eexists _, _. repeat apply conj; try reflexivity; try exact Logic.I.
  intros x Hx Hc.
  assert (existsb (fun u => String.eqb (up_checksum u) checksum) (uploads w) = true).
  { apply existsb_exists. exists x. split; [exact Hx |]. now apply String.eqb_eq. }
  congruence.
Qed.

(** The statements between the insertion of the upload row and the
    answer that leave [uploads] alone. *)
Lemma insertEventBatch_uploads (now : Z) (events : list WAFEvent) (fileId : Z) :
  preserves uploads (insertEventBatch now events fileId).
Proof.
  assert (Hbatch : forall l, preserves uploads (db_batch l)).
  { intros l. apply db_batch_preserves. intros v. frame. }
  unfold insertEventBatch. frame.
Qed.

Lemma insert_in_batches_uploads (now : Z) (fuel : nat) (i n : option Z)
    (events : list WAFEvent) (fileId inserted deduped : Z) :
  preserves uploads (insert_in_batches now fuel i n events fileId inserted deduped).
Proof.
  revert i inserted deduped.
  induction fuel as [| fuel IH]; intros i inserted deduped; simpl; [frame |].
  destruct (num_lt i (Z.of_nat (List.length events))); [| frame].
  apply preserves_bind; [apply insertEventBatch_uploads | intros r]. apply IH.
Qed.

Lemma batch_loop_uploads (now : Z) (batchSize : option Z)
    (events : list WAFEvent) (fileId : Z) :
  preserves uploads (batch_loop now batchSize events fileId).
Proof.
  unfold batch_loop. apply insert_in_batches_uploads.
Qed.

Section Twice.

Variable JSON_parse : string -> Parsed.
Variable Date_parse : string -> option Z.
Variable computeChecksum : string -> string.
Variable now : Z.
Variable randomblob_hex : nat -> string.
Variable max_arguments : Z.

(** The row that a successful ingestion leaves for the file. *)
Lemma ingest_success_row (file : File) (env : Env) (batchSize : option Z)
    (checksum content : string) (w w' : World)
    (filename checksum' : string) (fileId total inserted deduped : Z)
    (errors : list string) (time_range : Z * Z) (outside : bool) :
  ingest JSON_parse Date_parse now randomblob_hex max_arguments
    file env batchSize checksum content w
  = (Ok (success filename checksum' fileId total inserted deduped
           errors time_range outside), w') ->
  filename = f_name file /\ checksum' = checksum
  /\ exists u, upload_with checksum w' = Some u
               /\ up_id u = fileId
               /\ up_total_records u = Some total
               /\ up_inserted_records u = Some inserted
               /\ up_deduped_records u = Some deduped.
Proof.
  unfold ingest. intros H.
  apply bind_Ok in H. destruct H as (id & wA & Hinsert & H).
  apply insert_upload_Ok in Hinsert.
  apply bind_Ok in H. destruct H as ([] & wB & Hr2 & H).
  assert (HB : newest checksum id (fun _ => True) (uploads wB)).
  { destruct (R2_bound env && _).
    - apply bind_Ok in Hr2. destruct Hr2 as ([] & wA' & Hput & Hset).
      injection Hput as <-. injection Hset as <-. simpl.
      apply newest_update with (P := fun _ => True); auto.
    - injection Hr2 as <-. exact Hinsert. }
  apply bind_Ok in H. destruct H as (parsed & wB' & Hparse & H).
  unfold lift in Hparse. injection Hparse as _ <-.
  destruct (fst parsed) as [| first others].
  { apply bind_Ok in H. destruct H as (? & ? & _ & H). discriminate. }
  remember (Z.of_nat (List.length (first :: others))) as count eqn:Hcount.
  apply bind_Ok in H. destruct H as (totals & wC & Hloop & H).
  assert (HC : uploads wC = uploads wB).
  { pose proof (batch_loop_uploads now batchSize (first :: others) id wB) as E.
    rewrite Hloop in E. exact E. }
  apply bind_Ok in H. destruct H as ([] & wD & Hstats & H).
  assert (HD : newest checksum id
                 (fun u => up_total_records u = Some count
                           /\ up_inserted_records u = Some (fst totals)
                           /\ up_deduped_records u = Some (snd totals))
                 (uploads wD)).
  { assert (E : wD = snd (set_upload_stats count (fst totals) (snd totals) id wC))
      by (rewrite Hstats; reflexivity).
    rewrite E. unfold set_upload_stats, update_upload, modify, set_uploads.
    cbn [snd uploads]. rewrite HC.
    eapply newest_update; [| | | exact HB]; simpl; auto. }
  apply bind_Ok in H. destruct H as ([] & wE & Hroll & H).
  assert (HE : uploads wE = uploads wD).
  { assert (E : wE = snd (updateAnalyticsTables now randomblob_hex id wD))
      by (rewrite Hroll; reflexivity).
    rewrite E. rewrite updateAnalyticsTables_run.
    destruct (insert_daily now _ _); reflexivity. }
  unfold spread_call in H.
  destruct (Z.of_nat _ <=? max_arguments); [| discriminate].
  apply bind_Ok in H. destruct H as (? & ? & [= <- <-] & H).
  apply bind_Ok in H. destruct H as (? & ? & [= <- <-] & H).
  unfold toISOString in H.
  destruct (Z.abs _ <=? _); [| discriminate].
  apply bind_Ok in H. destruct H as (? & ? & [= <- <-] & H).
  destruct (Z.abs _ <=? _); [| discriminate].
  apply bind_Ok in H. destruct H as (? & ? & [= <- <-] & H).
  injection H as <- <- <- <- <- <- _ _ _ <-.
  repeat split.
  unfold upload_with. rewrite HE.
  destruct (newest_find _ _ _ _ HD) as (u & Hu & Hid & Ht & Hi & Hd).
  exists u. auto.
Qed.

(** Idempotence: after an upload that succeeded with at least one inserted
    row, an upload of the same content is answered [already_processed]
    with the same file id and the same three counts, and changes nothing. *)
Lemma processFile_twice (file : File) (env env' : Env)
    (batchSize batchSize' : option Z) (w w' : World)
    (filename checksum : string) (fileId total inserted deduped : Z)
    (errors : list string) (time_range : Z * Z) (outside : bool) :
  processFile JSON_parse Date_parse computeChecksum now randomblob_hex max_arguments
    file env batchSize w
  = (Ok (success filename checksum fileId total inserted deduped
           errors time_range outside), w') ->
  inserted <> 0 ->
  processFile JSON_parse Date_parse computeChecksum now randomblob_hex max_arguments
    file env' batchSize' w'
  = (Ok (already_processed filename checksum fileId inserted deduped total), w').
Proof.
  intros H Hins.
  assert (Hrow : filename = f_name file
                 /\ checksum = computeChecksum (f_text file)
                 /\ exists u, upload_with (computeChecksum (f_text file)) w' = Some u
                              /\ up_id u = fileId
                              /\ up_total_records u = Some total
                              /\ up_inserted_records u = Some inserted
                              /\ up_deduped_records u = Some deduped).
  { destruct (upload_with (computeChecksum (f_text file)) w) as [existing |] eqn:E.
    - destruct (Z.eq_dec (or_zero (up_inserted_records existing)) 0) as [Hz | Hnz].
      + rewrite (processFile_stale _ _ _ _ _ _ _ _ _ _ _ E Hz) in H.
        eapply ingest_success_row, H.
      + rewrite (processFile_done _ _ _ _ _ _ _ _ _ _ _ E Hnz) in H. discriminate.
    - rewrite (processFile_new _ _ _ _ _ _ _ _ _ _ E) in H.
      eapply ingest_success_row, H. }
  destruct Hrow as (-> & -> & u & Hu & <- & Ht & Hi & Hd).
  rewrite (processFile_done _ _ _ _ _ _ _ _ _ _ u Hu).
  - rewrite Ht, Hi, Hd. reflexivity.
  - rewrite Hi. exact Hins.
Qed.

End Twice.

(* ================================================================== *)
(** * attack_paths under draws that do not repeat *)
(* ================================================================== *)

(** When the hashes drawn for the selected rows are new to the table and
    differ from one another, the statement appends every selected row:
    the DO UPDATE is never reached. *)
Lemma fold_upsert_path_fresh (now : Z) (selected t : list PathRow) :
  NoDup (map ap_path_hash selected) ->
  (forall x r, In x selected -> In r t -> ap_path_hash r <> ap_path_hash x) ->
  fold_left (upsert_path now) selected t = t ++ selected.
Proof.
  revert t. induction selected as [| x selected IH]; simpl; intros t Hnd Hfresh.
  - rewrite app_nil_r. reflexivity.
  - inversion Hnd as [| ? ? Hnotin Hnd']; subst.
    rewrite upsert_path_fresh by (intros r Hr; apply (Hfresh x r); auto).
    rewrite IH; [rewrite <- app_assoc; reflexivity | exact Hnd' |].
    intros y r Hy Hr. apply in_app_or in Hr. destruct Hr as [Hr | [<- | []]].
    + apply (Hfresh y r); auto.
    + intros E. apply Hnotin. rewrite E. apply in_map, Hy.
Qed.

(* ================================================================== *)
(** * The scenarios of the specification, run on the embedding *)
(* ================================================================== *)

Example action_synonyms :
  normalizeAction (Some "Blocked") = block
  /\ normalizeAction (Some "BLOCK") = block
  /\ normalizeAction (Some "block") = block
  /\ normalizeAction (Some "managed_challenge") = challenge
  /\ normalizeAction (Some "JS-Challenge") = challenge
  /\ normalizeAction (Some "drop") = unknown_action
  /\ normalizeAction None = unknown_action.
Proof. repeat split. Qed.

Example parseInt_examples :
  parseInt "403" 10 = Some 403
  /\ parseInt "  -12px" 10 = Some (-12)
  /\ parseInt "0x1f" 0 = Some 31
  /\ parseInt "0x1f" 10 = Some 0
  /\ parseInt "px" 10 = None
  /\ parseInt EmptyString 0 = None.
Proof. repeat split. Qed.

(** Three lines, the second of which is not JSON: two events are inserted
    and one error is reported; the same file again is answered
    [already_processed] with the same counts. *)
Example ndjson_three_lines :
  let content :=
    (Fixtures.login_text ++ Fixtures.nl ++ "not json" ++ Fixtures.nl
       ++ Fixtures.retry_text)%string in
  let file := Fixtures.file_of "waf.ndjson" content in
  let first := Fixtures.processFile file Fixtures.env_plain (Some 1000)
                 Fixtures.empty_world in
  let second := Fixtures.processFile file Fixtures.env_plain (Some 1000)
                  (snd first) in
  fst first
  = Ok (success "waf.ndjson" content 1 2 2 0
          ["Failed to parse line: SyntaxError: Unexpected token"]
          (1700000000000, 1700000060000) false)
  /\ fst second = Ok (already_processed "waf.ndjson" content 1 2 0 2)
  /\ snd second = snd first.
Proof. repeat apply conj; vm_compute; reflexivity. Qed.

(** A batch size of 1 cuts the two events into two batches; nothing is
    lost at the boundary. *)
Example batch_boundary :
  fst (Fixtures.processFile Fixtures.ndjson_file Fixtures.env_plain (Some 1)
         Fixtures.empty_world)
  = Ok (success "waf.ndjson" (f_text Fixtures.ndjson_file) 1 2 2 0 []
          (1700000000000, 1700000060000) false).
Proof. vm_compute. reflexivity. Qed.

(** The events of the fixtures are what the normalizer makes of the records. *)
Example fixture_events :
  parseWAFRecord Fixtures.Date_parse Fixtures.login_value = Some Fixtures.login_event
  /\ parseWAFRecord Fixtures.Date_parse Fixtures.retry_value = Some Fixtures.retry_event.
Proof. split; reflexivity. Qed.

(* ================================================================== *)
(** * insertEventBatch and the batch loops *)
(* ================================================================== *)

(** ** A batch for a file without its upload row *)

Lemma run_statements_foreign_key (fileId : Z) (stmts : list EventValues) :
  Forall (fun v => v_file_id v = fileId) stmts ->
  forall w : World,
    has_upload fileId (uploads w) = false ->
    (exists v, In v stmts /\ has_key v (waf_events w) = false) ->
    fst (run_statements stmts w)
    = Throw "Error: D1_ERROR: FOREIGN KEY constraint failed".
Proof.
  induction 1 as [| v rest Hv Hrest IH]; intros w Hup (v0 & Hin & Hkey).
  - destruct Hin.
  - simpl. unfold bind at 1.
    unfold insert_or_ignore, bind, get, modify, ret, throw.
    destruct (has_key v (waf_events w)) eqn:E.
    + cbn [fst snd].
      destruct Hin as [-> | Hin]; [congruence |].
      specialize (IH (skip_event w) Hup (ex_intro _ v0 (conj Hin Hkey))).
      unfold skip_event in IH.
      destruct (run_statements rest _) as [[cs | e |] w']; simpl in IH |- *;
        congruence.
    + rewrite Hv, Hup. reflexivity.
Qed.

Lemma insertEventBatch_foreign_key (now : Z) (events : list WAFEvent)
    (fileId : Z) (w : World) :
  has_upload fileId (uploads w) = false ->
  (exists e, In e events
             /\ has_key (bind_event now e fileId) (waf_events w) = false) ->
  insertEventBatch now events fileId w
  = (Throw "Error: D1_ERROR: FOREIGN KEY constraint failed", w).
Proof.
  intros Hup (e & Hin & Hkey).
  set (stmts := map (fun event => bind_event now event fileId) events).
  assert (H : fst (run_statements stmts w)
              = Throw "Error: D1_ERROR: FOREIGN KEY constraint failed").
  { apply (run_statements_foreign_key fileId); [| exact Hup |].
    - unfold stmts. apply Forall_forall. intros v Hv.
      apply in_map_iff in Hv. destruct Hv as (e' & <- & _). reflexivity.
    - exists (bind_event now e fileId). split; [| exact Hkey].
      unfold stmts. apply in_map_iff. exists e. split; [reflexivity | exact Hin]. }
  unfold insertEventBatch. fold stmts. unfold bind, db_batch.
  destruct stmts as [| v rest]; [discriminate H |].
  destruct (run_statements (v :: rest) w) as [[cs | e' |] w'];
    simpl in H; try discriminate.
  injection H as ->. reflexivity.
Qed.

(** X1: a batch with at least one event, for a file that has its upload
    row, returns two counts that are not negative and add up to the number
    of events; it appends to [waf_events] exactly [inserted] rows, each
    carrying the file id, keeps every row that was there, and leaves the
    uploads, the rollup tables and the bucket alone.  An empty batch is
    refused by D1, and a batch for a file id without upload row that
    carries a key not yet stored fails on the foreign key; either way
    nothing is written. *)
Theorem insertEventBatch_tally (now : Z) (events : list WAFEvent) (fileId : Z)
    (w : World) :
  (events <> [] -> has_upload fileId (uploads w) = true ->
   exists inserted deduped w' added,
     insertEventBatch now events fileId w = (Ok (inserted, deduped), w')
     /\ inserted + deduped = Z.of_nat (List.length events)
     /\ 0 <= inserted /\ 0 <= deduped
     /\ waf_events w' = waf_events w ++ added
     /\ Z.of_nat (List.length added) = inserted
     /\ Forall (fun r => v_file_id (e_vals r) = fileId) added
     /\ uploads w' = uploads w /\ rollups w' = rollups w /\ r2 w' = r2 w)
  /\ (events = [] ->
      insertEventBatch now events fileId w
      = (Throw "Error: D1_ERROR: No SQL statements detected.", w))
  /\ (has_upload fileId (uploads w) = false ->
      (exists e, In e events
                 /\ has_key (bind_event now e fileId) (waf_events w) = false) ->
      insertEventBatch now events fileId w
      = (Throw "Error: D1_ERROR: FOREIGN KEY constraint failed", w)).
Proof.
  repeat apply conj.
  - intros Hne Hup.
    set (stmts := map (fun event => bind_event now event fileId) events).
    destruct (run_batch_appends (fun v => v_file_id v = fileId) stmts w)
      as (added & Hev & Hlen & Hall & Hup' & Hroll & Hr2).
    { unfold stmts. apply Forall_forall. intros v Hv.
      apply in_map_iff in Hv. destruct Hv as (e & <- & _). reflexivity. }
    exists (count_of written (fst (run_batch stmts w))),
           (count_of suppressed (fst (run_batch stmts w))),
           (snd (run_batch stmts w)), added.
    repeat apply conj; try assumption.
    + apply insertEventBatch_run; assumption.
    + rewrite count_written_suppressed, run_batch_length.
      unfold stmts. now rewrite length_map.
    + unfold count_of. lia.
    + unfold count_of. lia.
  - intros ->. apply insertEventBatch_empty.
  - apply insertEventBatch_foreign_key.
Qed.

Lemma insertEventBatch_tally_witness :
  (exists inserted deduped w' added,
     insertEventBatch Fixtures.now [Fixtures.login_event; Fixtures.login_event] 1
       Fixtures.two_uploads
     = (Ok (inserted, deduped), w')
     /\ inserted + deduped = 2
     /\ 0 <= inserted /\ 0 <= deduped
     /\ waf_events w' = waf_events Fixtures.two_uploads ++ added
     /\ Z.of_nat (List.length added) = inserted
     /\ Forall (fun r => v_file_id (e_vals r) = 1) added
     /\ uploads w' = uploads Fixtures.two_uploads
     /\ rollups w' = rollups Fixtures.two_uploads
     /\ r2 w' = r2 Fixtures.two_uploads)
  /\ insertEventBatch Fixtures.now [] 1 Fixtures.two_uploads
     = (Throw "Error: D1_ERROR: No SQL statements detected.", Fixtures.two_uploads)
  /\ insertEventBatch Fixtures.now [Fixtures.login_event] 3 Fixtures.two_uploads
     = (Throw "Error: D1_ERROR: FOREIGN KEY constraint failed", Fixtures.two_uploads).
Proof.
  repeat apply conj.
  - apply (proj1 (insertEventBatch_tally Fixtures.now
                    [Fixtures.login_event; Fixtures.login_event] 1
                    Fixtures.two_uploads));
      [discriminate | reflexivity].
  - apply (proj1 (proj2 (insertEventBatch_tally Fixtures.now [] 1
                           Fixtures.two_uploads))).
    reflexivity.
  - apply (proj2 (proj2 (insertEventBatch_tally Fixtures.now
                           [Fixtures.login_event] 3 Fixtures.two_uploads)));
      [reflexivity |].
    exists Fixtures.login_event. split; [left; reflexivity | reflexivity].
Defined.

(** ** The loops are one batch, cut in pieces *)

Lemma firstn_skipn_map {A B} (f : A -> B) (n : nat) (l : list A) :
  map f l = map f (firstn n l) ++ map f (skipn n l).
Proof. rewrite <- map_app, firstn_skipn. reflexivity. Qed.

(** The batch that the loop cuts at index [k] with a positive step. *)
Lemma slice_window {A} (l : list A) (k n : Z) :
  0 <= k < Z.of_nat (List.length l) -> 0 < n ->
  slice l (Some k) (num_add (Some k) (Some n))
  = firstn (Z.to_nat n) (skipn (Z.to_nat k) l).
Proof.
  intros Hk Hn. unfold slice, relative_index, num_add.
  destruct (Z.ltb_spec k 0); [lia |].
  destruct (Z.ltb_spec (k + n) 0); [lia |].
  rewrite (Z.min_l k) by lia.
  destruct (Z.le_ge_cases (k + n) (Z.of_nat (List.length l))) as [Hle | Hge].
  - rewrite Z.min_l by lia. replace (k + n - k) with n by lia. reflexivity.
  - rewrite Z.min_r by lia.
    rewrite !firstn_all2; [reflexivity | |]; rewrite length_skipn; lia.
Qed.

Lemma slice_window_nonempty {A} (l : list A) (k n : Z) :
  0 <= k < Z.of_nat (List.length l) -> 0 < n ->
  firstn (Z.to_nat n) (skipn (Z.to_nat k) l) <> [].
Proof.
  intros Hk Hn E. apply (f_equal (@List.length A)) in E.
  rewrite length_firstn, length_skipn in E. simpl in E. lia.
Qed.

Lemma skipn_window {A} (l : list A) (k n : Z) :
  0 <= k -> 0 < n ->
  skipn (Z.to_nat (k + n)) l = skipn (Z.to_nat n) (skipn (Z.to_nat k) l).
Proof.
  intros Hk Hn. rewrite skipn_skipn. f_equal. lia.
Qed.

(** The two loops are the same statements in the same order. *)
Lemma reinsert_in_batches_insert (now : Z) (fuel : nat) (i n : option Z)
    (events : list WAFEvent) (fileId inserted deduped : Z) (w : World) :
  reinsert_in_batches now fuel i n events fileId inserted deduped w
  = insert_in_batches now fuel i n events fileId inserted deduped w.
Proof.
  revert i inserted deduped w.
  induction fuel as [| fuel IH]; intros i inserted deduped w; simpl;
    [reflexivity |].
  destruct (num_lt i (Z.of_nat (List.length events))); [| reflexivity].
  unfold insertEventBatch, bind.
  destruct (db_batch _ w) as [[results | e |] w1]; try reflexivity.
  unfold ret. rewrite IH, !count_results_spec. cbn [fst snd].
  rewrite !Z.add_0_l. reflexivity.
Qed.

(** With a positive step and the upload row in place, the loop from index
    [k] is one batch of the events from [k] on. *)
Lemma insert_in_batches_run (now n fileId : Z) (events : list WAFEvent) :
  0 < n ->
  forall (fuel : nat) (k inserted deduped : Z) (w : World),
    0 <= k ->
    Z.of_nat (List.length events) - k < Z.of_nat fuel -> (0 < fuel)%nat ->
    has_upload fileId (uploads w) = true ->
    let stmts := map (fun event => bind_event now event fileId)
                   (skipn (Z.to_nat k) events) in
    insert_in_batches now fuel (Some k) (Some n) events fileId inserted deduped w
    = (Ok (inserted + count_of written (fst (run_batch stmts w)),
           deduped + count_of suppressed (fst (run_batch stmts w))),
       snd (run_batch stmts w)).
Proof.
  intros Hn.
  induction fuel as [| fuel IH]; intros k inserted deduped w Hk Hfuel Hpos Hup;
    [lia |].
  cbv zeta. unfold insert_in_batches; fold insert_in_batches.
  unfold num_lt.
  destruct (Z.ltb_spec k (Z.of_nat (List.length events))) as [Hlt | Hge].
  - rewrite slice_window by lia.
    unfold bind at 1.
    rewrite insertEventBatch_run;
      [| apply slice_window_nonempty; lia | exact Hup].
    cbv zeta. unfold num_add.
    rewrite IH; [| lia | lia | lia | rewrite run_batch_uploads; exact Hup].
    cbv zeta. rewrite skipn_window by lia.
    rewrite (firstn_skipn_map (fun event => bind_event now event fileId)
               (Z.to_nat n) (skipn (Z.to_nat k) events)).
    rewrite run_batch_app. cbn [fst snd]. rewrite !count_of_app.
    rewrite !Z.add_assoc. reflexivity.
  - rewrite skipn_all2 by lia. simpl. unfold ret, count_of. simpl.
    rewrite !Z.add_0_r. reflexivity.
Qed.

(** With a positive batch size, the loop of [processFile] gives the totals
    and the world of one run of all the statements. *)
Lemma batch_loop_run (now n : Z) (events : list WAFEvent) (fileId : Z)
    (w : World) :
  0 < n ->
  has_upload fileId (uploads w) = true ->
  let stmts := map (fun event => bind_event now event fileId) events in
  batch_loop now (Some n) events fileId w
  = (Ok (count_of written (fst (run_batch stmts w)),
         count_of suppressed (fst (run_batch stmts w))),
     snd (run_batch stmts w)).
Proof.
  intros Hn Hup. unfold batch_loop.
  rewrite insert_in_batches_run by (try assumption; simpl; lia).
  reflexivity.
Qed.

Lemma batch_loop_one_batch (now : Z) (n : Z) (events : list WAFEvent)
    (fileId : Z) (w : World) :
  0 < n ->
  has_upload fileId (uploads w) = true ->
  events <> [] ->
  batch_loop now (Some n) events fileId w = insertEventBatch now events fileId w.
Proof.
  intros Hn Hup Hne.
  rewrite batch_loop_run, insertEventBatch_run by assumption. reflexivity.
Qed.

Lemma bind_ext {A B} (m : M A) (k k' : A -> M B) (w : World) :
  (forall a w', m w = (Ok a, w') -> k a w' = k' a w') ->
  bind m k w = bind m k' w.
Proof.
  intros H. unfold bind. destruct (m w) as [[a | e |] w']; auto.
Qed.

Lemma insert_upload_has_upload (filename checksum : string) (size now id : Z)
    (w w' : World) :
  insert_upload filename checksum size now w = (Ok id, w') ->
  has_upload id (uploads w') = true.
Proof.
  unfold insert_upload, bind, get, ret, throw, modify.
  destruct (existsb _ (uploads w)); [discriminate |].
  intros [= <- <-]. cbn [uploads]. unfold has_upload.
  rewrite existsb_app. simpl. rewrite Z.eqb_refl. apply orb_true_r.
Qed.

Lemma has_upload_update (id id' : Z) (f : UploadRow -> UploadRow)
    (t : list UploadRow) :
  (forall u, up_id (f u) = up_id u) ->
  has_upload id (map (fun u => if up_id u =? id' then f u else u) t)
  = has_upload id t.
Proof.
  intros Hf. unfold has_upload. induction t as [| u t IH]; simpl; [reflexivity |].
  rewrite IH. destruct (up_id u =? id'); [rewrite Hf |]; reflexivity.
Qed.

(** X2: where the batches are cut changes nothing: for a positive batch
    size, at least one event and a file that has its upload row, the loop
    of [processFile] is one [insertEventBatch] over all the events, and
    the answer and the world that [processFile] gives are the same for any
    two positive batch sizes. *)
Theorem batch_size_is_immaterial
    (JSON_parse : string -> Parsed) (Date_parse : string -> option Z)
    (computeChecksum : string -> string) (now : Z) (randomblob_hex : nat -> string)
    (max_arguments : Z)
    (file : File) (env : Env) (n1 n2 : Z) (w : World) :
  0 < n1 -> 0 < n2 ->
  (forall events fileId w',
      events <> [] -> has_upload fileId (uploads w') = true ->
      batch_loop now (Some n1) events fileId w'
      = insertEventBatch now events fileId w')
  /\ processFile JSON_parse Date_parse computeChecksum now randomblob_hex max_arguments
       file env (Some n1) w
     = processFile JSON_parse Date_parse computeChecksum now randomblob_hex max_arguments
         file env (Some n2) w.
Proof.
  intros H1 H2. split; [intros; now apply batch_loop_one_batch |].
  assert (Hingest : forall checksum content w',
             ingest JSON_parse Date_parse now randomblob_hex max_arguments
               file env (Some n1) checksum content w'
             = ingest JSON_parse Date_parse now randomblob_hex max_arguments
                 file env (Some n2) checksum content w').
  { intros checksum content w'. unfold ingest.
    apply bind_ext. intros fileId w1 Hinsert.
    apply insert_upload_has_upload in Hinsert.
    apply bind_ext. intros [] w2 Hr2.
    assert (Hup : has_upload fileId (uploads w2) = true).
    { destruct (R2_bound env && _).
      - apply bind_Ok in Hr2. destruct Hr2 as ([] & wA & Hput & Hset).
        injection Hput as <-. injection Hset as <-.
        unfold set_uploads. cbn [uploads].
        rewrite has_upload_update by reflexivity. exact Hinsert.
      - injection Hr2 as <-. exact Hinsert. }
    apply bind_ext. intros parsed w3 Hparse.
    unfold lift in Hparse. injection Hparse as _ <-.
    destruct (fst parsed) as [| first others]; [reflexivity |].
    unfold bind at 1. rewrite batch_loop_run by assumption.
    symmetry.
    unfold bind at 1. rewrite batch_loop_run by assumption.
    reflexivity. }
  unfold processFile. apply bind_ext. intros [existing |] w' _; [| apply Hingest].
  destruct (or_zero (up_inserted_records existing) =? 0); [| reflexivity].
  apply bind_ext. intros u w'' _. apply Hingest.
Qed.

Lemma batch_size_is_immaterial_witness :
  batch_loop Fixtures.now (Some 1) [Fixtures.login_event; Fixtures.retry_event] 1
    Fixtures.two_uploads
  = insertEventBatch Fixtures.now [Fixtures.login_event; Fixtures.retry_event] 1
      Fixtures.two_uploads
  /\ Fixtures.processFile Fixtures.ndjson_file Fixtures.env_plain (Some 1)
       Fixtures.empty_world
     = Fixtures.processFile Fixtures.ndjson_file Fixtures.env_plain (Some 1000)
         Fixtures.empty_world.
Proof.
  pose proof (batch_size_is_immaterial Fixtures.JSON_parse Fixtures.Date_parse
                Fixtures.computeChecksum Fixtures.now Fixtures.randomblob_hex
                Fixtures.max_arguments
                Fixtures.ndjson_file Fixtures.env_plain 1 1000 Fixtures.empty_world
                ltac:(lia) ltac:(lia)) as [Hloop Hfile].
  split; [apply Hloop; [discriminate | reflexivity] | exact Hfile].
Defined.

(** ** Batch sizes that are not positive *)

Lemma slice_no_step {A} (l : list A) (i : option Z) :
  slice l i i = [].
Proof.
  unfold slice. rewrite Z.sub_diag. reflexivity.
Qed.

(** With the step NaN or 0, the first batch is empty and D1 refuses it. *)
Lemma insert_in_batches_no_step (now : Z) (batchSize : option Z)
    (e : WAFEvent) (rest : list WAFEvent) (fileId : Z) (w : World) :
  batchSize = None \/ batchSize = Some 0 ->
  batch_loop now batchSize (e :: rest) fileId w
  = (Throw "Error: D1_ERROR: No SQL statements detected.", w).
Proof.
  intros [-> | ->]; reflexivity.
Qed.

(** No statement of a batch runs for ever. *)
Lemma insertEventBatch_returns_or_throws (now : Z) (events : list WAFEvent)
    (fileId : Z) (w : World) :
  fst (insertEventBatch now events fileId w) <> Diverge.
Proof.
  assert (Hrun : forall l w0, fst (run_statements l w0) <> Diverge).
  { induction l as [| v l IH]; intros w0; simpl; [discriminate |].
    unfold bind at 1. unfold insert_or_ignore, bind, get, modify, ret, throw.
    destruct (has_key v (waf_events w0)); cbn [fst snd].
    - specialize (IH (skip_event w0)). unfold skip_event in IH.
      destruct (run_statements l _) as [[cs | e |] w1]; simpl in *; congruence.
    - destruct (has_upload _ _); cbn [fst snd]; [| discriminate].
      match goal with
      | |- context [run_statements l ?x] =>
          specialize (IH x); destruct (run_statements l x) as [[cs | e |] w1]
      end; simpl in *; congruence. }
  unfold insertEventBatch, bind, db_batch.
  destruct (map _ events) as [| v l]; [discriminate |].
  specialize (Hrun (v :: l) w).
  destruct (run_statements (v :: l) w) as [[cs | e |] w1]; simpl in *;
    congruence.
Qed.

(** With a negative step the second batch is empty: the loop ends in an
    exception, of its first batch or of D1 on the second. *)
Lemma slice_negative_step {A} (l : list A) (n : Z) :
  n < 0 -> slice l (Some n) (Some (n + n)) = [].
Proof.
  intros Hn. unfold slice, relative_index.
  destruct (Z.ltb_spec n 0); [| lia].
  destruct (Z.ltb_spec (n + n) 0); [| lia].
  replace (Z.to_nat _) with 0%nat by lia. reflexivity.
Qed.

Lemma batch_loop_negative_step (now n : Z) (e : WAFEvent) (rest : list WAFEvent)
    (fileId : Z) (w : World) :
  n < 0 ->
  exists error w', batch_loop now (Some n) (e :: rest) fileId w = (Throw error, w').
Proof.
  intros Hn. unfold batch_loop.
  change (S (List.length (e :: rest))) with (S (S (List.length rest))).
  assert (Hlen : 0 < Z.of_nat (List.length (e :: rest))) by (simpl; lia).
  remember (e :: rest) as events eqn:Hevents.
  cbn [insert_in_batches num_lt num_add]. rewrite Z.add_0_l.
  destruct (Z.ltb_spec 0 (Z.of_nat (List.length events))); [| lia].
  unfold bind at 1.
  pose proof (insertEventBatch_returns_or_throws now
                (slice events (Some 0) (Some n)) fileId w) as Hfirst.
  destruct (insertEventBatch now _ fileId w) as [[r | error |] w1];
    [| eauto | contradiction Hfirst; reflexivity].
  destruct (Z.ltb_spec n (Z.of_nat (List.length events))); [| lia].
  rewrite slice_negative_step by exact Hn.
  unfold bind. rewrite insertEventBatch_empty. eauto.
Qed.

(** With a positive step the loop passes the end of the events: it has a
    turn for every batch and one to leave. *)
Lemma insert_in_batches_ends (now n fileId : Z) (events : list WAFEvent) :
  0 < n ->
  forall (fuel : nat) (k inserted deduped : Z) (w : World),
    0 <= k ->
    Z.of_nat (List.length events) - k < Z.of_nat fuel -> (0 < fuel)%nat ->
    fst (insert_in_batches now fuel (Some k) (Some n) events fileId
           inserted deduped w) <> Diverge.
Proof.
  intros Hn.
  induction fuel as [| fuel IH]; intros k inserted deduped w Hk Hfuel Hpos;
    [lia |].
  unfold insert_in_batches; fold insert_in_batches. unfold num_lt, num_add.
  destruct (Z.ltb_spec k (Z.of_nat (List.length events))); [| discriminate].
  unfold bind.
  pose proof (insertEventBatch_returns_or_throws now
                (slice events (Some k) (Some (k + n))) fileId w) as Hbatch.
  destruct (insertEventBatch now _ fileId w) as [[r | e |] w1];
    [apply IH; lia | discriminate | contradiction Hbatch; reflexivity].
Qed.

(** The loop ends for every batch size. *)
Lemma batch_loop_ends (now : Z) (batchSize : option Z)
    (events : list WAFEvent) (fileId : Z) (w : World) :
  fst (batch_loop now batchSize events fileId w) <> Diverge.
Proof.
  destruct events as [| e rest]; [discriminate |].
  destruct batchSize as [n |].
  - destruct (Z.lt_trichotomy n 0) as [Hneg | [-> | Hpos]].
    + destruct (batch_loop_negative_step now n e rest fileId w Hneg)
        as (error & w' & ->).
      discriminate.
    + rewrite insert_in_batches_no_step by (right; reflexivity). discriminate.
    + unfold batch_loop. apply insert_in_batches_ends; simpl; lia.
  - rewrite insert_in_batches_no_step by (left; reflexivity). discriminate.
Qed.

(** X3: the batch loop written inline in the reindex handler and the loop
    of [processFile] over [insertEventBatch] are the same computation, for
    every batch size, and neither runs for ever.  Without events both
    return two zeros and write nothing; with events and the batch size NaN
    or 0 both hand D1 an empty batch at once and throw its error with
    nothing written, and with a negative batch size both end in an
    exception. *)
Theorem reinsert_is_batch_loop (now : Z) (batchSize : option Z)
    (events : list WAFEvent) (fileId : Z) (w : World) :
  reinsert now batchSize events fileId w = batch_loop now batchSize events fileId w
  /\ reinsert now batchSize [] fileId w = (Ok (0, 0), w)
  /\ (forall e rest,
        reinsert now None (e :: rest) fileId w
        = (Throw "Error: D1_ERROR: No SQL statements detected.", w)
        /\ reinsert now (Some 0) (e :: rest) fileId w
           = (Throw "Error: D1_ERROR: No SQL statements detected.", w))
  /\ (forall n e rest,
        n < 0 ->
        exists error w',
          reinsert now (Some n) (e :: rest) fileId w = (Throw error, w'))
  /\ fst (reinsert now batchSize events fileId w) <> Diverge.
Proof.
  assert (Hsame : forall size l,
             reinsert now size l fileId w = batch_loop now size l fileId w).
  { intros size l. unfold reinsert, batch_loop. apply reinsert_in_batches_insert. }
  repeat apply conj.
  - apply Hsame.
  - reflexivity.
  - intros e rest. rewrite !Hsame.
    split; apply insert_in_batches_no_step; [left | right]; reflexivity.
  - intros n e rest Hn. rewrite Hsame. apply batch_loop_negative_step, Hn.
  - rewrite Hsame. apply batch_loop_ends.
Qed.

Lemma reinsert_is_batch_loop_witness :
  reinsert Fixtures.now (Some 1) [Fixtures.login_event; Fixtures.retry_event] 1
    Fixtures.two_uploads
  = batch_loop Fixtures.now (Some 1) [Fixtures.login_event; Fixtures.retry_event] 1
      Fixtures.two_uploads
  /\ exists error w',
       reinsert Fixtures.now (Some (-1))
         [Fixtures.login_event; Fixtures.retry_event] 1 Fixtures.two_uploads
       = (Throw error, w').
Proof.
  split.
  - apply (proj1 (reinsert_is_batch_loop Fixtures.now (Some 1)
                    [Fixtures.login_event; Fixtures.retry_event] 1
                    Fixtures.two_uploads)).
  - apply (proj1 (proj2 (proj2 (proj2 (reinsert_is_batch_loop Fixtures.now None
                                         [] 1 Fixtures.two_uploads))))).
    lia.
Defined.

(* ================================================================== *)
(** * What every event of the normalizer satisfies *)
(* ================================================================== *)

Lemma extractString_absent_or_nonempty (v : JsVal) :
  absent_or_nonempty (extractString v).
Proof.
  unfold absent_or_nonempty. destruct v; simpl; try discriminate.
  destruct (String.eqb_spec s EmptyString); [discriminate |].
  intros [= ->]. contradiction.
Qed.

Lemma safeString_absent_or_nonempty (v : JsVal) :
  absent_or_nonempty (safeString v).
Proof. exact (extractString_absent_or_nonempty v). Qed.

Lemma str_or_absent_or_nonempty (a b : option string) :
  absent_or_nonempty b -> absent_or_nonempty (str_or a b).
Proof.
  unfold absent_or_nonempty, str_or. intros Hb.
  destruct a as [s |]; [| exact Hb].
  destruct (String.eqb_spec s EmptyString); [exact Hb |].
  intros [= ->]. contradiction.
Qed.

Lemma str_or_None_r (a : option string) :
  absent_or_nonempty a -> str_or a None = a.
Proof.
  unfold absent_or_nonempty, str_or. intros Ha.
  destruct a as [s |]; [| reflexivity].
  destruct (String.eqb_spec s EmptyString) as [-> | _];
    [contradiction | reflexivity].
Qed.

Lemma num_or_undefined_id (n : option Z) :
  n <> Some 0 -> num_or_undefined n = n.
Proof.
  destruct n as [z |]; simpl; [| reflexivity].
  destruct (Z.eqb_spec z 0) as [-> | _]; [contradiction | reflexivity].
Qed.

Lemma absent_None : absent_or_nonempty None.
Proof. discriminate. Qed.

Create HintDb texts.
#[local] Hint Resolve extractString_absent_or_nonempty
  safeString_absent_or_nonempty str_or_absent_or_nonempty absent_None : texts.

(** The optional texts of a returned event are absent or not empty. *)
Lemma parseWAFRecord_texts (Date_parse : string -> option Z)
    (raw : JsVal) (e : WAFEvent) :
  parseWAFRecord Date_parse raw = Some e ->
  Forall absent_or_nonempty (optional_texts e).
Proof.
  unfold parseWAFRecord, parseWAFRecord_exn, parseWAFRecord_try.
  destruct (is_nullish raw); [discriminate |].
  destruct (rayId_of raw) as [rayId |]; [| discriminate].
  destruct (normalizeTimestamp Date_parse (timestamp_of raw)) as [ts |];
    [| discriminate].
  destruct (ts =? 0); [discriminate |].
  intros [= <-]. unfold optional_texts.
  cbn [Parser.src_ip Parser.src_country
       Parser.colo Parser.host Parser.path Parser.method Parser.rule_name
       Parser.service Parser.mitigation_reason Parser.ua Parser.ja3 rule_id].
  repeat (apply Forall_cons; [auto 10 with texts |]). apply Forall_nil.
Qed.

(** X4: every event that [parseWAFRecord] returns has a ray id that is not
    empty and a timestamp that is not 0; each of its optional texts is
    absent or not empty, never the empty string; and an event without rule
    id has the rule type unknown. *)
Theorem parseWAFRecord_wellformed (Date_parse : string -> option Z)
    (raw : JsVal) (e : WAFEvent) :
  parseWAFRecord Date_parse raw = Some e ->
  ray_id e <> EmptyString
  /\ event_ts e <> 0
  /\ Forall absent_or_nonempty (optional_texts e)
  /\ (rule_id e = None -> rule_type e = unknown_rule).
Proof.
  unfold parseWAFRecord, parseWAFRecord_exn, parseWAFRecord_try.
  destruct (is_nullish raw); [discriminate |].
  destruct (rayId_of raw) as [rayId |] eqn:Hray; [| discriminate].
  destruct (normalizeTimestamp Date_parse (timestamp_of raw)) as [ts |];
    [| discriminate].
  destruct (Z.eqb_spec ts 0) as [| Hts]; [discriminate |].
  intros [= <-]. unfold optional_texts.
  cbn [ray_id event_ts rule_id rule_type Parser.src_ip Parser.src_country
       Parser.colo Parser.host Parser.path Parser.method Parser.rule_name
       Parser.service Parser.mitigation_reason Parser.ua Parser.ja3].
  repeat apply conj.
  - assert (H : absent_or_nonempty (rayId_of raw))
      by (unfold rayId_of; auto 10 with texts).
    rewrite Hray in H. intros ->. apply H. reflexivity.
  - exact Hts.
  - repeat (apply Forall_cons; [auto 10 with texts |]). apply Forall_nil.
  - apply determineRuleType_no_rule.
Qed.

Lemma parseWAFRecord_wellformed_witness :
  ray_id Fixtures.login_event <> EmptyString
  /\ event_ts Fixtures.login_event <> 0
  /\ Forall absent_or_nonempty (optional_texts Fixtures.login_event)
  /\ (rule_id Fixtures.login_event = None ->
      rule_type Fixtures.login_event = unknown_rule).
Proof.
  apply (parseWAFRecord_wellformed Fixtures.Date_parse Fixtures.login_value).
  reflexivity.
Defined.

(** X5: for an event that [parseWAFRecord] returned, the row that
    [insertEventBatch] binds carries every field as it is: none of the
    [|| null] of the binding changes a value, so what is stored is what
    was parsed, with the file id and the time of insertion. *)
Theorem bind_event_lossless (Date_parse : string -> option Z) (now fileId : Z)
    (raw : JsVal) (e : WAFEvent) :
  parseWAFRecord Date_parse raw = Some e ->
  bind_event now e fileId = values_of_event now e fileId.
Proof.
  intros He.
  pose proof (parseWAFRecord_texts _ _ _ He) as Htexts.
  destruct (parseWAFRecord_numeric_fields _ _ _ He) as (Ha & Hs & Hb & Ht).
  unfold optional_texts in Htexts.
  repeat match goal with
         | H : Forall _ (_ :: _) |- _ =>
             let Hx := fresh "Hx" in
             let Hr := fresh "Hr" in
             inversion H as [| ? ? Hx Hr]; subst; clear H
         end.
  unfold bind_event, values_of_event, num_or_null.
  rewrite !str_or_None_r by assumption.
  rewrite !num_or_undefined_id
    by (first [rewrite Ha | rewrite Hs | rewrite Hb | rewrite Ht];
        apply num_or_undefined_not_zero).
  reflexivity.
Qed.

Lemma bind_event_lossless_witness :
  bind_event Fixtures.now Fixtures.login_event 7
  = values_of_event Fixtures.now Fixtures.login_event 7.
Proof.
  apply (bind_event_lossless Fixtures.Date_parse Fixtures.now 7
           Fixtures.login_value).
  reflexivity.
Defined.

(* ================================================================== *)
(** * normalizeAction *)
(* ================================================================== *)

Lemma to_lower_idempotent (c : ascii) : to_lower (to_lower c) = to_lower c.
Proof. destruct c as [[] [] [] [] [] [] [] []]; reflexivity. Qed.

Lemma toLowerCase_idempotent (s : string) :
  toLowerCase (toLowerCase s) = toLowerCase s.
Proof.
  induction s as [| c s IH]; simpl; [reflexivity |].
  now rewrite to_lower_idempotent, IH.
Qed.

Lemma toLowerCase_app (s1 s2 : string) :
  toLowerCase (s1 ++ s2) = (toLowerCase s1 ++ toLowerCase s2)%string.
Proof. induction s1 as [| c s1 IH]; simpl; [reflexivity | now rewrite IH]. Qed.

Lemma strip_separators_app (s1 s2 : string) :
  strip_separators (s1 ++ s2)
  = (strip_separators s1 ++ strip_separators s2)%string.
Proof.
  induction s1 as [| c s1 IH]; simpl; [reflexivity |].
  destruct (Ascii.eqb c "_" || Ascii.eqb c "-")%char%bool; simpl; now rewrite IH.
Qed.

(** [normalizeAction] is decided by the lower-cased text without its
    separators. *)
Lemma normalizeAction_normal_form (s s' : string) :
  strip_separators (toLowerCase s) = strip_separators (toLowerCase s') ->
  normalizeAction (Some s) = normalizeAction (Some s').
Proof.
  intros H. unfold normalizeAction.
  destruct (String.eqb_spec s EmptyString) as [-> | _];
    destruct (String.eqb_spec s' EmptyString) as [-> | _].
  - reflexivity.
  - rewrite <- H. reflexivity.
  - rewrite H. reflexivity.
  - rewrite H. reflexivity.
Qed.

(** X6: [normalizeAction] does not see the case of the letters nor the
    underscores and hyphens of its argument: two texts with the same lower
    case form are given the same action, and an underscore or a hyphen can
    be put in or taken out anywhere; the name under which each of the six
    actions is stored normalizes to that action. *)
Theorem normalizeAction_insensitive :
  (forall s s', toLowerCase s = toLowerCase s' ->
     normalizeAction (Some s) = normalizeAction (Some s'))
  /\ (forall s1 s2,
        normalizeAction (Some (s1 ++ "_" ++ s2)%string)
        = normalizeAction (Some (s1 ++ s2)%string)
        /\ normalizeAction (Some (s1 ++ "-" ++ s2)%string)
           = normalizeAction (Some (s1 ++ s2)%string))
  /\ (forall a, normalizeAction (Some (action_text a)) = a).
Proof.
  repeat apply conj.
  - intros s s' H. apply normalizeAction_normal_form. now rewrite H.
  - intros s1 s2. split; apply normalizeAction_normal_form;
      rewrite !toLowerCase_app, !strip_separators_app; reflexivity.
  - intros []; reflexivity.
Qed.

Lemma normalizeAction_insensitive_witness :
  normalizeAction (Some "Managed_Challenge") = normalizeAction (Some "managed_challenge")
  /\ normalizeAction (Some "js-challenge") = normalizeAction (Some "jschallenge").
Proof.
  destruct normalizeAction_insensitive as (Hcase & Hsep & _).
  split.
  - apply Hcase. reflexivity.
  - apply (Hsep "js" "challenge").
Defined.

(* ================================================================== *)
(** * parseContent on a JSON array *)
(* ================================================================== *)

Lemma record_events_length (Date_parse : string -> option Z) (data : list JsVal) :
  (List.length (flat_map (record_events Date_parse) data) <= List.length data)%nat.
Proof.
  induction data as [| record data IH]; simpl; [lia |].
  rewrite length_app. unfold record_events at 1.
  destruct (parseWAFRecord Date_parse record); simpl; lia.
Qed.

(** X7: when the content is a JSON array, [parseContent] gives the events
    of its elements in their order, at most one per element, and no error
    at all: an element that the normalizer rejects, whatever it is, is
    dropped without a message, and the lines of the content are not read. *)
Theorem parseContent_array_mode (JSON_parse : string -> Parsed)
    (Date_parse : string -> option Z) (content : string) (data : list JsVal) :
  JSON_parse content = Value (JArr data) ->
  parseContent JSON_parse Date_parse content
  = Ok (flat_map (record_events Date_parse) data, [])
  /\ (List.length (flat_map (record_events Date_parse) data)
      <= List.length data)%nat.
Proof.
  intros H. split; [| apply record_events_length].
  unfold parseContent. rewrite H. apply parse_records_spec.
Qed.

Lemma parseContent_array_mode_witness :
  parseContent Fixtures.JSON_parse_with_array Fixtures.Date_parse
    Fixtures.array_text
  = Ok ([Fixtures.login_event; Fixtures.retry_event], []).
Proof.
  apply (parseContent_array_mode Fixtures.JSON_parse_with_array
           Fixtures.Date_parse Fixtures.array_text
           [Fixtures.login_value; Fixtures.retry_value; JNull]).
  reflexivity.
Defined.

(* ================================================================== *)
(** * The totals of the rollup tables *)
(* ================================================================== *)

Section Groups.

Context {K V : Type} (eqb : K -> K -> bool) (key : V -> K).
Hypothesis eqb_eq : forall a b, eqb a b = true <-> a = b.

Lemma distinct_In_any (l : list K) (x : K) :
  In x (distinct eqb l) <-> In x l.
Proof.
  induction l as [| a l IH]; simpl; [tauto |].
  rewrite filter_In, IH.
  destruct (eqb a x) eqn:E; simpl.
  - apply eqb_eq in E. subst. tauto.
  - split; [tauto |]. intros [H | H]; [| tauto].
    subst. assert (eqb x x = true) by now apply eqb_eq. congruence.
Qed.

Lemma distinct_NoDup_any (l : list K) : NoDup (distinct eqb l).
Proof.
  induction l as [| a l IH]; simpl; constructor.
  - rewrite filter_In. intros [_ H].
    assert (eqb a a = true) by now apply eqb_eq.
    rewrite H0 in H. discriminate.
  - apply NoDup_filter, IH.
Qed.

Lemma sumZ_indicator (ks : list K) (x : K) :
  NoDup ks -> In x ks ->
  sumZ (map (fun k => if eqb x k then 1 else 0) ks) = 1.
Proof.
  induction ks as [| k ks IH]; simpl; intros Hnd Hin; [destruct Hin |].
  inversion Hnd as [| ? ? Hnotin Hnd']; subst.
  destruct (eqb x k) eqn:E.
  - apply eqb_eq in E. subst k.
    assert (Hz : sumZ (map (fun k => if eqb x k then 1 else 0) ks) = 0).
    { clear IH Hnd Hnd' Hin. induction ks as [| k ks IH]; simpl; [reflexivity |].
      destruct (eqb x k) eqn:E.
      - apply eqb_eq in E. subst. exfalso. apply Hnotin. left. reflexivity.
      - rewrite IH; [reflexivity |]. intros H. apply Hnotin. right. exact H. }
    rewrite Hz. reflexivity.
  - destruct Hin as [-> | Hin].
    + assert (eqb x x = true) by now apply eqb_eq. congruence.
    + rewrite (IH Hnd' Hin). reflexivity.
Qed.

(** The groups of GROUP BY share out the rows: the sizes of the groups
    add up to the number of rows. *)
Lemma group_sizes (ks : list K) (l : list V) :
  NoDup ks -> (forall v, In v l -> In (key v) ks) ->
  sumZ (map (fun k => count_of (fun v => eqb (key v) k) l) ks)
  = Z.of_nat (List.length l).
Proof.
  intros Hnd. induction l as [| v l IH]; intros Hin.
  - unfold count_of. simpl. clear Hnd Hin.
    induction ks as [| k ks IHk]; simpl; auto.
  - replace (map (fun k => count_of (fun v0 => eqb (key v0) k) (v :: l)) ks)
      with (map (fun k => (if eqb (key v) k then 1 else 0)
                          + count_of (fun v0 => eqb (key v0) k) l) ks).
    + assert (Hsplit : forall (f g : K -> Z) ks',
                 sumZ (map (fun k => f k + g k) ks')
                 = sumZ (map f ks') + sumZ (map g ks')).
      { intros f g ks'. induction ks' as [| k ks' IH']; simpl; [reflexivity |].
        rewrite IH'. lia. }
      rewrite Hsplit, sumZ_indicator, IH; auto.
      * cbn [List.length]. rewrite Nat2Z.inj_succ. lia.
      * intros v' Hv'. apply Hin. right. exact Hv'.
      * apply Hin. left. reflexivity.
    + apply map_ext. intros k. unfold count_of. cbn [filter].
      destruct (eqb (key v) k); cbn [List.length];
        rewrite ?Nat2Z.inj_succ; lia.
Qed.


Lemma group_sizes_distinct (l : list V) :
  sumZ (map (fun k => count_of (fun v => eqb (key v) k) l)
          (distinct eqb (map key l)))
  = Z.of_nat (List.length l).
Proof.
  apply group_sizes; [apply distinct_NoDup_any |].
  intros v Hv. apply distinct_In_any, in_map, Hv.
Qed.

End Groups.

Section Totals.

Context {R : Type} (count : R -> Z).



End Totals.

Lemma opt_eqb_eq {A} (eqb : A -> A -> bool) :
  (forall x y, eqb x y = true <-> x = y) ->
  forall a b, opt_eqb eqb a b = true <-> a = b.
Proof.
  intros H [x |] [y |]; simpl; try rewrite H;
    split; congruence.
Qed.


Lemma path_key_eqb_eq (a b : PathKey) : path_key_eqb a b = true <-> a = b.
Proof.
  unfold path_key_eqb. destruct a as [[p m] s], b as [[p' m'] s']. simpl.
  rewrite !andb_true_iff, String.eqb_eq.
  rewrite (opt_eqb_eq String.eqb String.eqb_eq).
  rewrite (opt_eqb_eq Z.eqb Z.eqb_eq).
  split; [intros [[-> ->] ->]; reflexivity | intros [= -> -> ->]; tauto].
Qed.




Lemma map_snd_numbered {A B} (f : A -> B) (l : list A) (start : nat) :
  map (fun ik : nat * A => f (snd ik)) (combine (seq start (List.length l)) l)
  = map f l.
Proof.
  revert start. induction l as [| x l IH]; intros start; simpl; [reflexivity |].
  now rewrite IH.
Qed.







(** X9: when the rollup update completes and the hashes drawn for the rows
    that the attack_paths statement selects differ from one another and
    from the stored ones, the statement changes no stored row and appends
    every selected row, one per (path, method, status) of the file in the
    order of these keys, whether or not a stored row has the same path,
    method and status; the number of draws grows by the number of
    selected rows. *)
Theorem update_attack_paths_appends (now : Z) (randomblob_hex : nat -> string)
    (fileId : Z) (w w' : World) :
  let selected := select_paths now randomblob_hex (draws w) (file_rows fileId w) in
  updateAnalyticsTables now randomblob_hex fileId w = (Ok tt, w') ->
  NoDup (map ap_path_hash selected) ->
  (forall x r, In x selected -> In r (attack_paths w) ->
               ap_path_hash r <> ap_path_hash x) ->
  attack_paths w' = attack_paths w ++ selected
  /\ draws w' = (draws w + List.length selected)%nat
  /\ map (fun r => (ap_path r, ap_method r, ap_status r)) selected
     = group_keys path_key_leb path_key_eqb
         (map fst (with_path (file_rows fileId w)))
  /\ NoDup (map (fun r => (ap_path r, ap_method r, ap_status r)) selected).
Proof.
  intros selected H Hnd Hfresh.
  rewrite updateAnalyticsTables_run in H.
  destruct (insert_daily now _ (daily_actions w)) as [daily |]; [| discriminate].
  cbv zeta in H. injection H as <-. cbn [attack_paths draws].
  assert (Hkeys : map (fun r => (ap_path r, ap_method r, ap_status r)) selected
                  = group_keys path_key_leb path_key_eqb
                      (map fst (with_path (file_rows fileId w)))).
  { unfold selected, select_paths. rewrite map_map. cbn [ap_path ap_method ap_status].
    rewrite (map_snd_numbered (fun k : PathKey => (fst (fst k), snd (fst k), snd k))).
    rewrite <- (map_id (group_keys _ _ _)) at 2.
    apply map_ext. intros [[p m] s]. reflexivity. }
  repeat apply conj.
  - apply fold_upsert_path_fresh; assumption.
  - reflexivity.
  - exact Hkeys.
  - rewrite Hkeys.
    apply (Permutation_NoDup (Permutation_sym (group_keys_perm _ _ _))).
    apply (distinct_NoDup_any path_key_eqb path_key_eqb_eq).
Qed.

Lemma update_attack_paths_appends_witness :
  fst (Fixtures.updateAnalyticsTables 1 Fixtures.paths_stored) = Ok tt
  /\ map (fun r => (ap_path_hash r, ap_path r, ap_count r))
       (attack_paths (snd (Fixtures.updateAnalyticsTables 1 Fixtures.paths_stored)))
     = [(Fixtures.randomblob_hex 0, "/admin", 1);
        (Fixtures.randomblob_hex 1, "/login", 1)].
Proof.
  split; [vm_compute; reflexivity |].
  destruct (update_attack_paths_appends Fixtures.now Fixtures.randomblob_hex 1
              Fixtures.paths_stored
              (snd (Fixtures.updateAnalyticsTables 1 Fixtures.paths_stored)))
    as (Happ & _).
  - vm_compute. reflexivity.
  - vm_compute. repeat constructor; [intros [H | []]; discriminate H | intros []].
  - intros x r _ [].
  - rewrite Happ. vm_compute. reflexivity.
Defined.

(* ================================================================== *)
(** * handleReindex: refusals and effects *)
(* ================================================================== *)

Lemma insert_or_ignore_files (v : EventValues) :
  preserves files_part (insert_or_ignore v).
Proof.
  intros w. unfold insert_or_ignore, bind, get, modify, ret, throw.
  destruct (has_key v (waf_events w)); [reflexivity |].
  destruct (has_upload (v_file_id v) (uploads w)); reflexivity.
Qed.

Lemma db_batch_files (stmts : list EventValues) :
  preserves files_part (db_batch stmts).
Proof. apply db_batch_preserves, insert_or_ignore_files. Qed.

(** The statements of a batch that completes append the rows they write,
    whether the file has its upload row or not. *)
Lemma run_statements_appends (P : EventValues -> Prop) (stmts : list EventValues) :
  Forall P stmts ->
  forall (w w' : World) (cs : list Z),
    run_statements stmts w = (Ok cs, w') ->
    exists added,
      waf_events w' = waf_events w ++ added
      /\ Z.of_nat (List.length added) = count_of written cs
      /\ Forall (fun r => P (e_vals r)) added
      /\ uploads w' = uploads w /\ r2 w' = r2 w.
Proof.
  induction 1 as [| v rest Hv Hrest IH]; intros w w' cs H; simpl in H.
  - injection H as <- <-. exists []. rewrite app_nil_r.
    repeat split. constructor.
  - apply bind_Ok in H. destruct H as (c & w1 & Hstep & H).
    apply bind_Ok in H. destruct H as (cs' & w2 & Hrun & H).
    injection H as <- <-.
    destruct (IH _ _ _ Hrun) as (added & Hev & Hlen & Hall & Hup & Hr2).
    revert Hstep. unfold insert_or_ignore, bind, get, modify, ret, throw.
    destruct (has_key v (waf_events w)).
    + intros [= <- <-]. exists added. cbn in *.
      unfold count_of in *. cbn. repeat split; assumption.
    + destruct (has_upload (v_file_id v) (uploads w)); [| discriminate].
      intros [= <- <-]. exists (mkRow (events_seq w + 1) v :: added).
      cbn in *. rewrite Hev, <- app_assoc.
      repeat split; try assumption.
      * unfold count_of in *. cbn. cbn in Hlen. lia.
      * constructor; assumption.
Qed.

Lemma insertEventBatch_appends (now : Z) (events : list WAFEvent) (fileId : Z)
    (w w' : World) (r : Z * Z) :
  insertEventBatch now events fileId w = (Ok r, w') ->
  exists added,
    waf_events w' = waf_events w ++ added
    /\ Z.of_nat (List.length added) = fst r
    /\ Forall (fun row => v_file_id (e_vals row) = fileId) added
    /\ uploads w' = uploads w /\ r2 w' = r2 w.
Proof.
  unfold insertEventBatch. intros H.
  apply bind_Ok in H. destruct H as (cs & w1 & Hbatch & H).
  injection H as <- <-. rewrite count_results_spec. cbn [fst].
  rewrite Z.add_0_l.
  apply (run_statements_appends (fun v => v_file_id v = fileId)
           (map (fun event => bind_event now event fileId) events)).
  - apply Forall_forall. intros v Hv.
    apply in_map_iff in Hv. destruct Hv as (e & <- & _). reflexivity.
  - revert Hbatch. unfold db_batch.
    destruct (map _ events) as [| v l]; [discriminate |].
    destruct (run_statements (v :: l) w) as [[cs' | e |] w2];
      [intros H; exact H | discriminate | discriminate].
Qed.

Lemma insert_in_batches_appends (now : Z) (n : option Z)
    (events : list WAFEvent) (fileId : Z) (fuel : nat) :
  forall (i : option Z) (inserted deduped : Z) (w w' : World) (totals : Z * Z),
    insert_in_batches now fuel i n events fileId inserted deduped w
    = (Ok totals, w') ->
    exists added,
      waf_events w' = waf_events w ++ added
      /\ Z.of_nat (List.length added) = fst totals - inserted
      /\ Forall (fun row => v_file_id (e_vals row) = fileId) added
      /\ uploads w' = uploads w /\ r2 w' = r2 w.
Proof.
  induction fuel as [| fuel IH]; intros i inserted deduped w w' totals; simpl;
    [discriminate |].
  destruct (num_lt i (Z.of_nat (List.length events))).
  - intros H. apply bind_Ok in H. destruct H as (r & w1 & Hbatch & H).
    apply insertEventBatch_appends in Hbatch.
    destruct Hbatch as (added1 & Hev1 & Hlen1 & Hall1 & Hup1 & Hr1).
    apply IH in H. destruct H as (added2 & Hev2 & Hlen2 & Hall2 & Hup2 & Hr2).
    exists (added1 ++ added2). repeat apply conj.
    + rewrite Hev2, Hev1, app_assoc. reflexivity.
    + rewrite length_app, Nat2Z.inj_add. lia.
    + apply Forall_app. split; assumption.
    + congruence.
    + congruence.
  - intros [= <- <-]. exists []. rewrite app_nil_r. cbn [fst List.length].
    repeat split; [lia | constructor].
Qed.

(** What the inline loop of the handler does when it returns: it appends
    [inserted] rows of the file and moves nothing else. *)
Lemma reinsert_appends (now : Z) (batchSize : option Z)
    (events : list WAFEvent) (fileId : Z) (w w' : World) (totals : Z * Z) :
  reinsert now batchSize events fileId w = (Ok totals, w') ->
  exists added,
    waf_events w' = waf_events w ++ added
    /\ Z.of_nat (List.length added) = fst totals
    /\ Forall (fun r => v_file_id (e_vals r) = fileId) added
    /\ uploads w' = uploads w /\ r2 w' = r2 w.
Proof.
  unfold reinsert. rewrite reinsert_in_batches_insert. intros H.
  apply insert_in_batches_appends in H.
  destruct H as (added & Hev & Hlen & Hall & Hup & Hr2).
  exists added. rewrite Z.sub_0_r in Hlen. repeat split; assumption.
Qed.

Lemma reparse_Ok (JSON_parse : string -> Parsed) (Date_parse : string -> option Z)
    (content : string) :
  exists events errors, reparse JSON_parse Date_parse content = Ok (events, errors).
Proof.
  unfold reparse. destruct (JSON_parse content) as [[] |];
    rewrite ?parse_records_spec, ?parse_lines_spec; eauto.
Qed.

(** X10: the refusals of [handleReindex] change nothing.  A body whose
    checksum and file id are both missing or falsy (the empty text, the id
    0) is answered 400; a body that designates no upload row (by
    checksum when it has one, by file id otherwise) is answered 404; a row
    without raw key, or an environment without bucket, is answered 400; a
    raw key that the bucket does not hold is answered 404; in the four
    cases the world is what it was. *)
Theorem handleReindex_refusals (JSON_parse : string -> Parsed)
    (Date_parse : string -> option Z) (now : Z)
    (body : Body) (env : Env) (w : World) :
  (falsy_string (b_checksum body) = true ->
   falsy_number (b_file_id body) = true ->
   handleReindex JSON_parse Date_parse now body env w
   = (Ok (status_400 "Either checksum or file_id is required"), w))
  /\ (falsy_string (b_checksum body) && falsy_number (b_file_id body) = false ->
      (reindex_target body w = None ->
       handleReindex JSON_parse Date_parse now body env w
       = (Ok (status_404 "File not found"), w))
      /\ (forall info,
            reindex_target body w = Some info ->
            (R2_bound env = false \/ falsy_string (up_raw_r2_key info) = true ->
             handleReindex JSON_parse Date_parse now body env w
             = (Ok (status_400 "Raw file not available for reprocessing"), w))
            /\ (R2_bound env = true ->
                falsy_string (up_raw_r2_key info) = false ->
                r2_lookup (or_empty (up_raw_r2_key info)) (r2 w) = None ->
                handleReindex JSON_parse Date_parse now body env w
                = (Ok (status_404 "Raw file not found in R2"), w)))).
Proof.
  unfold handleReindex, handleReindex_try, reindex_target.
  split.
  - intros -> ->. reflexivity.
  - intros ->. cbn [negb].
    assert (Hsel : forall k : option UploadRow -> M Response,
               bind (if negb (falsy_string (b_checksum body))
                     then select_upload_by_checksum (or_empty (b_checksum body))
                     else select_upload_by_id (or_zero (b_file_id body))) k w
               = k (if negb (falsy_string (b_checksum body))
                    then find (fun u => String.eqb (up_checksum u)
                                          (or_empty (b_checksum body))) (uploads w)
                    else find (fun u => up_id u =? or_zero (b_file_id body))
                           (uploads w)) w).
    { intros k. destruct (negb (falsy_string (b_checksum body))); reflexivity. }
    rewrite Hsel. split.
    + intros ->. reflexivity.
    + intros info ->. split.
      * intros [-> | ->]; [reflexivity |].
        destruct (R2_bound env); reflexivity.
      * intros -> -> Hmiss. cbn [negb orb].
        unfold bind at 1, r2_get, bind at 1, get, ret. rewrite Hmiss.
        reflexivity.
Qed.

Lemma handleReindex_refusals_witness :
  Fixtures.handleReindex (mkBody (Some EmptyString) (Some 0)) Fixtures.env_r2
    Fixtures.empty_world
  = (Ok (status_400 "Either checksum or file_id is required"), Fixtures.empty_world)
  /\ Fixtures.handleReindex (mkBody None (Some 7)) Fixtures.env_r2
       Fixtures.empty_world
     = (Ok (status_404 "File not found"), Fixtures.empty_world).
Proof.
  destruct (handleReindex_refusals Fixtures.JSON_parse Fixtures.Date_parse
              Fixtures.now (mkBody (Some EmptyString) (Some 0)) Fixtures.env_r2
              Fixtures.empty_world) as [Hmissing _].
  destruct (handleReindex_refusals Fixtures.JSON_parse Fixtures.Date_parse
              Fixtures.now (mkBody None (Some 7)) Fixtures.env_r2
              Fixtures.empty_world) as [_ Hgiven].
  split.
  - apply Hmissing; reflexivity.
  - apply (Hgiven eq_refl). reflexivity.
Defined.

Lemma rows_of_file_deleted (fileId : Z) (t : list EventRow) :
  rows_of_file fileId (rows_of_others fileId t) = [].
Proof.
  unfold rows_of_file, rows_of_others.
  induction t as [| e t IH]; simpl; [reflexivity |].
  destruct (v_file_id (e_vals e) =? fileId) eqn:E; simpl; [exact IH |].
  rewrite E. exact IH.
Qed.

Lemma rows_of_others_idempotent (fileId : Z) (t : list EventRow) :
  rows_of_others fileId (rows_of_others fileId t) = rows_of_others fileId t.
Proof.
  unfold rows_of_others.
  induction t as [| e t IH]; simpl; [reflexivity |].
  destruct (v_file_id (e_vals e) =? fileId) eqn:E; simpl; [exact IH |].
  rewrite E. simpl. now rewrite IH.
Qed.

Lemma rows_of_added (fileId : Z) (added : list EventRow) :
  Forall (fun r => v_file_id (e_vals r) = fileId) added ->
  rows_of_file fileId added = added /\ rows_of_others fileId added = [].
Proof.
  unfold rows_of_file, rows_of_others.
  induction 1 as [| r added Hr _ [IH1 IH2]]; simpl; [split; reflexivity |].
  rewrite Hr, Z.eqb_refl. simpl. rewrite IH1, IH2. split; reflexivity.
Qed.

(** X11: when [handleReindex] answers 200, the statistics of every upload
    row with the file id are the three counts of the answer (written over,
    not added to, what was stored); the events stored for the file are
    exactly as many as the answer says were inserted; the events of the
    other files are what they were; the answer shows at most ten errors. *)
Theorem handleReindex_effects (JSON_parse : string -> Parsed)
    (Date_parse : string -> option Z) (now : Z)
    (body : Body) (env : Env) (w w' : World)
    (fileId : Z) (filename : string) (total inserted deduped : Z)
    (errors : list string) :
  handleReindex JSON_parse Date_parse now body env w
  = (Ok (status_200 fileId filename total inserted deduped errors), w') ->
  (forall u, In u (uploads w') -> up_id u = fileId ->
     up_total_records u = Some total
     /\ up_inserted_records u = Some inserted
     /\ up_deduped_records u = Some deduped)
  /\ Z.of_nat (List.length (rows_of_file fileId (waf_events w'))) = inserted
  /\ rows_of_others fileId (waf_events w') = rows_of_others fileId (waf_events w)
  /\ (List.length errors <= 10)%nat
  /\ exists info, reindex_target body w = Some info
                  /\ up_id info = fileId /\ up_filename info = filename.
Proof.
  unfold handleReindex. intros H.
  destruct (handleReindex_try JSON_parse Date_parse now body env w)
    as [[r | e |] w0] eqn:Htry; try discriminate.
  injection H as -> ->. revert Htry.
  unfold handleReindex_try, reindex_target.
  destruct (falsy_string (b_checksum body) && falsy_number (b_file_id body));
    [discriminate |].
  intros H. apply bind_Ok in H. destruct H as (fileInfo & w1 & Hsel & H).
  assert (Hfind : w1 = w
                  /\ fileInfo
                     = if negb (falsy_string (b_checksum body))
                       then find (fun u => String.eqb (up_checksum u)
                                             (or_empty (b_checksum body))) (uploads w)
                       else find (fun u => up_id u =? or_zero (b_file_id body))
                              (uploads w)).
  { destruct (negb (falsy_string (b_checksum body)));
      injection Hsel as <- <-; split; reflexivity. }
  destruct Hfind as [-> Hinfo]. clear Hsel.
  destruct fileInfo as [info |]; [| discriminate].
  destruct (negb (R2_bound env) || falsy_string (up_raw_r2_key info));
    [discriminate |].
  apply bind_Ok in H. destruct H as (r2Object & w1 & Hget & H).
  injection Hget as _ <-.
  destruct r2Object as [content |]; [| discriminate].
  apply bind_Ok in H. destruct H as ([] & w1 & Hdel & H).
  injection Hdel as <-.
  apply bind_Ok in H. destruct H as (parsed & w1 & Hparse & H).
  injection Hparse as _ <-.
  apply bind_Ok in H. destruct H as (totals & w2 & Hins & H).
  apply reinsert_appends in Hins.
  destruct Hins as (added & Hev & Hlen & Hall & Hup & _).
  apply bind_Ok in H. destruct H as ([] & w3 & Hstats & H).
  injection Hstats as <-.
  injection H as <- <- <- <- <- <- <-.
  destruct (rows_of_added (up_id info) added Hall) as [Hmine Hothers].
  repeat apply conj.
  - intros u Hu Hid. cbn in Hu. apply in_map_iff in Hu.
    destruct Hu as (y & <- & _).
    destruct (Z.eqb_spec (up_id y) (up_id info)) as [_ | Hne];
      [repeat split | contradiction].
  - cbn [waf_events set_upload_stats update_upload modify snd set_uploads].
    rewrite Hev. cbn [waf_events set_events].
    unfold rows_of_file in *. rewrite filter_app.
    fold (rows_of_others (up_id info) (waf_events w)).
    fold (rows_of_file (up_id info) (rows_of_others (up_id info) (waf_events w))).
    rewrite rows_of_file_deleted, Hmine. exact Hlen.
  - cbn [waf_events set_upload_stats update_upload modify snd set_uploads].
    rewrite Hev. cbn [waf_events set_events].
    unfold rows_of_others in *. rewrite filter_app, Hothers, app_nil_r.
    apply rows_of_others_idempotent.
  - change (List.length (firstn 10 (snd parsed)) <= 10)%nat.
    rewrite length_firstn. lia.
  - exists info. rewrite <- Hinfo. repeat split.
Qed.

Lemma handleReindex_effects_witness :
  let w0 := snd (Fixtures.processFile Fixtures.ndjson_file Fixtures.env_r2
                   (Some 1000) Fixtures.empty_world) in
  let w1 := snd (Fixtures.handleReindex (mkBody None (Some 1)) Fixtures.env_r2 w0) in
  Z.of_nat (List.length (rows_of_file 1 (waf_events w1))) = 2
  /\ rows_of_others 1 (waf_events w1) = rows_of_others 1 (waf_events w0).
Proof.
  intros w0 w1.
  destruct (handleReindex_effects Fixtures.JSON_parse Fixtures.Date_parse
              Fixtures.now (mkBody None (Some 1)) Fixtures.env_r2 w0 w1
              1 "waf.ndjson" 2 2 0 [])
    as (_ & Hcount & Hothers & _).
  - vm_compute. reflexivity.
  - split; assumption.
Defined.

(* ================================================================== *)
(** * What an ingestion leaves behind *)
(* ================================================================== *)

Lemma newest_update_from (checksum : string) (id : Z) (P P' : UploadRow -> Prop)
    (f : UploadRow -> UploadRow) (t : list UploadRow) :
  (forall u, up_checksum (f u) = up_checksum u) ->
  (forall u, up_id (f u) = up_id u) ->
  (forall u, P u -> P' (f u)) ->
  newest checksum id P t ->
  newest checksum id P' (map (fun u => if up_id u =? id then f u else u) t).
Proof.
  intros Hc Hid HP' (before & u & -> & Hbefore & Huc & Huid & HP).
  exists (map (fun u => if up_id u =? id then f u else u) before), (f u).
  repeat apply conj.
  - rewrite map_app. simpl. rewrite Huid, Z.eqb_refl. reflexivity.
  - intros x Hx. apply in_map_iff in Hx. destruct Hx as (y & <- & Hy).
    destruct (up_id y =? id); [rewrite Hc |]; apply Hbefore, Hy.
  - rewrite Hc. exact Huc.
  - rewrite Hid. exact Huid.
  - apply HP', HP.
Qed.

Lemma insert_upload_outcome (filename checksum : string) (size now id : Z)
    (w w' : World) :
  insert_upload filename checksum size now w = (Ok id, w') ->
  id = uploads_seq w + 1
  /\ uploads_seq w' = id
  /\ r2 w' = r2 w
  /\ newest checksum id
       (fun u => up_filename u = filename /\ up_raw_r2_key u = None
                 /\ up_inserted_records u = Some 0)
       (uploads w').
Proof.
  unfold insert_upload, bind, get, ret, throw, modify.
  destruct (existsb _ (uploads w)) eqn:E; [discriminate |].
  intros [= <- <-]. simpl. repeat apply conj; try reflexivity.
  eexists _, _. repeat apply conj; try reflexivity.
  intros x Hx Hc.
  assert (existsb (fun u => String.eqb (up_checksum u) checksum) (uploads w) = true).
  { apply existsb_exists. exists x. split; [exact Hx |]. now apply String.eqb_eq. }
  congruence.
Qed.

Lemma batch_loop_files (now : Z) (batchSize : option Z)
    (events : list WAFEvent) (fileId : Z) :
  preserves files_part (batch_loop now batchSize events fileId).
Proof.
  assert (Hins : forall l, preserves files_part (insertEventBatch now l fileId)).
  { intros l. unfold insertEventBatch.
    apply preserves_bind; [apply db_batch_files | intros r; apply preserves_ret]. }
  assert (Hloop : forall fuel i n l ti td,
             preserves files_part (insert_in_batches now fuel i n l fileId ti td)).
  { induction fuel as [| fuel IH]; intros i n l ti td; simpl;
      [apply preserves_diverge |].
    destruct (num_lt i (Z.of_nat (List.length l))); [| apply preserves_ret].
    apply preserves_bind; [apply Hins | intros r; apply IH]. }
  unfold batch_loop. apply Hloop.
Qed.

Section Outcome.

Variable JSON_parse : string -> Parsed.
Variable Date_parse : string -> option Z.
Variable computeChecksum : string -> string.
Variable now : Z.
Variable randomblob_hex : nat -> string.
Variable max_arguments : Z.

(** Whatever an ingestion answers, it has taken the next file id, and the
    last upload row is the row of the file, with its name, its raw key
    when retention is on, and the inserted count of the answer; the
    content is in the bucket exactly when retention is on. *)
Lemma ingest_outcome (file : File) (env : Env) (batchSize : option Z)
    (checksum content : string) (w w' : World) (r : FileResult) :
  ingest JSON_parse Date_parse now randomblob_hex max_arguments
    file env batchSize checksum content w = (Ok r, w') ->
  ingested r = true
  /\ result_filename r = f_name file
  /\ result_file_id r = uploads_seq w + 1
  /\ uploads_seq w' = uploads_seq w + 1
  /\ r2 w' = (if retains env
              then (("uploads/" ++ checksum)%string, content) :: r2 w
              else r2 w)
  /\ newest checksum (result_file_id r)
       (fun u => up_filename u = f_name file
                 /\ up_raw_r2_key u
                    = (if retains env
                       then Some ("uploads/" ++ checksum)%string else None)
                 /\ up_inserted_records u = Some (result_inserted r))
       (uploads w').
Proof.
  unfold ingest. intros H.
  change (R2_bound env && opt_eqb String.eqb (ENABLE_R2_STORAGE env) (Some "true"))
    with (retains env) in H.
  apply bind_Ok in H. destruct H as (id & wA & Hinsert & H).
  apply insert_upload_outcome in Hinsert.
  destruct Hinsert as (Hid & HseqA & Hr2A & HnewA).
  apply bind_Ok in H. destruct H as ([] & wB & Hstep & H).
  assert (HB : uploads_seq wB = id
               /\ r2 wB = (if retains env
                           then (("uploads/" ++ checksum)%string, content) :: r2 w
                           else r2 w)
               /\ newest checksum id
                    (fun u => up_filename u = f_name file
                              /\ up_raw_r2_key u
                                 = (if retains env
                                    then Some ("uploads/" ++ checksum)%string
                                    else None)
                              /\ up_inserted_records u = Some 0)
                    (uploads wB)).
  { destruct (retains env).
    - apply bind_Ok in Hstep. destruct Hstep as ([] & wA' & Hput & Hset).
      injection Hput as <-. injection Hset as <-.
      cbn [uploads_seq r2 uploads set_raw_r2_key update_upload modify snd
           set_uploads].
      repeat apply conj; [exact HseqA | now rewrite Hr2A |].
      eapply newest_update_from; [| | | exact HnewA]; try reflexivity.
      intros u (Hn & _ & Hi). cbn. auto.
    - injection Hstep as <-. repeat apply conj; assumption. }
  destruct HB as (HseqB & Hr2B & HnewB).
  apply bind_Ok in H. destruct H as (parsed & wB' & Hparse & H).
  unfold lift in Hparse. injection Hparse as _ <-.
  destruct (fst parsed) as [| first others].
  - apply bind_Ok in H. destruct H as ([] & wC & Hset & H).
    injection Hset as <-. injection H as <- <-.
    cbn [ingested result_filename result_file_id result_inserted
         uploads_seq r2 uploads set_total_records update_upload modify snd
         set_uploads].
    repeat apply conj; try reflexivity;
      [exact Hid | now rewrite HseqB | exact Hr2B |].
    eapply newest_update_from; [| | | exact HnewB]; try reflexivity.
    intros u (Hn & Hk & Hi). cbn. auto.
  - remember (Z.of_nat (List.length (first :: others))) as count eqn:Hcount.
    apply bind_Ok in H. destruct H as (totals & wC & Hloop & H).
    assert (HC : files_part wC = files_part wB).
    { pose proof (batch_loop_files now batchSize (first :: others) id wB) as E.
      rewrite Hloop in E. exact E. }
    unfold files_part in HC. injection HC as HupC HseqC Hr2C.
    apply bind_Ok in H. destruct H as ([] & wD & Hstats & H).
    assert (ED : wD = snd (set_upload_stats count (fst totals) (snd totals) id wC))
      by (rewrite Hstats; reflexivity).
    apply bind_Ok in H. destruct H as ([] & wE & Hroll & H).
    assert (EE : wE = snd (updateAnalyticsTables now randomblob_hex id wD))
      by (rewrite Hroll; reflexivity).
    destruct (updateAnalyticsTables_keeps now randomblob_hex id wD)
      as (HupD & HseqD & Hr2D & _).
    rewrite <- EE in HupD, HseqD, Hr2D.
    unfold spread_call in H.
    destruct (Z.of_nat _ <=? max_arguments); [| discriminate].
    apply bind_Ok in H. destruct H as (? & ? & [= <- <-] & H).
    apply bind_Ok in H. destruct H as (? & ? & [= <- <-] & H).
    unfold toISOString in H.
    destruct (Z.abs _ <=? _); [| discriminate].
    apply bind_Ok in H. destruct H as (? & ? & [= <- <-] & H).
    destruct (Z.abs _ <=? _); [| discriminate].
    apply bind_Ok in H. destruct H as (? & ? & [= <- <-] & H).
    injection H as <- <-.
    cbn [ingested result_filename result_file_id result_inserted].
    assert (HseqE : uploads_seq wE = uploads_seq wC)
      by (rewrite HseqD, ED; reflexivity).
    assert (Hr2E : r2 wE = r2 wC) by (rewrite Hr2D, ED; reflexivity).
    assert (HupE : uploads wE
                   = map (fun u => if up_id u =? id
                                   then mkUpload (up_id u) (up_filename u)
                                          (up_checksum u) (up_size u)
                                          (up_uploaded_at u) (up_raw_r2_key u)
                                          (Some count) (Some (fst totals))
                                          (Some (snd totals))
                                   else u) (uploads wC))
      by (rewrite HupD, ED; reflexivity).
    repeat apply conj; try reflexivity;
      [exact Hid | rewrite HseqE, HseqC, HseqB; exact Hid
       | rewrite Hr2E, Hr2C; exact Hr2B |].
    rewrite HupE, HupC.
    eapply newest_update_from; [| | | exact HnewB]; try reflexivity.
    intros u (Hn & Hk & _). cbn. auto.
Qed.

(** An answer [already_processed] reports an inserted count other than 0. *)
Lemma processFile_cases (file : File) (env : Env) (batchSize : option Z)
    (w w' : World) (r : FileResult) :
  processFile JSON_parse Date_parse computeChecksum now randomblob_hex max_arguments
    file env batchSize w = (Ok r, w') ->
  (ingested r = false /\ result_inserted r <> 0 /\ w' = w)
  \/ (exists w0,
        uploads_seq w0 = uploads_seq w
        /\ r2 w0 = r2 w
        /\ ingest JSON_parse Date_parse now randomblob_hex max_arguments file env batchSize
             (computeChecksum (f_text file)) (f_text file) w0 = (Ok r, w')).
Proof.
  intros H.
  destruct (upload_with (computeChecksum (f_text file)) w) as [existing |] eqn:E.
  - destruct (Z.eq_dec (or_zero (up_inserted_records existing)) 0) as [Hz | Hnz].
    + rewrite (processFile_stale _ _ _ _ _ _ _ _ _ _ _ E Hz) in H.
      right. eexists. split; [| split; [| exact H]]; reflexivity.
    + rewrite (processFile_done _ _ _ _ _ _ _ _ _ _ _ E Hnz) in H.
      injection H as <- <-. left. repeat split. exact Hnz.
  - rewrite (processFile_new _ _ _ _ _ _ _ _ _ _ E) in H.
    right. exists w. repeat split. exact H.
Qed.

End Outcome.

(** X12: when a run of [processFile] reports no inserted row (the file had
    no valid event, or every event was a duplicate), the run was an
    ingestion, and the next upload of the same content is not answered
    [already_processed]: it deletes the row of the run, ingests the
    content again, and its answer carries the next file id. *)
Theorem processFile_retry
    (JSON_parse : string -> Parsed) (Date_parse : string -> option Z)
    (computeChecksum : string -> string) (now : Z) (randomblob_hex : nat -> string)
    (max_arguments : Z)
    (file : File) (env env' : Env) (batchSize batchSize' : option Z)
    (w w1 : World) (r : FileResult) :
  processFile JSON_parse Date_parse computeChecksum now randomblob_hex max_arguments
    file env batchSize w = (Ok r, w1) ->
  result_inserted r = 0 ->
  ingested r = true
  /\ processFile JSON_parse Date_parse computeChecksum now randomblob_hex max_arguments
       file env' batchSize' w1
     = ingest JSON_parse Date_parse now randomblob_hex max_arguments file env' batchSize'
         (computeChecksum (f_text file)) (f_text file)
         (without_upload (result_file_id r) w1)
  /\ forall r' w2,
       processFile JSON_parse Date_parse computeChecksum now randomblob_hex max_arguments
         file env' batchSize' w1 = (Ok r', w2) ->
       ingested r' = true /\ result_file_id r' = result_file_id r + 1.
Proof.
  intros H Hzero.
  destruct (processFile_cases _ _ _ _ _ _ _ _ _ _ _ _ H)
    as [(_ & Hnz & _) | (w0 & Hseq0 & _ & Hingest)]; [contradiction |].
  apply ingest_outcome in Hingest.
  destruct Hingest as (Hing & _ & Hid & Hseq1 & _ & Hnew).
  destruct (newest_find _ _ _ _ Hnew) as (u & Hu & Huid & _ & _ & Hins).
  assert (Hstale :
            processFile JSON_parse Date_parse computeChecksum now randomblob_hex max_arguments
              file env' batchSize' w1
            = ingest JSON_parse Date_parse now randomblob_hex max_arguments file env' batchSize'
                (computeChecksum (f_text file)) (f_text file)
                (without_upload (result_file_id r) w1)).
  { rewrite <- Huid. apply processFile_stale; [exact Hu |].
    rewrite Hins, Hzero. reflexivity. }
  repeat apply conj; [exact Hing | exact Hstale |].
  intros r' w2 H'. rewrite Hstale in H'.
  apply ingest_outcome in H'. destruct H' as (Hing' & _ & Hid' & _).
  split; [exact Hing' |].
  rewrite Hid'. unfold without_upload. cbn [uploads_seq delete_upload modify snd
                                             set_events set_uploads].
  rewrite Hseq1, Hid, Hseq0. reflexivity.
Qed.

Lemma processFile_retry_witness :
  Fixtures.processFile Fixtures.junk_file Fixtures.env_r2 (Some 50)
    Fixtures.junk_uploaded
  = ingest Fixtures.JSON_parse Fixtures.Date_parse Fixtures.now
      Fixtures.randomblob_hex Fixtures.max_arguments Fixtures.junk_file Fixtures.env_r2 (Some 50)
      (f_text Fixtures.junk_file) (f_text Fixtures.junk_file)
      (without_upload 1 Fixtures.junk_uploaded).
Proof.
  refine (proj1 (proj2 (processFile_retry Fixtures.JSON_parse Fixtures.Date_parse
                          Fixtures.computeChecksum Fixtures.now
                          Fixtures.randomblob_hex Fixtures.max_arguments Fixtures.junk_file
                          Fixtures.env_plain Fixtures.env_r2
                          (Some 1000) (Some 50) Fixtures.empty_world
                          Fixtures.junk_uploaded Fixtures.junk_result _ _))).
  - vm_compute. reflexivity.
  - reflexivity.
Defined.

(* ================================================================== *)
(** * Reindexing what an upload left *)
(* ================================================================== *)

Lemma reinsert_returns (now n : Z) (events : list WAFEvent) (fileId : Z)
    (w : World) :
  0 < n ->
  has_upload fileId (uploads w) = true ->
  exists totals w', reinsert now (Some n) events fileId w = (Ok totals, w').
Proof.
  intros Hpos Hup. unfold reinsert. rewrite reinsert_in_batches_insert.
  fold (batch_loop now (Some n) events fileId).
  rewrite batch_loop_run by assumption.
  eexists _, _; reflexivity.
Qed.

Lemma find_has_upload (p : UploadRow -> bool) (t : list UploadRow)
    (info : UploadRow) :
  find p t = Some info -> has_upload (up_id info) t = true.
Proof.
  intros H. apply find_some in H. unfold has_upload.
  apply existsb_exists. exists info. split; [tauto | apply Z.eqb_refl].
Qed.

Lemma handleReindex_by_checksum (JSON_parse : string -> Parsed)
    (Date_parse : string -> option Z) (now : Z)
    (checksum key content : string) (fileId : option Z) (env : Env)
    (info : UploadRow) (w : World) :
  checksum <> EmptyString ->
  upload_with checksum w = Some info ->
  R2_bound env = true ->
  up_raw_r2_key info = Some key ->
  key <> EmptyString ->
  r2_lookup key (r2 w) = Some content ->
  (exists n, parseInt (or_default (MAX_BATCH_SIZE env) "1000") 0 = Some n
             /\ 0 < n) ->
  exists total inserted deduped errors w',
    handleReindex JSON_parse Date_parse now (mkBody (Some checksum) fileId) env w
    = (Ok (status_200 (up_id info) (up_filename info)
             total inserted deduped errors), w').
Proof.
  intros Hc Hinfo Hbound Hkey Hk Hget (n & Hsize & Hpos).
  apply String.eqb_neq in Hc. apply String.eqb_neq in Hk.
  unfold upload_with in Hinfo.
  unfold handleReindex, handleReindex_try.
  cbn [b_checksum b_file_id falsy_string or_empty]. rewrite Hc.
  cbn [andb negb].
  unfold bind at 1. unfold select_upload_by_checksum, bind at 1, get, ret at 1.
  rewrite Hinfo, Hbound, Hkey. cbn [negb orb falsy_string or_empty]. rewrite Hk.
  unfold bind at 1. unfold r2_get, bind at 1, get, ret at 1. rewrite Hget.
  unfold bind at 1. unfold delete_events_of_file, modify.
  destruct (reparse_Ok JSON_parse Date_parse content) as (events & errors & ->).
  unfold bind at 1, lift. cbn [fst snd].
  destruct (reinsert_returns now n events (up_id info)
              (set_events (filter (fun e => negb (v_file_id (e_vals e) =? up_id info))) w)
              Hpos (find_has_upload _ _ _ Hinfo)) as (totals & w' & Hre).
  unfold bind at 1. rewrite Hsize, Hre.
  unfold bind, set_upload_stats, update_upload, modify, ret.
  eexists _, _, _, _, _. reflexivity.
Qed.

(** X13: an upload that ingested a file with raw retention on
    ([env.R2] bound and [ENABLE_R2_STORAGE] the text true) can be
    reindexed by its checksum, in the same environment: the answer is 200
    and names the file id and the file name of the upload.  Without
    retention the upload stored no raw key, and a reindex by the checksum
    is refused with 400 in any environment and changes nothing.  (The
    checksum is not the empty text, which the handler takes as missing;
    the batch size of the environment parses to a positive number: with
    one that is NaN or not positive the handler hands D1 an empty batch
    and answers 500 as soon as the file has an event.) *)
Theorem reindex_after_upload
    (JSON_parse : string -> Parsed) (Date_parse : string -> option Z)
    (computeChecksum : string -> string) (now : Z) (randomblob_hex : nat -> string)
    (max_arguments : Z)
    (file : File) (env : Env) (batchSize : option Z)
    (w w1 : World) (r : FileResult) :
  processFile JSON_parse Date_parse computeChecksum now randomblob_hex max_arguments
    file env batchSize w = (Ok r, w1) ->
  ingested r = true ->
  computeChecksum (f_text file) <> EmptyString ->
  (retains env = true ->
   (exists n, parseInt (or_default (MAX_BATCH_SIZE env) "1000") 0 = Some n
              /\ 0 < n) ->
   forall now' fileId,
   exists total inserted deduped errors w2,
     handleReindex JSON_parse Date_parse now'
       (mkBody (Some (computeChecksum (f_text file))) fileId) env w1
     = (Ok (status_200 (result_file_id r) (f_name file)
              total inserted deduped errors), w2))
  /\ (retains env = false ->
      forall now' fileId env',
        handleReindex JSON_parse Date_parse now'
          (mkBody (Some (computeChecksum (f_text file))) fileId) env' w1
        = (Ok (status_400 "Raw file not available for reprocessing"), w1)).
Proof.
  intros H Hing Hc.
  destruct (processFile_cases _ _ _ _ _ _ _ _ _ _ _ _ H)
    as [(Hno & _) | (w0 & _ & Hr2 & Hingest)]; [congruence |].
  apply ingest_outcome in Hingest.
  destruct Hingest as (_ & _ & _ & _ & Hbucket & Hnew).
  destruct (newest_find _ _ _ _ Hnew) as (u & Hu & Huid & Hname & Hkey & _).
  split.
  - intros Hret Hpos now' fileId. rewrite Hret in Hkey, Hbucket.
    rewrite <- Huid, <- Hname.
    apply handleReindex_by_checksum
      with (key := ("uploads/" ++ computeChecksum (f_text file))%string)
           (content := f_text file); try assumption.
    + unfold retains in Hret. apply andb_prop in Hret. tauto.
    + discriminate.
    + rewrite Hbucket. simpl. rewrite String.eqb_refl. reflexivity.
  - intros Hret now' fileId env'. rewrite Hret in Hkey.
    apply String.eqb_neq in Hc.
    unfold handleReindex, handleReindex_try.
    cbn [b_checksum b_file_id falsy_string or_empty]. rewrite Hc.
    cbn [andb negb].
    unfold bind at 1. unfold select_upload_by_checksum, bind at 1, get, ret at 1.
    rewrite Hu, Hkey. cbn [falsy_string]. rewrite orb_true_r. reflexivity.
Qed.

Lemma reindex_after_upload_witness :
  exists total inserted deduped errors w2,
    Fixtures.handleReindex (mkBody (Some (f_text Fixtures.login_file)) None)
      Fixtures.env_r2 Fixtures.login_uploaded
    = (Ok (status_200 1 "login.json" total inserted deduped errors), w2).
Proof.
  refine (proj1 (reindex_after_upload Fixtures.JSON_parse Fixtures.Date_parse
                   Fixtures.computeChecksum Fixtures.now Fixtures.randomblob_hex Fixtures.max_arguments
                   Fixtures.login_file Fixtures.env_r2 (Some 1000)
                   Fixtures.empty_world Fixtures.login_uploaded
                   Fixtures.login_result _ _ _)
            _ _ Fixtures.now None).
  - vm_compute. reflexivity.
  - reflexivity.
  - vm_compute. discriminate.
  - reflexivity.
  - exists 1000. split; reflexivity.
Defined.

(* ================================================================== *)
(** * The upload endpoint *)
(* ================================================================== *)

Section Endpoint.

Variable JSON_parse : string -> Parsed.
Variable Date_parse : string -> option Z.
Variable computeChecksum : string -> string.
Variable now : Z.
Variable randomblob_hex : nat -> string.
Variable max_arguments : Z.

Let processFile := processFile JSON_parse Date_parse computeChecksum now randomblob_hex max_arguments.
Let upload_files := upload_files JSON_parse Date_parse computeChecksum now randomblob_hex max_arguments.
Let handleUpload := handleUpload JSON_parse Date_parse computeChecksum now randomblob_hex max_arguments.

Lemma processFile_filename (file : File) (env : Env) (batchSize : option Z)
    (w w' : World) (r : FileResult) :
  processFile file env batchSize w = (Ok r, w') -> result_filename r = f_name file.
Proof.
  unfold processFile. intros H.
  destruct (upload_with (computeChecksum (f_text file)) w) as [existing |] eqn:E.
  - destruct (Z.eq_dec (or_zero (up_inserted_records existing)) 0) as [Hz | Hnz].
    + rewrite (processFile_stale _ _ _ _ _ _ _ _ _ _ _ E Hz) in H.
      apply ingest_outcome in H. tauto.
    + rewrite (processFile_done _ _ _ _ _ _ _ _ _ _ _ E Hnz) in H.
      injection H as <- _. reflexivity.
  - rewrite (processFile_new _ _ _ _ _ _ _ _ _ _ E) in H.
    apply ingest_outcome in H. tauto.
Qed.

Lemma upload_files_step (maxFileSize batchSize : option Z) (env : Env)
    (file : File) (rest : list File) (results : list UploadEntry) (w : World) :
  upload_files maxFileSize batchSize env (file :: rest) results w
  = if exceeds (f_size file) maxFileSize
    then upload_files maxFileSize batchSize env rest
           (push results
              (entry_too_large (f_name file) (f_size file)
                 (match maxFileSize with Some m => m | None => 0 end))) w
    else match processFile file env batchSize w with
         | (Ok result, w') =>
             upload_files maxFileSize batchSize env rest
               (push results (entry_result result)) w'
         | (Throw error, w') =>
             upload_files maxFileSize batchSize env rest
               (push results (entry_error (f_name file) (message_of error))) w'
         | (Diverge, w') => (Diverge, w')
         end.
Proof.
  unfold upload_files, processFile. simpl.
  destruct (exceeds (f_size file) maxFileSize); reflexivity.
Qed.

Lemma upload_files_names (maxFileSize batchSize : option Z) (env : Env)
    (files : list File) :
  forall (results : list UploadEntry) (w : World),
    match upload_files maxFileSize batchSize env files results w with
    | (Ok entries, _) =>
        map entry_filename entries
        = map entry_filename results ++ map f_name files
    | (Throw _, _) => False
    | (Diverge, _) => True
    end.
Proof.
  induction files as [| file rest IH]; intros results w.
  - simpl. rewrite app_nil_r. reflexivity.
  - rewrite upload_files_step.
    assert (Hnext : forall entry w1,
               entry_filename entry = f_name file ->
               match upload_files maxFileSize batchSize env rest
                       (push results entry) w1 with
               | (Ok entries, _) =>
                   map entry_filename entries
                   = map entry_filename results ++ map f_name (file :: rest)
               | (Throw _, _) => False
               | (Diverge, _) => True
               end).
    { intros entry w1 Hname. specialize (IH (push results entry) w1).
      destruct (upload_files maxFileSize batchSize env rest (push results entry) w1)
        as [[entries | e |] w2]; try exact IH.
      rewrite IH. unfold push. rewrite map_app, <- app_assoc. simpl.
      rewrite Hname. reflexivity. }
    destruct (exceeds (f_size file) maxFileSize); [apply Hnext; reflexivity |].
    destruct (processFile file env batchSize w) as [[result | error |] w1] eqn:E.
    + apply Hnext. simpl. eapply processFile_filename, E.
    + apply Hnext. reflexivity.
    + exact I.
Qed.

Lemma upload_files_world (maxFileSize batchSize : option Z) (env : Env)
    (files : list File) :
  forall (results results' : list UploadEntry) (w : World),
    snd (upload_files maxFileSize batchSize env files results w)
    = snd (upload_files maxFileSize batchSize env
             (filter (fun f => negb (exceeds (f_size f) maxFileSize)) files)
             results' w).
Proof.
  induction files as [| file rest IH]; intros results results' w.
  - reflexivity.
  - rewrite upload_files_step. cbn [filter].
    destruct (exceeds (f_size file) maxFileSize) eqn:E; cbn [negb].
    + apply IH.
    + rewrite upload_files_step, E.
      destruct (processFile file env batchSize w) as [[result | error |] w1];
        [apply IH | apply IH | reflexivity].
Qed.

Lemma upload_files_too_large (maxFileSize batchSize : option Z) (env : Env)
    (files : list File) :
  Forall (fun f => exceeds (f_size f) maxFileSize = true) files ->
  forall (results : list UploadEntry) (w : World),
    upload_files maxFileSize batchSize env files results w
    = (Ok (results
           ++ map (fun f => entry_too_large (f_name f) (f_size f)
                              (match maxFileSize with Some m => m | None => 0 end))
                files), w).
Proof.
  induction 1 as [| file rest Hfile _ IH]; intros results w.
  - simpl. rewrite app_nil_r. reflexivity.
  - rewrite upload_files_step, Hfile, IH. unfold push.
    rewrite <- app_assoc. reflexivity.
Qed.

Lemma upload_files_constraints (maxFileSize batchSize : option Z) (env : Env)
    (files : list File) :
  forall results, maintains constraints
                    (upload_files maxFileSize batchSize env files results).
Proof.
  induction files as [| file rest IH]; intros results w Hw.
  - exact Hw.
  - rewrite upload_files_step.
    destruct (exceeds (f_size file) maxFileSize); [apply IH, Hw |].
    pose proof (processFile_constraints JSON_parse Date_parse computeChecksum
                  now randomblob_hex max_arguments file env batchSize w Hw)
      as Hfile.
    fold processFile in Hfile.
    destruct (processFile file env batchSize w) as [[result | error |] w1];
      [apply IH, Hfile | apply IH, Hfile | exact Hfile].
Qed.

Lemma handleUpload_run (request : UploadRequest) (env : Env)
    (MAX_FILE_SIZE_MB : option string) (w : World) :
  handleUpload request env MAX_FILE_SIZE_MB w
  = if negb (is_multipart request)
    then (Ok (upload_400 "Content-Type must be multipart/form-data"), w)
    else match form_files request with
         | [] => (Ok (upload_400 "No files provided"), w)
         | files =>
             match upload_files (maxFileSize_of MAX_FILE_SIZE_MB)
                     (parseInt (or_default (MAX_BATCH_SIZE env) "1000") 0)
                     env files [] w with
             | (Ok results, w') => (Ok (upload_200 results), w')
             | (Throw e, w') => (Throw e, w')
             | (Diverge, w') => (Diverge, w')
             end
         end.
Proof.
  unfold handleUpload, Upload.handleUpload, is_multipart. cbv zeta.
  destruct (negb _); [reflexivity |].
  destruct (form_files request) as [| file rest]; [reflexivity |].
  unfold bind, ret. fold upload_files. unfold maxFileSize_of.
  destruct (upload_files _ _ env (file :: rest) [] w) as [[results | e |] w'];
    reflexivity.
Qed.

Lemma handleUpload_world (request : UploadRequest) (env : Env)
    (MAX_FILE_SIZE_MB : option string) (w : World) :
  snd (handleUpload request env MAX_FILE_SIZE_MB w)
  = if negb (is_multipart request) then w
    else snd (upload_files (maxFileSize_of MAX_FILE_SIZE_MB)
                (parseInt (or_default (MAX_BATCH_SIZE env) "1000") 0)
                env (form_files request) [] w).
Proof.
  rewrite handleUpload_run. destruct (negb _); [reflexivity |].
  destruct (form_files request) as [| file rest]; [reflexivity |].
  destruct (upload_files _ _ env (file :: rest) [] w) as [[? | ? |] ?];
    reflexivity.
Qed.

End Endpoint.



(** X15: the size limit of [handleUpload].  The files over the limit
    leave no trace in the store: the world after the request is the world
    after the same request without them.  When [MAX_FILE_SIZE_MB] does not
    parse to a number the limit is NaN and no file is over it.  A
    multipart request whose files are all over the limit is answered 200
    with one size entry per file and changes nothing. *)
Theorem handleUpload_size_limit
    (JSON_parse : string -> Parsed) (Date_parse : string -> option Z)
    (computeChecksum : string -> string) (now : Z) (randomblob_hex : nat -> string)
    (max_arguments : Z)
    (contentType : option string) (files : list File) (env : Env)
    (MAX_FILE_SIZE_MB : option string) (w : World) :
  snd (handleUpload JSON_parse Date_parse computeChecksum now randomblob_hex max_arguments
         (mkUploadRequest contentType files) env MAX_FILE_SIZE_MB w)
  = snd (handleUpload JSON_parse Date_parse computeChecksum now randomblob_hex max_arguments
           (mkUploadRequest contentType (filter (fits MAX_FILE_SIZE_MB) files))
           env MAX_FILE_SIZE_MB w)
  /\ (parseInt (or_default MAX_FILE_SIZE_MB "50") 0 = None ->
      filter (fits MAX_FILE_SIZE_MB) files = files)
  /\ (is_multipart (mkUploadRequest contentType files) = true ->
      files <> [] ->
      filter (fits MAX_FILE_SIZE_MB) files = [] ->
      exists limit,
        maxFileSize_of MAX_FILE_SIZE_MB = Some limit
        /\ handleUpload JSON_parse Date_parse computeChecksum now randomblob_hex max_arguments
             (mkUploadRequest contentType files) env MAX_FILE_SIZE_MB w
           = (Ok (upload_200
                    (map (fun f => entry_too_large (f_name f) (f_size f) limit)
                       files)), w)).
Proof.
  repeat apply conj.
  - rewrite !handleUpload_world. unfold is_multipart.
    cbn [content_type form_files].
    destruct (negb _); [reflexivity |].
    apply upload_files_world.
  - intros Hnan. unfold fits, maxFileSize_of. rewrite Hnan. simpl.
    induction files as [| f files IH]; simpl; congruence.
  - intros Hmulti Hne Hnone.
    assert (Hall : Forall (fun f => exceeds (f_size f)
                                      (maxFileSize_of MAX_FILE_SIZE_MB) = true) files).
    { apply Forall_forall. intros f Hf.
      destruct (exceeds (f_size f) (maxFileSize_of MAX_FILE_SIZE_MB)) eqn:E;
        [reflexivity |].
      assert (Hin : In f (filter (fits MAX_FILE_SIZE_MB) files)).
      { apply filter_In. split; [exact Hf |]. unfold fits. now rewrite E. }
      rewrite Hnone in Hin. destruct Hin. }
    destruct (maxFileSize_of MAX_FILE_SIZE_MB) as [limit |] eqn:Elimit.
    + exists limit. split; [reflexivity |].
      rewrite handleUpload_run, Hmulti, Elimit. cbn [negb form_files].
      destruct files as [| f files]; [contradiction |].
      rewrite upload_files_too_large by exact Hall. reflexivity.
    + destruct files as [| f files]; [contradiction |].
      inversion Hall as [| ? ? Hf _]. discriminate Hf.
Qed.

Lemma handleUpload_size_limit_witness :
  exists limit,
    maxFileSize_of (Some "0") = Some limit
    /\ Fixtures.handleUpload
         (Fixtures.multipart [Fixtures.login_file; Fixtures.junk_file])
         Fixtures.env_plain (Some "0") Fixtures.empty_world
       = (Ok (upload_200
                (map (fun f => entry_too_large (f_name f) (f_size f) limit)
                   [Fixtures.login_file; Fixtures.junk_file])),
          Fixtures.empty_world).
Proof.
  destruct (handleUpload_size_limit Fixtures.JSON_parse Fixtures.Date_parse
              Fixtures.computeChecksum Fixtures.now Fixtures.randomblob_hex Fixtures.max_arguments
              (Some "multipart/form-data; boundary=x")
              [Fixtures.login_file; Fixtures.junk_file]
              Fixtures.env_plain (Some "0") Fixtures.empty_world) as (_ & _ & H).
  apply H; [vm_compute; reflexivity | discriminate | vm_compute; reflexivity].
Defined.

(** X16: the two uniqueness constraints of the schema, UNIQUE(ray_id,
    event_ts) on [waf_events] and UNIQUE on [uploads.checksum], hold after
    every sequence of upload and reindex requests, whatever the requests,
    their environments and their outcomes, from a store where they hold. *)
Theorem serve_constraints
    (JSON_parse : string -> Parsed) (Date_parse : string -> option Z)
    (computeChecksum : string -> string) (randomblob_hex : nat -> string)
    (max_arguments : Z) (calls : list Call) (w : World) :
  constraints w ->
  constraints
    (serve JSON_parse Date_parse computeChecksum randomblob_hex max_arguments
       calls w).
Proof.
  unfold serve. revert w.
  induction calls as [| call calls IH]; intros w Hw; [exact Hw |].
  simpl. apply IH. destruct call as [now request env mb | now body env].
  - rewrite handleUpload_world.
    destruct (negb _); [exact Hw |].
    apply upload_files_constraints, Hw.
  - apply handleReindex_constraints, Hw.
Qed.

Lemma serve_constraints_witness :
  constraints
    (serve Fixtures.JSON_parse Fixtures.Date_parse Fixtures.computeChecksum
       Fixtures.randomblob_hex Fixtures.max_arguments
       [call_upload Fixtures.now
          (Fixtures.multipart [Fixtures.ndjson_file; Fixtures.login_file])
          Fixtures.env_r2 None;
        call_reindex Fixtures.now (mkBody None (Some 1)) Fixtures.env_r2;
        call_upload Fixtures.now (Fixtures.multipart [Fixtures.ndjson_file])
          Fixtures.env_r2 None]
       Fixtures.empty_world).
Proof.
  apply serve_constraints. split.
  - intros v. unfold unique_keys, key_count. cbn. apply Nat.le_0_1.
  - constructor.
Defined.

(* ================================================================== *)
(** * The exceptions of an upload *)
(* ================================================================== *)

Lemma bind_Throw {A B} (m : M A) (k : A -> M B) (w w' : World) (e : string) :
  bind m k w = (Throw e, w') ->
  m w = (Throw e, w')
  \/ exists a w1, m w = (Ok a, w1) /\ k a w1 = (Throw e, w').
Proof.
  unfold bind. destruct (m w) as [[a | e0 |] w1]; intros H.
  - right. eauto.
  - left. injection H as <- <-. reflexivity.
  - discriminate.
Qed.

Lemma parseContent_Ok (JSON_parse : string -> Parsed)
    (Date_parse : string -> option Z) (content : string) :
  exists parsed, parseContent JSON_parse Date_parse content = Ok parsed.
Proof.
  unfold parseContent. destruct (JSON_parse content) as [[] |];
    rewrite ?parse_records_spec, ?parse_lines_spec; eauto.
Qed.

Lemma newest_has_upload (checksum : string) (id : Z) (P : UploadRow -> Prop)
    (t : list UploadRow) :
  newest checksum id P t -> has_upload id t = true.
Proof.
  intros (before & u & -> & _ & _ & Hid & _). unfold has_upload.
  rewrite existsb_app. simpl. rewrite Hid, Z.eqb_refl. apply orb_true_r.
Qed.

(** With the upload row in place, the one exception of the loop is the
    refusal of an empty batch by D1. *)
Lemma insert_in_batches_exception (now : Z) (n : option Z)
    (events : list WAFEvent) (fileId : Z) (fuel : nat) :
  forall (i : option Z) (inserted deduped : Z) (w w' : World) (e : string),
    has_upload fileId (uploads w) = true ->
    insert_in_batches now fuel i n events fileId inserted deduped w
    = (Throw e, w') ->
    e = "Error: D1_ERROR: No SQL statements detected."%string.
Proof.
  induction fuel as [| fuel IH]; intros i inserted deduped w w' e Hup; simpl;
    [discriminate |].
  destruct (num_lt i (Z.of_nat (List.length events))); [| discriminate].
  intros H. apply bind_Throw in H. destruct H as [H | (r & w1 & Hbatch & H)].
  - destruct (slice events i (num_add i n)) as [| x l].
    + rewrite insertEventBatch_empty in H. injection H as <- _. reflexivity.
    + rewrite insertEventBatch_run in H by (try discriminate; exact Hup).
      discriminate H.
  - apply IH in H; [exact H |].
    pose proof (insertEventBatch_uploads now (slice events i (num_add i n))
                  fileId w) as E.
    rewrite Hbatch in E. cbn [snd] in E. rewrite E. exact Hup.
Qed.

Lemma batch_loop_exception (now : Z) (batchSize : option Z)
    (events : list WAFEvent) (fileId : Z) (w w' : World) (e : string) :
  has_upload fileId (uploads w) = true ->
  batch_loop now batchSize events fileId w = (Throw e, w') ->
  e = "Error: D1_ERROR: No SQL statements detected."%string
  /\ forall n, batchSize = Some n -> n <= 0.
Proof.
  intros Hup H. split.
  - unfold batch_loop in H. apply insert_in_batches_exception in H; assumption.
  - intros n ->. destruct (Z.le_gt_cases n 0) as [Hle | Hgt]; [exact Hle |].
    rewrite batch_loop_run in H by (try assumption; lia). discriminate H.
Qed.

Section Exceptions.

Variable JSON_parse : string -> Parsed.
Variable Date_parse : string -> option Z.
Variable computeChecksum : string -> string.
Variable now : Z.
Variable randomblob_hex : nat -> string.
Variable max_arguments : Z.

(** The exceptions of an ingestion: the UNIQUE constraint on the checksum,
    before anything is written; the refusal of an empty batch, which a
    batch size that is NaN or not positive brings about, before the counts
    are set; and, after the events and the counts were written, the NOT
    NULL constraint on the date of the daily rollup, the limit on the
    number of arguments of a call, and the range of [Date]. *)
Lemma ingest_exception (file : File) (env : Env) (batchSize : option Z)
    (checksum content : string) (w w' : World) (e : string) :
  ingest JSON_parse Date_parse now randomblob_hex max_arguments
    file env batchSize checksum content w = (Throw e, w') ->
  (e = "Error: D1_ERROR: UNIQUE constraint failed: uploads.checksum"%string
   /\ w' = w /\ upload_with checksum w <> None)
  \/ (e = "Error: D1_ERROR: No SQL statements detected."%string
      /\ (forall n, batchSize = Some n -> n <= 0)
      /\ newest checksum (uploads_seq w + 1)
           (fun u => up_filename u = f_name file
                     /\ up_inserted_records u = Some 0)
           (uploads w'))
  \/ ((e = "Error: D1_ERROR: NOT NULL constraint failed: daily_actions.date"%string
       \/ e = "RangeError: Maximum call stack size exceeded"%string
       \/ e = "RangeError: Invalid time value"%string)
      /\ exists total inserted deduped,
           0 < total
           /\ newest checksum (uploads_seq w + 1)
                (fun u => up_filename u = f_name file
                          /\ up_total_records u = Some total
                          /\ up_inserted_records u = Some inserted
                          /\ up_deduped_records u = Some deduped)
                (uploads w')).
Proof.
  clear computeChecksum. unfold ingest. intros H.
  change (R2_bound env && opt_eqb String.eqb (ENABLE_R2_STORAGE env) (Some "true"))
    with (retains env) in H.
  apply bind_Throw in H. destruct H as [H | (id & wA & Hinsert & H)].
  { left. unfold insert_upload, bind, get, ret, throw, modify in H.
    destruct (existsb _ (uploads w)) eqn:E; [| discriminate].
    injection H as <- <-. repeat split. unfold upload_with.
    apply existsb_exists in E. destruct E as (x & Hx & Hc).
    intros Hnone. exact (eq_true_false_abs _ Hc (find_none _ _ Hnone x Hx)). }
  right.
  apply insert_upload_outcome in Hinsert.
  destruct Hinsert as (Hid & _ & _ & HnewA). subst id.
  apply bind_Throw in H. destruct H as [H | ([] & wB & Hstep & H)].
  { destruct (retains env); discriminate H. }
  assert (HnewB : newest checksum (uploads_seq w + 1)
                    (fun u => up_filename u = f_name file
                              /\ up_inserted_records u = Some 0) (uploads wB)).
  { destruct (retains env).
    - apply bind_Ok in Hstep. destruct Hstep as ([] & wA' & Hput & Hset).
      injection Hput as <-. injection Hset as <-.
      cbn [uploads set_raw_r2_key update_upload modify snd set_uploads].
      eapply newest_update_from; [| | | exact HnewA]; try reflexivity.
      intros u (Hn & _ & Hi). cbn. auto.
    - injection Hstep as <-.
      destruct HnewA as (before & u & E & Hb & Hc & Hi & Hn & _ & Hz).
      exists before, u. repeat split; assumption. }
  apply bind_Throw in H. destruct H as [H | (parsed & wB' & Hparse & H)].
  { unfold lift in H.
    destruct (parseContent_Ok JSON_parse Date_parse content) as (p & Hp).
    rewrite Hp in H. discriminate. }
  unfold lift in Hparse. injection Hparse as _ <-.
  destruct (fst parsed) as [| first others].
  { apply bind_Throw in H. destruct H as [H | (? & ? & _ & H)]; discriminate H. }
  apply bind_Throw in H. destruct H as [H | (totals & wC & Hloop & H)].
  { left.
    assert (HC : files_part w' = files_part wB).
    { pose proof (batch_loop_files now batchSize (first :: others)
                    (uploads_seq w + 1) wB) as E.
      rewrite H in E. exact E. }
    unfold files_part in HC. injection HC as HupC _ _.
    apply batch_loop_exception in H; [| exact (newest_has_upload _ _ _ _ HnewB)].
    destruct H as (-> & Hsize).
    repeat split; [exact Hsize | rewrite HupC; exact HnewB]. }
  right.
  assert (HC : files_part wC = files_part wB).
  { pose proof (batch_loop_files now batchSize (first :: others)
                  (uploads_seq w + 1) wB) as E.
    rewrite Hloop in E. exact E. }
  unfold files_part in HC. injection HC as HupC _ _.
  apply bind_Throw in H. destruct H as [H | ([] & wD & Hstats & H)];
    [discriminate H |].
  assert (ED : uploads wD
               = map (fun u => if up_id u =? uploads_seq w + 1
                               then mkUpload (up_id u) (up_filename u)
                                      (up_checksum u) (up_size u)
                                      (up_uploaded_at u) (up_raw_r2_key u)
                                      (Some (Z.of_nat (List.length (first :: others))))
                                      (Some (fst totals)) (Some (snd totals))
                               else u) (uploads wC))
    by (injection Hstats as <-; reflexivity).
  clear Hstats.
  assert (Hrows : forall w1, uploads w1 = uploads wD ->
            exists total inserted deduped,
              0 < total
              /\ newest checksum (uploads_seq w + 1)
                   (fun u => up_filename u = f_name file
                             /\ up_total_records u = Some total
                             /\ up_inserted_records u = Some inserted
                             /\ up_deduped_records u = Some deduped)
                   (uploads w1)).
  { intros w1 ->.
    exists (Z.of_nat (List.length (first :: others))), (fst totals), (snd totals).
    split; [simpl; lia |].
    rewrite ED, HupC.
    eapply newest_update_from; [| | | exact HnewB]; try reflexivity.
    intros u (Hn & _). cbn. auto. }
  destruct (updateAnalyticsTables_keeps now randomblob_hex (uploads_seq w + 1) wD)
    as (HupE & _).
  apply bind_Throw in H. destruct H as [H | ([] & wE & Hroll & H)].
  { rewrite updateAnalyticsTables_run in H.
    destruct (insert_daily now _ _); [discriminate H |].
    injection H as <- <-. split; [left; reflexivity | apply Hrows; reflexivity]. }
  rewrite Hroll in HupE. cbn [snd] in HupE.
  assert (He : (e = "RangeError: Maximum call stack size exceeded"%string
                \/ e = "RangeError: Invalid time value"%string) /\ w' = wE).
  { unfold spread_call in H.
    destruct (Z.of_nat _ <=? max_arguments).
    - apply bind_Throw in H. destruct H as [H | (? & ? & [= <- <-] & H)];
        [discriminate H |].
      apply bind_Throw in H. destruct H as [H | (? & ? & [= <- <-] & H)];
        [discriminate H |].
      unfold toISOString in H.
      destruct (Z.abs _ <=? _).
      + apply bind_Throw in H. destruct H as [H | (? & ? & [= <- <-] & H)];
          [discriminate H |].
        destruct (Z.abs _ <=? _).
        * apply bind_Throw in H. destruct H as [H | (? & ? & _ & H)];
            discriminate H.
        * unfold bind, throw in H. injection H as <- <-. auto.
      + unfold bind, throw in H. injection H as <- <-. auto.
    - unfold bind, throw in H. injection H as <- <-. auto. }
  destruct He as (He & ->). split; [tauto | apply Hrows, HupE].
Qed.

End Exceptions.

(** X17: from a store where the checksums are unique, [processFile] has
    four exceptions, and each comes after the upload row of the file was
    written.  The refusal of an empty batch by D1 comes from the batch
    loop, only with a batch size that is NaN or not positive, and leaves
    the row with an inserted count of 0.  The NOT NULL failure of
    [daily_actions.date], the RangeError of a call with too many
    arguments and the RangeError of [toISOString] on the time range come
    after the events and the counts were written: the row has a positive
    total of events and the counts of the insertion.  So [handleUpload]
    reports the file as failed, while a later upload of the same content,
    when rows were inserted, is answered [already_processed] with these
    counts. *)
Theorem processFile_exception
    (JSON_parse : string -> Parsed) (Date_parse : string -> option Z)
    (computeChecksum : string -> string) (now : Z) (randomblob_hex : nat -> string)
    (max_arguments : Z)
    (file : File) (env : Env) (batchSize : option Z)
    (w w' : World) (e : string) :
  unique_checksums (uploads w) ->
  processFile JSON_parse Date_parse computeChecksum now randomblob_hex max_arguments
    file env batchSize w = (Throw e, w') ->
  exists u,
    upload_with (computeChecksum (f_text file)) w' = Some u
    /\ up_filename u = f_name file
    /\ ((e = "Error: D1_ERROR: No SQL statements detected."%string
         /\ (forall n, batchSize = Some n -> n <= 0)
         /\ up_inserted_records u = Some 0)
        \/ ((e = "Error: D1_ERROR: NOT NULL constraint failed: daily_actions.date"%string
             \/ e = "RangeError: Maximum call stack size exceeded"%string
             \/ e = "RangeError: Invalid time value"%string)
            /\ exists total inserted deduped,
                 up_total_records u = Some total /\ 0 < total
                 /\ up_inserted_records u = Some inserted
                 /\ up_deduped_records u = Some deduped
                 /\ (inserted <> 0 ->
                     forall now' env' batchSize',
                       processFile JSON_parse Date_parse computeChecksum now'
                         randomblob_hex max_arguments file env' batchSize' w'
                       = (Ok (already_processed (f_name file)
                                (computeChecksum (f_text file)) (up_id u)
                                inserted deduped total), w')))).
Proof.
  intros Huniq H.
  assert (Hingest : exists w0,
             upload_with (computeChecksum (f_text file)) w0 = None
             /\ ingest JSON_parse Date_parse now randomblob_hex max_arguments file env batchSize
                  (computeChecksum (f_text file)) (f_text file) w0
                = (Throw e, w')).
  { destruct (upload_with (computeChecksum (f_text file)) w) as [existing |] eqn:E.
    - destruct (Z.eq_dec (or_zero (up_inserted_records existing)) 0) as [Hz | Hnz].
      + rewrite (processFile_stale _ _ _ _ _ _ _ _ _ _ _ E Hz) in H.
        exists (without_upload (up_id existing) w). split; [| exact H].
        apply upload_with_deleted; assumption.
      + rewrite (processFile_done _ _ _ _ _ _ _ _ _ _ _ E Hnz) in H. discriminate.
    - rewrite (processFile_new _ _ _ _ _ _ _ _ _ _ E) in H. eauto. }
  destruct Hingest as (w0 & Hnone & Hingest).
  apply ingest_exception in Hingest.
  destruct Hingest
    as [(_ & _ & Hsome)
       | [(-> & Hsize & Hnew)
         | (He & total & inserted & deduped & Hpos & Hnew)]];
    [contradiction | |].
  - destruct (newest_find _ _ _ _ Hnew) as (u & Hu & _ & Hname & Hi).
    exists u. split; [exact Hu |]. split; [exact Hname |].
    left. repeat split; assumption.
  - destruct (newest_find _ _ _ _ Hnew) as (u & Hu & _ & Hname & Ht & Hi & Hd).
    exists u. split; [exact Hu |]. split; [exact Hname |]. right.
    split; [exact He |].
    exists total, inserted, deduped. repeat apply conj; try assumption.
    intros Hins now' env' batchSize'.
    rewrite (processFile_done _ _ _ _ _ _ _ _ _ _ u Hu).
    + rewrite Ht, Hi, Hd. reflexivity.
    + rewrite Hi. exact Hins.
Qed.

Lemma processFile_exception_witness :
  Fixtures.far_result
  = Throw "Error: D1_ERROR: NOT NULL constraint failed: daily_actions.date"
  /\ (exists u,
        upload_with (f_text Fixtures.far_file) Fixtures.far_uploaded = Some u
        /\ up_filename u = "far.json"%string
        /\ exists total inserted deduped,
             up_total_records u = Some total /\ 0 < total
             /\ up_inserted_records u = Some inserted
             /\ up_deduped_records u = Some deduped)
  /\ fst (Fixtures.processFile Fixtures.login_file Fixtures.env_plain None
            Fixtures.empty_world)
     = Throw "Error: D1_ERROR: No SQL statements detected."
  /\ fst (Upload.processFile Fixtures.JSON_parse Fixtures.Date_parse
            Fixtures.computeChecksum Fixtures.now Fixtures.randomblob_hex 1
            Fixtures.ndjson_file Fixtures.env_plain (Some 1000)
            Fixtures.empty_world)
     = Throw "RangeError: Maximum call stack size exceeded"
  /\ fst (Upload.processFile Fixtures.JSON_parse_with_far Fixtures.Date_parse
            Fixtures.computeChecksum Fixtures.now Fixtures.randomblob_hex
            Fixtures.max_arguments
            (Fixtures.file_of "again.json" (Fixtures.far_text ++ Fixtures.nl))
            Fixtures.env_plain (Some 1000) Fixtures.far_uploaded)
     = Throw "RangeError: Invalid time value".
Proof.
  split; [reflexivity |].
  split; [| repeat apply conj; vm_compute; reflexivity].
  destruct (processFile_exception Fixtures.JSON_parse_with_far Fixtures.Date_parse
              Fixtures.computeChecksum Fixtures.now Fixtures.randomblob_hex
              Fixtures.max_arguments
              Fixtures.far_file Fixtures.env_plain (Some 1000)
              Fixtures.empty_world Fixtures.far_uploaded
              "Error: D1_ERROR: NOT NULL constraint failed: daily_actions.date")
    as (u & Hu & Hn & [(He & _) | (_ & total & inserted & deduped & Ht & Hpos & Hi & Hd & _)]).
  - constructor.
  - vm_compute. reflexivity.
  - discriminate He.
  - exists u. split; [exact Hu |]. split; [exact Hn |].
    exists total, inserted, deduped. repeat split; assumption.
Defined.

(* ================================================================== *)
(** * The router *)
(* ================================================================== *)

Lemma replace_prefix (pattern rest : string) :
  replace (pattern ++ rest) pattern EmptyString = rest.
Proof.
  assert (Hprefix : forall p s, String.prefix p (p ++ s) = true).
  { induction p as [| c p IH]; intros s; simpl.
    - destruct s; reflexivity.
    - destruct (Ascii.ascii_dec c c) as [_ | Hc]; [apply IH | now destruct Hc]. }
  assert (Hsub : forall p s,
             String.substring (String.length p) (String.length s) (p ++ s) = s).
  { induction p as [| c p IH]; intros s; simpl.
    - induction s as [| d s IHs]; simpl; [reflexivity | now rewrite IHs].
    - apply IH. }
  assert (Hlen : forall p s,
             (String.length (p ++ s) - String.length p = String.length s)%nat).
  { induction p as [| c p IH]; intros s; simpl; [apply Nat.sub_0_r | apply IH]. }
  assert (Hstep : forall s p r,
             replace s p r
             = if String.prefix p s
               then (r ++ String.substring (String.length p)
                            (String.length s - String.length p) s)%string
               else match s with
                    | EmptyString => EmptyString
                    | String c s' => String c (replace s' p r)
                    end).
  { intros [| c s'] p r; reflexivity. }
  rewrite Hstep, Hprefix, Hlen, Hsub. reflexivity.
Qed.

Section Router.

Variable JSON_parse : string -> Parsed.
Variable Date_parse : string -> option Z.
Variable computeChecksum : string -> string.
Variable now : Z.
Variable randomblob_hex : nat -> string.
Variable max_arguments : Z.
Variable ReadResponse : Type.
Variable handleEvents handleSummary handleTrends : Context -> Env -> M ReadResponse.
Variable handleTopRules handleTopIPs handleTopPaths : Context -> Env -> M ReadResponse.

Let dispatch :=
  dispatch JSON_parse Date_parse computeChecksum now randomblob_hex max_arguments ReadResponse
    handleEvents handleSummary handleTrends
    handleTopRules handleTopIPs handleTopPaths.
Let onRequest :=
  onRequest JSON_parse Date_parse computeChecksum now randomblob_hex max_arguments ReadResponse
    handleEvents handleSummary handleTrends
    handleTopRules handleTopIPs handleTopPaths.

Lemma onRequest_run (context : Context) (env : Env) (AUTH_TOKEN : string)
    (MAX_FILE_SIZE_MB : option string) (w : World) :
  onRequest context env AUTH_TOKEN MAX_FILE_SIZE_MB w
  = if String.eqb (req_method context) "OPTIONS" then (Ok preflight, w)
    else if is_protected context && negb (presents context AUTH_TOKEN)
    then (Ok reply_401, w)
    else match dispatch context env MAX_FILE_SIZE_MB w with
         | (Throw e, w') => (Ok (reply_500 (message_of e)), w')
         | r => r
         end.
Proof.
  unfold onRequest, Route.onRequest, is_protected, presents. cbv zeta.
  destruct (String.eqb (req_method context) "OPTIONS"); [reflexivity |].
  destruct (req_authorization context) as [header |];
    cbn [option_map opt_eqb]; destruct (_ && _); reflexivity.
Qed.

(** A dispatch that changes the store went to one of the two handlers
    that write, by POST. *)
Lemma dispatch_writes (context : Context) (env : Env)
    (MAX_FILE_SIZE_MB : option string) (w : World) :
  reads_only handleEvents -> reads_only handleSummary ->
  reads_only handleTrends -> reads_only handleTopRules ->
  reads_only handleTopIPs -> reads_only handleTopPaths ->
  snd (dispatch context env MAX_FILE_SIZE_MB w) <> w ->
  req_method context = "POST"%string
  /\ (req_route context = "upload"%string \/ req_route context = "reindex"%string).
Proof.
  intros H1 H2 H3 H4 H5 H6.
  assert (Hread : forall handler : Context -> Env -> M ReadResponse,
             reads_only handler ->
             snd (bind (handler context env)
                    (fun response => ret (reply_read response)) w) = w).
  { intros handler Hh. specialize (Hh context env w). simpl in Hh.
    unfold bind, ret.
    destruct (handler context env w) as [[r | e |] w1]; exact Hh. }
  unfold dispatch, Route.dispatch. cbv zeta.
  destruct (String.eqb_spec (req_method context) "POST") as [Hpost | Hpost].
  - destruct (String.eqb_spec (req_route context) "upload") as [Hu | Hu];
      [intros _; auto |].
    rewrite Hpost. cbn [andb String.eqb Ascii.eqb Bool.eqb].
    rewrite !andb_false_r.
    destruct (String.eqb_spec (req_route context) "reindex") as [Hr | Hr];
      [intros _; auto |].
    intros H. now destruct H.
  - rewrite !andb_false_r.
    repeat match goal with
           | |- context [if ?b && ?c then _ else _] =>
               destruct (b && c);
               [rewrite Hread by assumption; intros H; now destruct H |]
           end.
    intros H. now destruct H.
Qed.

End Router.

(** X18: the token gate of the router.  A request other than OPTIONS to
    the route reindex, or by POST to any route, whose Authorization header
    is missing or, less its first [Bearer ], is not the token, is answered
    401 and no handler runs.  The header [Bearer ] followed by the token
    passes the gate.  With read handlers that leave the store as it is,
    a request that changes the store is a POST to upload or reindex that
    presents the token. *)
Theorem onRequest_token_gate
    (JSON_parse : string -> Parsed) (Date_parse : string -> option Z)
    (computeChecksum : string -> string) (now : Z) (randomblob_hex : nat -> string)
    (max_arguments : Z)
    (ReadResponse : Type)
    (handleEvents handleSummary handleTrends
       handleTopRules handleTopIPs handleTopPaths
     : Context -> Env -> M ReadResponse)
    (context : Context) (env : Env) (AUTH_TOKEN : string)
    (MAX_FILE_SIZE_MB : option string) (w : World) :
  (req_method context <> "OPTIONS"%string ->
   is_protected context = true ->
   presents context AUTH_TOKEN = false ->
   onRequest JSON_parse Date_parse computeChecksum now randomblob_hex max_arguments ReadResponse
     handleEvents handleSummary handleTrends
     handleTopRules handleTopIPs handleTopPaths
     context env AUTH_TOKEN MAX_FILE_SIZE_MB w
   = (Ok reply_401, w))
  /\ (req_authorization context = Some ("Bearer " ++ AUTH_TOKEN)%string ->
      presents context AUTH_TOKEN = true)
  /\ (reads_only handleEvents -> reads_only handleSummary ->
      reads_only handleTrends -> reads_only handleTopRules ->
      reads_only handleTopIPs -> reads_only handleTopPaths ->
      snd (onRequest JSON_parse Date_parse computeChecksum now randomblob_hex max_arguments
             ReadResponse handleEvents handleSummary handleTrends
             handleTopRules handleTopIPs handleTopPaths
             context env AUTH_TOKEN MAX_FILE_SIZE_MB w) <> w ->
      req_method context = "POST"%string
      /\ (req_route context = "upload"%string
          \/ req_route context = "reindex"%string)
      /\ presents context AUTH_TOKEN = true).
Proof.
  rewrite onRequest_run. repeat apply conj.
  - intros Hm Hp Ht. apply String.eqb_neq in Hm. rewrite Hm, Hp, Ht. reflexivity.
  - intros Hh. unfold presents. rewrite Hh, replace_prefix.
    apply String.eqb_refl.
  - intros H1 H2 H3 H4 H5 H6.
    destruct (String.eqb (req_method context) "OPTIONS");
      [intros H; now destruct H |].
    destruct (is_protected context && negb (presents context AUTH_TOKEN)) eqn:Egate;
      [intros H; now destruct H |].
    intros Hw.
    assert (Hd : snd (dispatch JSON_parse Date_parse computeChecksum now
                        randomblob_hex max_arguments ReadResponse handleEvents handleSummary
                        handleTrends handleTopRules handleTopIPs handleTopPaths
                        context env MAX_FILE_SIZE_MB w) <> w).
    { destruct (dispatch _ _ _ _ _ _ _ _ _ _ _ _ _ context env MAX_FILE_SIZE_MB w)
        as [[r | e |] w1]; exact Hw. }
    destruct (dispatch_writes _ _ _ _ _ _ _ _ _ _ _ _ _ context env
                MAX_FILE_SIZE_MB w H1 H2 H3 H4 H5 H6 Hd) as (Hpost & Hroute).
    repeat split; try assumption.
    unfold is_protected in Egate. rewrite Hpost in Egate.
    rewrite orb_true_r in Egate. simpl in Egate.
    destruct (presents context AUTH_TOKEN); [reflexivity | discriminate].
Qed.

Lemma onRequest_token_gate_witness :
  Fixtures.onRequest
    (Fixtures.post_upload (Some "Bearer guess") [Fixtures.login_file])
    Fixtures.env_plain "secret" None Fixtures.empty_world
  = (Ok reply_401, Fixtures.empty_world)
  /\ presents (Fixtures.post_upload (Some "Bearer secret") [Fixtures.login_file])
       "secret" = true.
Proof.
  split.
  - apply (proj1 (onRequest_token_gate Fixtures.JSON_parse Fixtures.Date_parse
             Fixtures.computeChecksum Fixtures.now Fixtures.randomblob_hex Fixtures.max_arguments
             unit Fixtures.silent Fixtures.silent Fixtures.silent
             Fixtures.silent Fixtures.silent Fixtures.silent
             (Fixtures.post_upload (Some "Bearer guess") [Fixtures.login_file])
             Fixtures.env_plain "secret" None Fixtures.empty_world)).
    + discriminate.
    + reflexivity.
    + reflexivity.
  - apply (proj1 (proj2 (onRequest_token_gate Fixtures.JSON_parse Fixtures.Date_parse
             Fixtures.computeChecksum Fixtures.now Fixtures.randomblob_hex Fixtures.max_arguments
             unit Fixtures.silent Fixtures.silent Fixtures.silent
             Fixtures.silent Fixtures.silent Fixtures.silent
             (Fixtures.post_upload (Some "Bearer secret") [Fixtures.login_file])
             Fixtures.env_plain "secret" None Fixtures.empty_world))).
    reflexivity.
Defined.

Lemma handleUpload_no_exception
    (JSON_parse : string -> Parsed) (Date_parse : string -> option Z)
    (computeChecksum : string -> string) (now : Z) (randomblob_hex : nat -> string)
    (max_arguments : Z)
    (request : UploadRequest) (env : Env) (MAX_FILE_SIZE_MB : option string)
    (w w' : World) (e : string) :
  handleUpload JSON_parse Date_parse computeChecksum now randomblob_hex max_arguments
    request env MAX_FILE_SIZE_MB w <> (Throw e, w').
Proof.
  rewrite handleUpload_run.
  destruct (negb _); [discriminate |].
  destruct (form_files request) as [| file rest]; [discriminate |].
  pose proof (upload_files_names JSON_parse Date_parse computeChecksum now
                randomblob_hex max_arguments (maxFileSize_of MAX_FILE_SIZE_MB)
                (parseInt (or_default (MAX_BATCH_SIZE env) "1000") 0)
                env (file :: rest) [] w) as H.
  destruct (upload_files _ _ _ _ _ _ _ _ _ (file :: rest) [] w) as [[? | ? |] ?];
    [discriminate | destruct H | discriminate].
Qed.

Lemma handleReindex_no_exception
    (JSON_parse : string -> Parsed) (Date_parse : string -> option Z) (now : Z)
    (body : Body) (env : Env) (w w' : World) (e : string) :
  handleReindex JSON_parse Date_parse now body env w <> (Throw e, w').
Proof.
  unfold handleReindex.
  destruct (handleReindex_try JSON_parse Date_parse now body env w)
    as [[? | ? |] ?]; discriminate.
Qed.

(** X19: the routes of the router.  OPTIONS is answered by the preflight
    response on every route, with or without token, and nothing runs.
    The route upload by a method other than POST and OPTIONS is answered
    404, without a token being asked; the route reindex by such a method
    is answered 404 to a caller that presents the token.  On the routes
    upload and reindex the router never answers its own 500: the two
    handlers answer their exceptions themselves. *)
Theorem onRequest_routes
    (JSON_parse : string -> Parsed) (Date_parse : string -> option Z)
    (computeChecksum : string -> string) (now : Z) (randomblob_hex : nat -> string)
    (max_arguments : Z)
    (ReadResponse : Type)
    (handleEvents handleSummary handleTrends
       handleTopRules handleTopIPs handleTopPaths
     : Context -> Env -> M ReadResponse)
    (context : Context) (env : Env) (AUTH_TOKEN : string)
    (MAX_FILE_SIZE_MB : option string) (w : World) :
  let answer :=
    onRequest JSON_parse Date_parse computeChecksum now randomblob_hex max_arguments ReadResponse
      handleEvents handleSummary handleTrends
      handleTopRules handleTopIPs handleTopPaths
      context env AUTH_TOKEN MAX_FILE_SIZE_MB w in
  (req_method context = "OPTIONS"%string -> answer = (Ok preflight, w))
  /\ (req_method context <> "OPTIONS"%string ->
      req_method context <> "POST"%string ->
      (req_route context = "upload"%string -> answer = (Ok reply_404, w))
      /\ (req_route context = "reindex"%string ->
          presents context AUTH_TOKEN = true -> answer = (Ok reply_404, w)))
  /\ (req_route context = "upload"%string
      \/ req_route context = "reindex"%string ->
      forall message w', answer <> (Ok (reply_500 message), w')).
Proof.
  intros answer. subst answer. rewrite onRequest_run.
  unfold is_protected, dispatch. cbv zeta.
  repeat apply conj.
  - intros ->. reflexivity.
  - intros Ho Hp. apply String.eqb_neq in Ho. apply String.eqb_neq in Hp.
    rewrite Ho, Hp. split.
    + intros ->. reflexivity.
    + intros -> ->. reflexivity.
  - intros Hroute message w'.
    destruct (String.eqb (req_method context) "OPTIONS"); [discriminate |].
    destruct (_ && negb _); [discriminate |].
    destruct Hroute as [-> | ->]; cbn [String.eqb Ascii.eqb Bool.eqb andb].
    + destruct (String.eqb (req_method context) "POST"); [| discriminate].
      unfold bind, ret.
      destruct (handleUpload _ _ _ _ _ _ _ _ _ w) as [[r | e |] w1] eqn:E;
        [discriminate | | discriminate].
      exfalso. exact (handleUpload_no_exception _ _ _ _ _ _ _ _ _ _ _ _ E).
    + destruct (String.eqb (req_method context) "POST"); [| discriminate].
      unfold bind, ret.
      destruct (handleReindex _ _ _ _ _ w) as [[r | e |] w1] eqn:E;
        [discriminate | | discriminate].
      exfalso. exact (handleReindex_no_exception _ _ _ _ _ _ _ _ E).
Qed.

Lemma onRequest_routes_witness :
  Fixtures.onRequest
    (mkContext "GET" "reindex" (Some "secret")
       (Fixtures.multipart []) (mkBody None (Some 1)))
    Fixtures.env_plain "secret" None Fixtures.empty_world
  = (Ok reply_404, Fixtures.empty_world).
Proof.
  apply (proj1 (proj2 (onRequest_routes Fixtures.JSON_parse Fixtures.Date_parse
           Fixtures.computeChecksum Fixtures.now Fixtures.randomblob_hex Fixtures.max_arguments
           unit Fixtures.silent Fixtures.silent Fixtures.silent
           Fixtures.silent Fixtures.silent Fixtures.silent
           (mkContext "GET" "reindex" (Some "secret")
              (Fixtures.multipart []) (mkBody None (Some 1)))
           Fixtures.env_plain "secret" None Fixtures.empty_world)));
    try discriminate; reflexivity.
Defined.

(* ================================================================== *)
(** * The checksum as a text *)
(* ================================================================== *)

(** The check that the two characters written for the number [n] are
    lower-case hexadecimal digits and read back as [n]. *)
Lemma render_number_checked :
  forallb
    (fun k =>
       let n := N.of_nat k in
       match Checksum.padStart (Checksum.toString16 n) 2 "0"%char with
       | String hi (String lo EmptyString) =>
           is_lower_hex hi && is_lower_hex lo
           && match hex_value hi, hex_value lo with
              | Some h, Some l => (h =? n / 16)%N && (l =? n mod 16)%N
              | _, _ => false
              end
       | _ => false
       end)
    (seq 0 256) = true.
Proof.
  vm_compute. reflexivity.
Qed.

Lemma render_byte (b : Byte.byte) :
  exists hi lo,
    Checksum.padStart (Checksum.toString16 (Byte.to_N b)) 2 "0"%char
    = String hi (String lo EmptyString)
    /\ is_lower_hex hi = true /\ is_lower_hex lo = true
    /\ hex_value hi = Some (Byte.to_N b / 16)%N
    /\ hex_value lo = Some (Byte.to_N b mod 16)%N.
Proof.
  pose proof render_number_checked as Hall.
  rewrite forallb_forall in Hall.
  specialize (Hall (N.to_nat (Byte.to_N b))).
  rewrite N2Nat.id in Hall.
  assert (Hin : In (N.to_nat (Byte.to_N b)) (seq 0 256)).
  { apply in_seq. pose proof (Byte.to_N_bounded b). lia. }
  specialize (Hall Hin). cbv zeta in Hall.
  destruct (Checksum.padStart (Checksum.toString16 (Byte.to_N b)) 2 "0"%char)
    as [| hi [| lo [| ? ?]]]; try discriminate.
  exists hi, lo.
  destruct (is_lower_hex hi); [| discriminate].
  destruct (is_lower_hex lo); [| discriminate].
  destruct (hex_value hi) as [h |]; [| discriminate].
  destruct (hex_value lo) as [l |]; [| discriminate].
  cbn [andb] in Hall. apply andb_prop in Hall. destruct Hall as [Hh Hl].
  apply N.eqb_eq in Hh. apply N.eqb_eq in Hl. subst h l.
  repeat split.
Qed.

Lemma byte_of_pair (b : Byte.byte) :
  Byte.of_N (16 * (Byte.to_N b / 16) + Byte.to_N b mod 16) = Some b.
Proof.
  rewrite <- N.div_mod by discriminate. apply Byte.of_to_N.
Qed.

Lemma render_bytes (bytes : list Byte.byte) :
  let text :=
    Checksum.join
      (map (fun b => Checksum.padStart (Checksum.toString16 (Byte.to_N b)) 2 "0"%char)
         bytes) in
  String.length text = (2 * List.length bytes)%nat
  /\ forallb is_lower_hex (list_ascii_of_string text) = true
  /\ unhex text = Some bytes.
Proof.
  induction bytes as [| b bytes IH]; [repeat split |].
  cbv zeta in *. destruct IH as (Hlen & Hhex & Hun).
  destruct (render_byte b) as (hi & lo & Hb & Hhi & Hlo & Hvhi & Hvlo).
  assert (E : Checksum.join
                (map (fun b => Checksum.padStart
                                 (Checksum.toString16 (Byte.to_N b)) 2 "0"%char)
                   (b :: bytes))
              = String hi (String lo
                  (Checksum.join
                     (map (fun b => Checksum.padStart
                                      (Checksum.toString16 (Byte.to_N b)) 2 "0"%char)
                        bytes)))).
  { unfold Checksum.join. cbn [map String.concat]. rewrite Hb.
    destruct (map _ bytes); reflexivity. }
  rewrite E. repeat apply conj.
  - cbn [String.length]. rewrite Hlen. simpl. lia.
  - cbn [list_ascii_of_string forallb]. rewrite Hhi, Hlo, Hhex. reflexivity.
  - cbn [unhex]. rewrite Hvhi, Hvlo, Hun, byte_of_pair. reflexivity.
Qed.

(** X20: the text of [computeChecksum] is the digest written in lower-case
    hexadecimal, two characters per byte: its length is twice the number
    of bytes, every character is one of 0-9 and a-f, and the bytes can be
    read back from it; so two contents have the same checksum exactly
    when they have the same digest, and the checksum of a digest that is
    not empty is not the empty text. *)
Theorem computeChecksum_hex (sha256 : string -> list Byte.byte)
    (content content' : string) :
  String.length (Checksum.computeChecksum sha256 content)
  = (2 * List.length (sha256 content))%nat
  /\ forallb is_lower_hex
       (list_ascii_of_string (Checksum.computeChecksum sha256 content)) = true
  /\ unhex (Checksum.computeChecksum sha256 content) = Some (sha256 content)
  /\ (Checksum.computeChecksum sha256 content
      = Checksum.computeChecksum sha256 content'
      <-> sha256 content = sha256 content')
  /\ (sha256 content <> [] ->
      Checksum.computeChecksum sha256 content <> EmptyString).
Proof.
  unfold Checksum.computeChecksum. cbv zeta.
  destruct (render_bytes (sha256 content)) as (Hlen & Hhex & Hun).
  destruct (render_bytes (sha256 content')) as (_ & _ & Hun').
  cbv zeta in *. repeat apply conj; try assumption.
  - intros E. rewrite E in Hun. congruence.
  - intros ->. reflexivity.
  - intros Hne E. rewrite E in Hlen. simpl in Hlen.
    destruct (sha256 content); [contradiction | discriminate].
Qed.

Lemma computeChecksum_hex_witness :
  Checksum.computeChecksum (fun _ => [Byte.x00; Byte.x0a; Byte.xff]) "a"
  = Checksum.computeChecksum (fun _ => [Byte.x00; Byte.x0a; Byte.xff]) "b".
Proof.
  destruct (computeChecksum_hex (fun _ => [Byte.x00; Byte.x0a; Byte.xff]) "a" "b")
    as (_ & _ & _ & Hsame & _).
  apply Hsame. reflexivity.
Defined.

(* ================================================================== *)
(** * The series of handleTrends *)
(* ================================================================== *)

Lemma bucketSize_of_pos (bucket : string) : 0 < Trends.bucketSize_of bucket.
Proof.
  unfold Trends.bucketSize_of.
  repeat match goal with |- context [if ?b then _ else _] => destruct b end; lia.
Qed.

Lemma bucket_starts_nil (b s e : Z) : 0 < b -> e < s -> bucket_starts b s e = [].
Proof.
  intros Hb Hlt. unfold bucket_starts.
  assert ((e - s) / b < 0) by (apply Z.div_lt_upper_bound; lia).
  replace (Z.to_nat ((e - s) / b + 1)) with O by lia. reflexivity.
Qed.

Lemma bucket_starts_step (b s e : Z) :
  0 < b -> s <= e ->
  bucket_starts b s e = (s / b * b) :: bucket_starts b (s + b) e.
Proof.
  intros Hb Hle. unfold bucket_starts.
  assert (Hq : (e - (s + b)) / b = (e - s) / b - 1).
  { replace (e - (s + b)) with (e - s + (-1) * b) by lia.
    rewrite Z.div_add by lia. lia. }
  assert (Hs : (s + b) / b = s / b + 1).
  { replace (s + b) with (s + 1 * b) by lia. rewrite Z.div_add by lia. lia. }
  assert (0 <= (e - s) / b) by (apply Z.div_pos; lia).
  rewrite Hq, Hs.
  replace (Z.to_nat ((e - s) / b + 1)) with (S (Z.to_nat ((e - s) / b - 1 + 1)))
    by lia.
  cbn [seq map]. rewrite Z.add_0_r. f_equal.
  rewrite <- seq_shift, map_map. apply map_ext. intros k.
  rewrite Nat2Z.inj_succ. f_equal. lia.
Qed.

Lemma bucket_starts_In (b s e x : Z) :
  In x (bucket_starts b s e) ->
  exists k, 0 <= k < (e - s) / b + 1 /\ x = (s / b + k) * b.
Proof.
  unfold bucket_starts. intros H. apply in_map_iff in H.
  destruct H as (k & <- & Hk). apply in_seq in Hk.
  exists (Z.of_nat k). split; [lia | reflexivity].
Qed.

Lemma bucket_starts_ascending (b s e : Z) :
  0 < b -> ascending (bucket_starts b s e).
Proof.
  intros Hb. unfold bucket_starts.
  generalize (Z.to_nat ((e - s) / b + 1)) as n. generalize 0%nat as from.
  intros from n. revert from.
  induction n as [| n IH]; intros from; [exact I |].
  cbn [seq map ascending]. split; [| apply IH].
  destruct n; [exact I |]. cbn [seq map]. nia.
Qed.

Lemma assoc_get_In (k : Z) (m : list (Z * Trends.TimeSeriesData))
    (d : Trends.TimeSeriesData) :
  Trends.assoc_get Z.eqb k m = Some d -> In (k, d) m.
Proof.
  induction m as [| [k' d'] m IH]; simpl; [discriminate |].
  destruct (Z.eqb_spec k' k) as [-> | _].
  - intros [= ->]. left. reflexivity.
  - intros H. right. apply IH, H.
Qed.

Lemma assoc_set_In (k k' : Z) (d d' : Trends.TimeSeriesData)
    (m : list (Z * Trends.TimeSeriesData)) :
  In (k', d') (Trends.assoc_set Z.eqb k d m) ->
  (k', d') = (k, d) \/ In (k', d') m.
Proof.
  induction m as [| [k0 d0] m IH]; simpl.
  - intros [H | []]. left. symmetry. exact H.
  - destruct (k0 =? k); simpl.
    + intros [H | H]; [left; symmetry; exact H | right; right; exact H].
    + intros [H | H]; [right; left; exact H |].
      destruct (IH H) as [E | E]; [left; exact E | right; right; exact E].
Qed.

Lemma assoc_set_fresh (k : Z) (d : Trends.TimeSeriesData)
    (m : list (Z * Trends.TimeSeriesData)) :
  ~ In k (map fst m) -> Trends.assoc_set Z.eqb k d m = m ++ [(k, d)].
Proof.
  induction m as [| [k0 d0] m IH]; simpl; intros Hk; [reflexivity |].
  destruct (Z.eqb_spec k0 k) as [E | _]; [exfalso; apply Hk; left; exact E |].
  rewrite IH by (intros H; apply Hk; right; exact H). reflexivity.
Qed.

Lemma add_row_keyed (m : list (Z * Trends.TimeSeriesData)) (row : Trends.TrendRow) :
  Trends.tr_action row <> "timestamp"%string ->
  keyed m -> keyed (Trends.add_row m row).
Proof.
  intros Haction Hm. unfold Trends.add_row. cbv zeta.
  set (m1 := match Trends.assoc_get Z.eqb (Trends.tr_timestamp row) m with
             | Some _ => m
             | None => _
             end).
  assert (Hm1 : keyed m1).
  { unfold m1. destruct (Trends.assoc_get Z.eqb (Trends.tr_timestamp row) m);
      [exact Hm |].
    intros k d H. apply assoc_set_In in H. destruct H as [[= -> ->] | H];
      [reflexivity | apply Hm, H]. }
  destruct (Trends.assoc_get Z.eqb (Trends.tr_timestamp row) m1) as [data |] eqn:E;
    [| exact Hm1].
  apply assoc_get_In, Hm1 in E.
  intros k d H. apply assoc_set_In in H. destruct H as [[= -> ->] | H];
    [| apply Hm1, H].
  cbn [Trends.ts_timestamp]. unfold Trends.set_property.
  apply String.eqb_neq in Haction. rewrite Haction.
  destruct (String.eqb (Trends.tr_action row) "total"); exact E.
Qed.

Lemma rows_keyed (rows : list Trends.TrendRow) :
  Forall (fun r => Trends.tr_action r <> "timestamp"%string) rows ->
  keyed (fold_left Trends.add_row rows []).
Proof.
  assert (H : forall m, keyed m ->
              Forall (fun r => Trends.tr_action r <> "timestamp"%string) rows ->
              keyed (fold_left Trends.add_row rows m)).
  { induction rows as [| r rows IH]; intros m Hm Hall; [exact Hm |].
    inversion Hall as [| ? ? Hr Hrest]; subst. simpl.
    apply IH; [apply add_row_keyed; assumption | exact Hrest]. }
  apply H. intros k d [].
Qed.

Lemma fill_timestamps (b e : Z) (m : list (Z * Trends.TimeSeriesData)) :
  0 < b -> keyed m ->
  forall (fuel : nat) (ts : Z) (filled : list Trends.TimeSeriesData),
    e - ts < Z.of_nat fuel ->
    map Trends.ts_timestamp (Trends.fill fuel ts e b m filled)
    = map Trends.ts_timestamp filled ++ bucket_starts b ts e.
Proof.
  intros Hb Hm. induction fuel as [| fuel IH]; intros ts filled Hfuel.
  - simpl. rewrite bucket_starts_nil by lia. rewrite app_nil_r. reflexivity.
  - cbn [Trends.fill]. destruct (Z.leb_spec ts e) as [Hle | Hgt].
    + cbv zeta. rewrite IH by lia. unfold push. rewrite map_app, <- app_assoc.
      rewrite (bucket_starts_step b ts e) by assumption. cbn [map app].
      repeat f_equal.
      destruct (Trends.assoc_get Z.eqb (ts / b * b) m) as [data |] eqn:E;
        [| reflexivity].
      apply assoc_get_In, Hm in E. exact E.
    + rewrite bucket_starts_nil by lia. rewrite app_nil_r. reflexivity.
Qed.

Lemma ascending_above (x : Z) (l : list Z) :
  ascending (x :: l) -> forall y, In y l -> x < y.
Proof.
  revert x. induction l as [| z l IH]; intros x H y Hy; [destruct Hy |].
  cbn [ascending] in H. destruct H as (Hxz & Hrest).
  destruct Hy as [<- | Hy]; [exact Hxz |].
  pose proof (IH z Hrest y Hy). lia.
Qed.

Lemma sort_ascending (items : list Trends.TimeSeriesData) :
  ascending (map Trends.ts_timestamp items) -> Trends.sort items = items.
Proof.
  induction items as [| x items IH]; intros H; [reflexivity |].
  unfold Trends.sort in *. cbn [fold_right].
  cbn [map ascending] in H. destruct H as (Hx & Hrest).
  rewrite IH by exact Hrest.
  destruct items as [| y items]; [reflexivity |].
  cbn [Trends.insert_sorted map] in *.
  destruct (Z.leb_spec (Trends.ts_timestamp x) (Trends.ts_timestamp y));
    [reflexivity | lia].
Qed.

Lemma unique_ascending (items : list Trends.TimeSeriesData) :
  ascending (map Trends.ts_timestamp items) ->
  Trends.unique_by_timestamp items = items.
Proof.
  unfold Trends.unique_by_timestamp.
  assert (H : forall acc,
             ascending (map fst acc ++ map Trends.ts_timestamp items) ->
             map snd
               (fold_left
                  (fun m item =>
                     Trends.assoc_set Z.eqb (Trends.ts_timestamp item) item m)
                  items acc)
             = map snd acc ++ items).
  { induction items as [| x items IH]; intros acc Hasc.
    - simpl. rewrite app_nil_r. reflexivity.
    - cbn [fold_left]. rewrite assoc_set_fresh.
      + rewrite IH.
        * rewrite map_app, <- app_assoc. reflexivity.
        * rewrite map_app, <- app_assoc. exact Hasc.
      + intros Hin. clear IH. revert Hasc Hin.
        induction acc as [| [k d] acc IHacc]; intros Hasc Hin; [destruct Hin |].
        cbn [map app fst] in *. destruct Hin as [E | Hin].
        * pose proof (ascending_above _ _ Hasc (Trends.ts_timestamp x)) as Hlt.
          assert (k < Trends.ts_timestamp x); [| lia].
          apply Hlt. apply in_or_app. right. left. reflexivity.
        * apply IHacc; [| exact Hin]. cbn [ascending] in Hasc. tauto. }
  intros Hasc. apply (H []). exact Hasc.
Qed.

(** X21: the series of [handleTrends].  The bucket size is positive, so
    the fill loop ends.  When a time parameter does not parse to a number
    the series is empty.  Otherwise (no row of the query having the text
    timestamp as action) the series has exactly one entry per bucket
    visited from the start time in steps of the bucket size, in ascending
    order, the removal of duplicates and the sort changing nothing; so
    when the end time lies earlier in its bucket than the start time in
    its own, the bucket of the end time is not in the series, although
    the query selects its events. *)
Theorem handleTrends_buckets (now : Z) (start_time end_time bucket : option string)
    (rows : list Trends.TrendRow) :
  let answer := Trends.handleTrends now start_time end_time bucket rows in
  let b := Trends.t_bucket_size answer in
  0 < b
  /\ (Trends.t_start_time answer = None \/ Trends.t_end_time answer = None ->
      Trends.t_data answer = [])
  /\ (forall s e,
        Trends.t_start_time answer = Some s ->
        Trends.t_end_time answer = Some e ->
        Forall (fun r => Trends.tr_action r <> "timestamp"%string) rows ->
        map Trends.ts_timestamp (Trends.t_data answer) = bucket_starts b s e
        /\ ascending (map Trends.ts_timestamp (Trends.t_data answer))
        /\ (s <= e -> e mod b < s mod b ->
            ~ In (e / b * b) (map Trends.ts_timestamp (Trends.t_data answer)))).
Proof.
  cbv zeta. unfold Trends.handleTrends. cbv zeta.
  cbn [Trends.t_bucket_size Trends.t_start_time Trends.t_end_time Trends.t_data].
  set (b := Trends.bucketSize_of (Upload.or_default bucket "hour")).
  assert (Hb : 0 < b) by apply bucketSize_of_pos.
  repeat apply conj.
  - exact Hb.
  - unfold Trends.series. intros [-> | ->]; [reflexivity |].
    destruct (Trends.time_param start_time _); reflexivity.
  - intros s e -> -> Hrows. unfold Trends.series. cbv zeta.
    set (filled := Trends.fill _ s e b _ []).
    assert (Hfilled : map Trends.ts_timestamp filled = bucket_starts b s e).
    { unfold filled. rewrite fill_timestamps;
        [reflexivity | exact Hb | apply rows_keyed, Hrows | lia]. }
    assert (Hasc : ascending (map Trends.ts_timestamp filled))
      by (rewrite Hfilled; apply bucket_starts_ascending, Hb).
    rewrite unique_ascending by exact Hasc.
    rewrite sort_ascending by exact Hasc.
    repeat apply conj; [exact Hfilled | exact Hasc |].
    intros Hle Hmod Hin. rewrite Hfilled in Hin.
    apply bucket_starts_In in Hin. destruct Hin as (k & Hk & E).
    assert (Hq : (e - s) / b = e / b - s / b - 1).
    { symmetry. apply Z.div_unique with (r := b + e mod b - s mod b).
      - left. pose proof (Z.mod_pos_bound e b Hb).
        pose proof (Z.mod_pos_bound s b Hb). lia.
      - pose proof (Z.div_mod e b ltac:(lia)).
        pose proof (Z.div_mod s b ltac:(lia)). lia. }
    assert (e / b = s / b + k) by nia.
    lia.
Qed.

Lemma handleTrends_buckets_witness :
  map Trends.ts_timestamp
    (Trends.t_data
       (Trends.handleTrends 0 (Some "50000") (Some "70000") (Some "minute")
          [Trends.mkTrendRow 60000 "block" 1]))
  = [0].
Proof.
  destruct (handleTrends_buckets 0 (Some "50000") (Some "70000") (Some "minute")
              [Trends.mkTrendRow 60000 "block" 1]) as (_ & _ & H).
  destruct (H 50000 70000) as (E & _).
  - reflexivity.
  - reflexivity.
  - repeat constructor. discriminate.
  - rewrite E. reflexivity.
Defined.

(* ================================================================== *)
(** * The query of handleEvents *)
(* ================================================================== *)

Lemma placeholders_app (s t : string) :
  placeholders (s ++ t) = (placeholders s + placeholders t)%nat.
Proof.
  induction s as [| c s IH]; simpl; [reflexivity |]. rewrite IH. lia.
Qed.

Lemma placeholders_conditions (conditions : list string) :
  placeholders (Events.whereClause_of conditions)
  = list_sum (map placeholders conditions).
Proof.
  unfold Events.whereClause_of. destruct conditions as [| c conditions];
    [reflexivity |].
  rewrite placeholders_app. change (placeholders "WHERE ") with O.
  cbn [Nat.add]. revert c.
  induction conditions as [| d conditions IH]; intros c.
  - simpl. lia.
  - change (String.concat " AND " (c :: d :: conditions))
      with (c ++ " AND " ++ String.concat " AND " (d :: conditions))%string.
    rewrite !placeholders_app, IH. simpl. lia.
Qed.

Lemma filter_by_invariant (present : bool) (condition : string)
    (values : list Events.Param) (built : list string * list Events.Param) :
  placeholders condition = List.length values ->
  (present = true -> Forall bound_by_filter values) ->
  list_sum (map placeholders (fst built)) = List.length (snd built)
  /\ Forall bound_by_filter (snd built) ->
  list_sum (map placeholders (fst (Events.filter_by present condition values built)))
  = List.length (snd (Events.filter_by present condition values built))
  /\ Forall bound_by_filter (snd (Events.filter_by present condition values built)).
Proof.
  intros Hc Hv (Hsum & Hall). unfold Events.filter_by.
  destruct present; [| split; assumption].
  cbn [fst snd]. unfold push. split.
  - rewrite map_app, list_sum_app, length_app, Hsum. simpl. lia.
  - apply Forall_app. split; [exact Hall | apply Hv; reflexivity].
Qed.

Lemma truthy_num_bound (n : option Events.Num) :
  Events.truthy_num n = true -> Forall bound_by_filter [Events.number_param n].
Proof.
  destruct n as [[z |] |]; try discriminate. simpl. intros H.
  constructor; [| constructor]. exists z. split; [reflexivity |].
  intros ->. discriminate.
Qed.

Lemma truthy_text_bound (s : option string) :
  Events.truthy_text s = true -> Forall bound_by_filter [Events.text_param s].
Proof.
  destruct s as [t |]; [| discriminate]. simpl. intros H.
  constructor; [| constructor]. simpl. intros ->. discriminate.
Qed.

(** X22: the query of [handleEvents] binds what it asks for.  The text of
    the count query has as many [?] as values are bound to it, and the
    page query, with its LIMIT and OFFSET, two more.  A value bound by a
    filter is a number other than 0 and NaN or a text that is not
    empty: a parameter that is absent, empty, 0 or not a number is no
    filter. *)
Theorem handleEvents_binding (p : Events.SearchParams) :
  let query := Events.query_of p in
  placeholders (fst (Events.countQuery_of query))
  = List.length (snd (Events.countQuery_of query))
  /\ List.length (Events.page_params query)
     = (placeholders (Events.whereClause_of (fst (Events.conditions_of query))) + 2)%nat
  /\ Forall bound_by_filter (snd (Events.conditions_of query)).
Proof.
  intros query.
  assert (H : list_sum (map placeholders (fst (Events.conditions_of query)))
              = List.length (snd (Events.conditions_of query))
              /\ Forall bound_by_filter (snd (Events.conditions_of query))).
  { unfold Events.conditions_of. cbv zeta.
    repeat (apply filter_by_invariant;
            [reflexivity
            | first [apply truthy_num_bound | apply truthy_text_bound
                    | intros _; repeat constructor; discriminate]
            |]).
    split; [reflexivity | constructor]. }
  destruct H as (Hsum & Hall).
  repeat apply conj.
  - unfold Events.countQuery_of. cbv zeta. cbn [fst snd].
    rewrite placeholders_app, placeholders_conditions, Hsum. reflexivity.
  - unfold Events.page_params. rewrite length_app, placeholders_conditions, Hsum.
    reflexivity.
  - exact Hall.
Qed.
